(** * nettool: retry-based probing and latest-per-host aggregation

    A shallow embedding of [nettool.py].  Python values that travel through
    the JSON history are modelled by [value]; a history record (a Python
    [dict] loaded from [results.json] or built by [ping_host]) is an
    association list from keys to values, in insertion order.  Python
    exceptions are explicit: every operation that can raise returns a
    [result].  Floats are IEEE-754 binary64 values ([spec_float] with
    precision 53 and maximal exponent 1024), compared with the IEEE
    comparison [SFcompare]. *)

From Stdlib Require Import ZArith List String Ascii Bool Lia.
From Stdlib Require Import Permutation Sorted.
From Stdlib Require Import Floats.SpecFloat.
Import ListNotations.

Local Open Scope string_scope.
Local Open Scope list_scope.

(** ** Exceptions *)

Inductive exn : Type :=
| KeyError (key : string)
| TypeError
| OSError.

Inductive result (A : Type) : Type :=
| Ok (a : A)
| Raise (e : exn).

Arguments Ok {A} a.
Arguments Raise {A} e.

Definition bind {A B : Type} (m : result A) (k : A -> result B) : result B :=
  match m with
  | Ok a => k a
  | Raise e => Raise e
  end.

Notation "x <- m ;; k" := (bind m (fun x => k))
  (at level 61, m at next level, right associativity).

(** ** Python floats *)

Module PyFloat.

Definition prec : Z := 53.
Definition emax : Z := 1024.

(** [float(text)] for a decimal literal whose digits (integer part
    followed by fractional part) read as the integer [n] and whose
    fractional part has [k] digits: the binary64 value nearest to
    [n / 10^k], ties to even. *)
Definition of_ratio (n d : Z) : spec_float :=
  match n with
  | Z0 => S754_zero false
  | _ =>
      let '(mz, ez, lz) := SFdiv_core_binary prec emax n 0 d 0 in
      binary_round_aux prec emax false mz ez lz
  end.

Definition of_Z (z : Z) : spec_float := binary_normalize prec emax z 0 false.

(** The literal [1e9] of the report's sort key. *)
Definition big : spec_float := of_Z 1000000000.

Definition is_nan (f : spec_float) : bool :=
  match f with S754_nan => true | _ => false end.

Definition is_zero (f : spec_float) : bool :=
  match f with S754_zero _ => true | _ => false end.

(** Exact comparison of a float with an integer, as Python does it. *)
Definition compare_Z (f : spec_float) (z : Z) : option comparison :=
  match f with
  | S754_nan => None
  | S754_infinity s => Some (if s then Lt else Gt)
  | S754_zero _ => Some (Z.compare 0 z)
  | S754_finite s m e =>
      let m' := cond_Zopp s (Zpos m) in
      Some (if (0 <=? e)%Z
            then Z.compare (m' * 2 ^ e) z
            else Z.compare m' (z * 2 ^ (- e)))
  end.

End PyFloat.

(** ** Python values *)

Inductive value : Type :=
| VNone
| VBool (b : bool)
| VInt (z : Z)
| VFloat (f : spec_float)
| VStr (s : string).

(** Truth value of an object ([bool(v)], used by [not] and [or]). *)
Definition truthy (v : value) : bool :=
  match v with
  | VNone => false
  | VBool b => b
  | VInt z => negb (z =? 0)%Z
  | VFloat f => negb (PyFloat.is_zero f)
  | VStr s => negb (s =? "")
  end.

(** [a or b] *)
Definition py_or (a b : value) : value := if truthy a then a else b.

(** Numeric comparison across [bool], [int] and [float]; [None] of the
    option when the two are unordered (a NaN is involved), [None] of the
    outer option when one side is not a number. *)
Definition num_compare (a b : value) : option (option comparison) :=
  let as_int v :=
    match v with
    | VBool b => Some (if b then 1%Z else 0%Z)
    | VInt z => Some z
    | _ => None
    end in
  match a, b with
  | VFloat x, VFloat y => Some (SFcompare x y)
  | VFloat x, _ =>
      match as_int b with
      | Some z => Some (PyFloat.compare_Z x z)
      | None => None
      end
  | _, VFloat y =>
      match as_int a with
      | Some z => Some (option_map CompOpp (PyFloat.compare_Z y z))
      | None => None
      end
  | _, _ =>
      match as_int a, as_int b with
      | Some x, Some y => Some (Some (Z.compare x y))
      | _, _ => None
      end
  end.

(** [a == b] *)
Definition py_eq (a b : value) : bool :=
  match a, b with
  | VNone, VNone => true
  | VStr s, VStr t => (s =? t)
  | _, _ =>
      match num_compare a b with
      | Some (Some Eq) => true
      | _ => false
      end
  end.

(** [a < b]; ordering a string against a number, or anything against
    [None], raises [TypeError]. *)
Definition py_lt (a b : value) : result bool :=
  match a, b with
  | VStr s, VStr t => Ok (s <? t)
  | _, _ =>
      match num_compare a b with
      | Some (Some Lt) => Ok true
      | Some _ => Ok false
      | None => Raise TypeError
      end
  end.

(** [a > b] *)
Definition py_gt (a b : value) : result bool := py_lt b a.

(** ** Dictionaries

    A [dict] keeps its keys in insertion order; assigning to a key that is
    already present replaces the value in place and keeps the key.  Keys
    are found by [==]. *)

Section Dict.

Context {K V : Type}.
Variable keq : K -> K -> bool.

Fixpoint dict_find (d : list (K * V)) (k : K) : option V :=
  match d with
  | [] => None
  | (k', v) :: d' => if keq k' k then Some v else dict_find d' k
  end.

Fixpoint dict_set (d : list (K * V)) (k : K) (v : V) : list (K * V) :=
  match d with
  | [] => [(k, v)]
  | (k', v') :: d' =>
      if keq k' k then (k', v) :: d' else (k', v') :: dict_set d' k v
  end.

Definition dict_keys (d : list (K * V)) : list K := map fst d.
Definition dict_values (d : list (K * V)) : list V := map snd d.

End Dict.

(** A history record. *)
Definition row : Type := list (string * value).

(** [r[k]] *)
Definition getitem (r : row) (k : string) : result value :=
  match dict_find String.eqb r k with
  | Some v => Ok v
  | None => Raise (KeyError k)
  end.

(** [r.get(k, default)] *)
Definition get_default (r : row) (k : string) (default : value) : value :=
  match dict_find String.eqb r k with
  | Some v => v
  | None => default
  end.

(** [r.get(k)] *)
Definition get (r : row) (k : string) : value := get_default r k VNone.

(** ** Latest measurement per host ([cmd_report], [cmd_export --latest])

    <<
    latest = {}
    for r in results:
        host = r["host"]
        ts = r.get("timestamp") or ""
        if host not in latest or ts > latest[host].get("timestamp", ""):
            latest[host] = r
    rows = list(latest.values())
    >> *)

Fixpoint latest_loop (results : list row) (latest : list (value * row))
  : result (list (value * row)) :=
  match results with
  | [] => Ok latest
  | r :: rest =>
      host <- getitem r "host" ;;
      let ts := py_or (get r "timestamp") (VStr "") in
      match dict_find py_eq latest host with
      | None => latest_loop rest (dict_set py_eq latest host r)
      | Some cur =>
          newer <- py_gt ts (get_default cur "timestamp" (VStr "")) ;;
          if newer
          then latest_loop rest (dict_set py_eq latest host r)
          else latest_loop rest latest
      end
  end.

Definition latest_per_host (results : list row) : result (list row) :=
  latest <- latest_loop results [] ;;
  Ok (dict_values latest).

(** ** Sorting

    [list.sort] and [sorted] are stable and compare with [<] only.  They are
    modelled by a stable insertion sort: each element in turn is inserted
    into the sorted prefix, before the first element it is smaller than. *)

Section Sort.

Context {A : Type}.
Variable lt : A -> A -> result bool.

Fixpoint insert (x : A) (l : list A) : result (list A) :=
  match l with
  | [] => Ok [x]
  | y :: l' =>
      b <- lt x y ;;
      if b then Ok (x :: y :: l')
      else l'' <- insert x l' ;; Ok (y :: l'')
  end.

Fixpoint sort_into (acc : list A) (l : list A) : result (list A) :=
  match l with
  | [] => Ok acc
  | x :: l' => acc' <- insert x acc ;; sort_into acc' l'
  end.

Definition py_sort (l : list A) : result (list A) := sort_into [] l.

End Sort.

(** ** Report ordering ([cmd_report])

    <<
    rows.sort(key=lambda r: (not r["reachable"],
                             r["latency_ms"] if r["latency_ms"] is not None else 1e9,
                             r["host"]))
    >> *)

(** [a < b] on tuples: the first position where the items are not [==]
    decides; a proper prefix is smaller.  (Python takes an object to be
    equal to itself before asking [==]; that matters for a NaN only, and
    the floats of different records are different objects.) *)
Fixpoint tuple_lt (a b : list value) : result bool :=
  match a, b with
  | x :: a', y :: b' => if py_eq x y then tuple_lt a' b' else py_lt x y
  | [], _ :: _ => Ok true
  | _, [] => Ok false
  end.

Definition is_none (v : value) : bool :=
  match v with VNone => true | _ => false end.

Definition report_key (r : row) : result (list value) :=
  reachable <- getitem r "reachable" ;;
  lat <- getitem r "latency_ms" ;;
  host <- getitem r "host" ;;
  Ok [VBool (negb (truthy reachable));
      (if is_none lat then VFloat PyFloat.big else lat);
      host].

(** The keys are computed once for every row, then the rows are ordered by
    their keys. *)
Fixpoint decorate (rows : list row) : result (list (list value * row)) :=
  match rows with
  | [] => Ok []
  | r :: rest =>
      k <- report_key r ;;
      d <- decorate rest ;;
      Ok ((k, r) :: d)
  end.

Definition report_sort (rows : list row) : result (list row) :=
  d <- decorate rows ;;
  s <- py_sort (fun a b => tuple_lt (fst a) (fst b)) d ;;
  Ok (map snd s).

(** The rows of the report, from the stored history. *)
Definition report_rows (results : list row) : result (list row) :=
  rows <- latest_per_host results ;;
  report_sort rows.

(** ** Export header ([cmd_export])

    <<
    base_fields = ["host", "reachable", "latency_ms", "timestamp", "raw_exit"]
    extra_fields = set()
    for r in rows:
        extra_fields.update(r.keys())
    fieldnames = base_fields + [k for k in sorted(extra_fields) if k not in base_fields]
    >> *)

Definition base_fields : list string :=
  ["host"; "reachable"; "latency_ms"; "timestamp"; "raw_exit"].

Definition mem (k : string) (l : list string) : bool := existsb (String.eqb k) l.

(** A [set] of strings: a list without repetition. *)
Definition set_add (s : list string) (k : string) : list string :=
  if mem k s then s else s ++ [k].

Definition set_update (s : list string) (ks : list string) : list string :=
  fold_left set_add ks s.

Definition extra_fields (rows : list row) : list string :=
  fold_left (fun s r => set_update s (dict_keys r)) rows [].

Definition str_lt (a b : string) : result bool := Ok (a <? b).

(** [sorted] of strings never raises. *)
Definition sorted_strings (l : list string) : list string :=
  match py_sort str_lt l with
  | Ok s => s
  | Raise _ => []
  end.

Definition fieldnames (rows : list row) : list string :=
  base_fields ++
  filter (fun k => negb (mem k base_fields)) (sorted_strings (extra_fields rows)).

(** The rows handed to the CSV writer. *)
Definition export_rows (latest : bool) (results : list row) : result (list row) :=
  if latest then latest_per_host results else Ok results.

(** ** The latency pattern

    <<
    _LATENCY_RE = re.compile(r"time[=<]?\s*(\d+(?:\.\d+)?)\s*ms", re.IGNORECASE)
    >>

    A backtracking matcher: [rmatch r cap s] lists, in the order Python's
    engine tries them, the ways [r] can match a prefix of [s]; each way is
    the remaining text and the text of group 1.  Greedy operators list the
    longer match first.  Text is a sequence of 8-bit code points. *)

Inductive regex : Type :=
| Chr (p : ascii -> bool)
| Seq (r1 r2 : regex)
| Opt (r : regex)
| Star (r : regex)
| Group (r : regex).

Definition Plus (r : regex) : regex := Seq r (Star r).

Definition consumed (s rest : string) : string :=
  substring 0 (String.length s - String.length rest) s.

Section Star.

Variable step : option string -> string -> list (string * option string).

Fixpoint star (fuel : nat) (cap : option string) (s : string)
  : list (string * option string) :=
  match fuel with
  | O => [(s, cap)]
  | S fuel' =>
      flat_map
        (fun '(s1, c1) =>
           if (String.length s1 <? String.length s)%nat
           then star fuel' c1 s1 else [])
        (step cap s)
      ++ [(s, cap)]
  end.

End Star.

Fixpoint rmatch (r : regex) (cap : option string) (s : string)
  : list (string * option string) :=
  match r with
  | Chr p =>
      match s with
      | String c s' => if p c then [(s', cap)] else []
      | EmptyString => []
      end
  | Seq r1 r2 => flat_map (fun '(s1, c1) => rmatch r2 c1 s1) (rmatch r1 cap s)
  | Opt r1 => rmatch r1 cap s ++ [(s, cap)]
  | Star r1 => star (rmatch r1) (String.length s) cap s
  | Group r1 => map (fun '(s1, _) => (s1, Some (consumed s s1))) (rmatch r1 cap s)
  end.

(** [r.search(s)]: the leftmost position where [r] matches, and there the
    first way it matches; the result is [m.group(1)]. *)
Fixpoint search (r : regex) (s : string) : option (option string) :=
  match rmatch r None s with
  | (_, cap) :: _ => Some cap
  | [] =>
      match s with
      | EmptyString => None
      | String _ s' => search r s'
      end
  end.

Definition code (c : ascii) : nat := nat_of_ascii c.

(** [\d] *)
Definition is_digit (c : ascii) : bool :=
  ((48 <=? code c) && (code c <=? 57))%nat.

(** [\s]: the white space of [str] patterns below code point 256. *)
Definition is_space (c : ascii) : bool :=
  (((9 <=? code c) && (code c <=? 13)) || ((28 <=? code c) && (code c <=? 32))
   || (code c =? 133) || (code c =? 160))%nat.

(** A letter of the pattern under [re.IGNORECASE]. *)
Definition letter (lower upper : ascii) : regex :=
  Chr (fun c => Ascii.eqb c lower || Ascii.eqb c upper).

Definition LATENCY_RE : regex :=
  Seq (letter "t" "T") (Seq (letter "i" "I") (Seq (letter "m" "M") (Seq (letter "e" "E")
  (Seq (Opt (Chr (fun c => Ascii.eqb c "=" || Ascii.eqb c "<")))
  (Seq (Star (Chr is_space))
  (Seq (Group (Seq (Plus (Chr is_digit))
                   (Opt (Seq (Chr (Ascii.eqb ".")) (Plus (Chr is_digit))))))
  (Seq (Star (Chr is_space))
  (Seq (letter "m" "M") (letter "s" "S"))))))))).

(** ** [float] of a decimal literal

    [float(text)] for the texts group 1 can hold: digits, optionally
    followed by a point and digits.  Any other text is a [ValueError],
    [None] here. *)

Fixpoint digits_value (acc : Z) (s : string) : option Z :=
  match s with
  | EmptyString => Some acc
  | String c s' =>
      if is_digit c
      then digits_value (10 * acc + Z.of_nat (code c - 48)) s'
      else None
  end.

Fixpoint split_point (s : string) : string * option string :=
  match s with
  | EmptyString => (EmptyString, None)
  | String c s' =>
      if Ascii.eqb c "." then (EmptyString, Some s')
      else let '(a, b) := split_point s' in (String c a, b)
  end.

Definition float_of_decimal (text : string) : option spec_float :=
  match split_point text with
  | (EmptyString, _) => None
  | (ip, None) =>
      match digits_value 0 ip with
      | Some n => Some (PyFloat.of_ratio n 1)
      | None => None
      end
  | (_, Some EmptyString) => None
  | (ip, Some fp) =>
      match digits_value 0 (ip ++ fp) with
      | Some n => Some (PyFloat.of_ratio n (10 ^ Z.of_nat (String.length fp)))
      | None => None
      end
  end.

(** The latency a ping output reports, if any:
    <<
    latency = None
    m = _LATENCY_RE.search(out)
    if m:
        try:
            latency = float(m.group(1))
        except ValueError:
            pass
    >> *)
Definition parse_latency (out : string) : option spec_float :=
  match search LATENCY_RE out with
  | Some (Some text) => float_of_decimal text
  | _ => None
  end.

(** ** The outside world

    What [subprocess.run(cmd, capture_output=True, text=True, timeout=...)]
    can do: the process runs to its end, the bound expires
    ([subprocess.TimeoutExpired]), or the process cannot be started (an
    [OSError] such as [FileNotFoundError]).  The command line and the bound
    are functions of the platform, the host and [timeout_ms], so the world
    answers the [n]-th call by those two arguments.  [utcnow] is
    [datetime.utcnow().isoformat(timespec="seconds")] read after [n]
    calls. *)

Inductive proc_outcome : Type :=
| Completed (returncode : Z) (stdout stderr : string)
| TimeoutExpired
| LaunchError.

Record world : Type := {
  run : nat -> string -> Z -> proc_outcome;
  utcnow : nat -> string
}.

(** One entry per call of [ping_once]: its arguments. *)
Definition call : Type := (string * Z)%type.

(** Computations that read the world, extend the call log and may raise. *)
Definition io (A : Type) : Type := list call -> result A * list call.

Definition ret {A : Type} (a : A) : io A := fun log => (Ok a, log).

Definition io_bind {A B : Type} (m : io A) (k : A -> io B) : io B :=
  fun log =>
    match m log with
    | (Ok a, log') => k a log'
    | (Raise e, log') => (Raise e, log')
    end.

Notation "x <~ m ;; k" := (io_bind m (fun x => k))
  (at level 61, m at next level, right associativity).
Notation "' pat <~ m ;; k" := (io_bind m (fun pat => k))
  (at level 61, pat pattern, m at next level, right associativity).

Section Probe.

Variable w : world.

(** <<
    try:
        p = subprocess.run(cmd, capture_output=True, text=True, timeout=proc_timeout)
        out = (p.stdout or "") + "\n" + (p.stderr or "")
        reachable = (p.returncode == 0)
        ...
        return reachable, latency, p.returncode
    except subprocess.TimeoutExpired:
        return False, None, 124  # timeout
    >>
    Only [subprocess.TimeoutExpired] is caught. *)
Definition attempt_result (o : proc_outcome)
  : result (bool * option spec_float * Z) :=
  match o with
  | Completed returncode stdout stderr =>
      let out := (stdout ++ String "010" EmptyString ++ stderr)%string in
      let reachable := (returncode =? 0)%Z in
      let latency := parse_latency out in
      Ok (reachable, latency, returncode)
  | TimeoutExpired => Ok (false, None, 124%Z)
  | LaunchError => Raise OSError
  end.

Definition ping_once (host : string) (timeout_ms : Z)
  : io (bool * option spec_float * Z) :=
  fun log =>
    (attempt_result (run w (List.length log) host timeout_ms),
     log ++ [(host, timeout_ms)]).

(** The loop of [ping_host]:
    <<
    for _ in range(max(1, retries)):
        ok, lat, rc = ping_once(host, timeout_ms=timeout_ms)
        last_rc = rc
        if ok:
            successes += 1
            if lat is not None and (best is None or lat < best):
                best = lat
    >> *)
Definition better (lat best : option spec_float) : option spec_float :=
  match lat, best with
  | Some l, None => Some l
  | Some l, Some b => if SFltb l b then Some l else Some b
  | None, _ => best
  end.

Fixpoint attempts (n : nat) (host : string) (timeout_ms : Z)
  (best : option spec_float) (successes : Z) (last_rc : option Z)
  : io (option spec_float * Z * option Z) :=
  match n with
  | O => ret (best, successes, last_rc)
  | S n' =>
      '(ok, lat, rc) <~ ping_once host timeout_ms ;;
      if ok
      then attempts n' host timeout_ms (better lat best) (successes + 1)%Z (Some rc)
      else attempts n' host timeout_ms best successes (Some rc)
  end.

Definition opt_value {A : Type} (f : A -> value) (o : option A) : value :=
  match o with
  | Some a => f a
  | None => VNone
  end.

Definition ping_host (host : string) (retries timeout_ms : Z) : io row :=
  '(best, successes, last_rc) <~
     attempts (Z.to_nat (Z.max 1 retries)) host timeout_ms None 0%Z None ;;
  fun log =>
    (Ok [("host", VStr host);
         ("reachable", VBool (0 <? successes)%Z);
         ("latency_ms", opt_value VFloat best);
         ("timestamp", VStr (utcnow w (List.length log) ++ "Z")%string);
         ("raw_exit", opt_value VInt last_rc);
         ("attempts", VInt (Z.max 1 retries));
         ("successes", VInt successes)],
     log).

(** The loop of [cmd_scan] over the saved hosts.  The result is the
    history [save_results] stores; it is stored only when the loop has
    ended, and left as it was when there is no saved host. *)
Fixpoint scan_loop (hosts : list string) (retries timeout_ms : Z)
  (batch : list row) : io (list row) :=
  match hosts with
  | [] => ret batch
  | h :: rest =>
      r <~ ping_host h retries timeout_ms ;;
      scan_loop rest retries timeout_ms (batch ++ [r])
  end.

Definition cmd_scan (hosts : list string) (results : list row)
  (retries timeout_ms : Z) : io (list row) :=
  match hosts with
  | [] => ret results
  | _ =>
      batch <~ scan_loop hosts retries timeout_ms [] ;;
      ret (results ++ batch)
  end.

End Probe.

(** * Specification vocabulary

    The notions the properties below are stated with. *)

(** ** The order of floats

    A float that is not a NaN is placed in a lexicographic order of integer
    triples: class, then exponent, then mantissa.  [SFcompare] is that
    order. *)

Module FloatOrder.

Local Open Scope Z_scope.

Definition rank (f : spec_float) : option (Z * Z * Z) :=
  match f with
  | S754_nan => None
  | S754_infinity s => Some (if s then -2 else 2, 0, 0)
  | S754_zero _ => Some (0, 0, 0)
  | S754_finite s m e =>
      Some (if s then (-1, - e, - Zpos m) else (1, e, Zpos m))
  end.

Definition lex_lt (x y : Z * Z * Z) : Prop :=
  let '(a, b, c) := x in
  let '(a', b', c') := y in
  a < a' \/ (a = a' /\ (b < b' \/ (b = b' /\ c < c'))).

End FloatOrder.

(** ** Attempts *)

(** What one call of [ping_once] returns. *)
Definition outcome : Type := (bool * option spec_float * Z)%type.

Definition succeeded (o : outcome) : bool := fst (fst o).
Definition latency_of (o : outcome) : option spec_float := snd (fst o).
Definition exit_of (o : outcome) : Z := snd o.

(** The probe executor's successive answers, from call number [start] on. *)
Fixpoint answers (w : world) (host : string) (timeout_ms : Z) (start : nat)
  (outs : list outcome) : Prop :=
  match outs with
  | [] => True
  | o :: rest =>
      attempt_result (run w start host timeout_ms) = Ok o /\
      answers w host timeout_ms (S start) rest
  end.

(** What the loop of [ping_host] accumulates over a sequence of answers. *)
Fixpoint summarize (outs : list outcome) (best : option spec_float)
  (successes : Z) (last_rc : option Z) : option spec_float * Z * option Z :=
  match outs with
  | [] => (best, successes, last_rc)
  | (ok, lat, rc) :: rest =>
      if ok then summarize rest (better lat best) (successes + 1)%Z (Some rc)
      else summarize rest best successes (Some rc)
  end.

Definition count_successes (outs : list outcome) : Z :=
  Z.of_nat (List.length (filter succeeded outs)).

(** The latencies reported by the successful attempts. *)
Definition reported_latencies (outs : list outcome) : list spec_float :=
  flat_map
    (fun o =>
       if succeeded o
       then match latency_of o with Some l => [l] | None => [] end
       else [])
    outs.

Definition is_minimum (m : spec_float) (l : list spec_float) : Prop :=
  In m l /\ forall x, In x l -> SFleb m x = true.

(** The number of attempts [ping_host] makes. *)
Definition attempt_count (retries : Z) : nat := Z.to_nat (Z.max 1 retries).

(** The exit code an attempt reports, when the process could be started. *)
Definition exit_code (o : proc_outcome) : option Z :=
  match o with
  | Completed returncode _ _ => Some returncode
  | TimeoutExpired => Some 124%Z
  | LaunchError => None
  end.

(** The attempt failed without raising: a non-zero exit status or a
    timeout. *)
Definition failed_attempt (o : proc_outcome) : bool :=
  match o with
  | Completed returncode _ _ => negb (returncode =? 0)%Z
  | TimeoutExpired => true
  | LaunchError => false
  end.

(** A latency that is a number. *)
Definition is_number (o : option spec_float) : Prop :=
  forall l, o = Some l -> PyFloat.is_nan l = false.

(** ** Example data *)

(** A world whose [n]-th process ends as the script says, and times out
    once the script is over. *)
Definition scripted (script : list proc_outcome) : world :=
  {| run := fun n _ _ => nth n script TimeoutExpired;
     utcnow := fun _ => "2024-05-01T12:00:00" |}.

(** A ping that answers with the given text on standard output. *)
Definition reply (text : string) : proc_outcome := Completed 0 text "".

Definition float_5 : spec_float := PyFloat.of_Z 5.
Definition float_2 : spec_float := PyFloat.of_Z 2.
Definition float_1 : spec_float := PyFloat.of_Z 1.

(** Three successful attempts, the second without a latency in its
    output. *)
Definition three_successes : world :=
  scripted [reply "time=5.0 ms"; reply "1 packets transmitted, 1 received";
            reply "time=2.0 ms"].

(** Two successful attempts around one that timed out. *)
Definition success_timeout_success : world :=
  scripted [reply "time=5.0 ms"; TimeoutExpired; reply "time=2.0 ms"].

(** The [ping] command cannot be started. *)
Definition no_ping_command : world := scripted [LaunchError].

(** The first host times out, the launch fails for the second. *)
Definition launch_fails_on_second_host : world :=
  scripted [TimeoutExpired; LaunchError; reply "time=2.0 ms"].

(** Every attempt fails: exit status 1, exit status 2, then a timeout. *)
Definition all_attempts_fail : world :=
  scripted [Completed 1 "" "unknown host"; Completed 2 "" ""; TimeoutExpired].

(** ** Measurements in the history *)

(** The host of a record, and its timestamp as the reduction reads it:
    the empty string when the record has none. *)
Definition host_of (r : row) : string :=
  match get r "host" with VStr h => h | _ => "" end.

Definition timestamp_of (r : row) : string :=
  match get r "timestamp" with VStr ts => ts | _ => "" end.

(** A record with a host name and, if it has a timestamp, a string for
    it. *)
Definition is_measurement (r : row) : bool :=
  match dict_find String.eqb r "host" with
  | Some (VStr _) =>
      match dict_find String.eqb r "timestamp" with
      | Some (VStr _) | None => true
      | Some _ => false
      end
  | _ => false
  end.

(** [r] is, in iteration order, the first of its host's records that carry
    that host's greatest timestamp: the host's records before it are
    strictly older, those after it are not newer. *)
Definition first_latest (history : list row) (r : row) : Prop :=
  exists before after,
    history = before ++ r :: after /\
    (forall x, In x before -> host_of x = host_of r ->
               (timestamp_of x <? timestamp_of r) = true) /\
    (forall x, In x after -> host_of x = host_of r ->
               (timestamp_of r <? timestamp_of x) = false).

(** The dictionary [latest] holding the given records under their hosts. *)
Definition keyed (rows : list row) : list (value * row) :=
  map (fun r => (VStr (host_of r), r)) rows.

(** [latest[host_of r] = r] on the records. *)
Fixpoint upsert (rows : list row) (r : row) : list row :=
  match rows with
  | [] => [r]
  | x :: rows' =>
      if host_of x =? host_of r then r :: rows' else x :: upsert rows' r
  end.

Definition find_host (rows : list row) (h : string) : option row :=
  find (fun x => host_of x =? h) rows.

(** A stored measurement, as [ping_host] writes it. *)
Definition stored (host ts : string) (reachable : bool) (latency : value)
  (raw_exit : Z) : row :=
  [("host", VStr host); ("reachable", VBool reachable);
   ("latency_ms", latency); ("timestamp", VStr ts);
   ("raw_exit", VInt raw_exit)].

(** Two measurements of one host in the same second. *)
Definition tie_first : row :=
  stored "A" "2024-05-01T12:00:00Z" true (VFloat float_5) 0.
Definition tie_second : row :=
  stored "A" "2024-05-01T12:00:00Z" false VNone 1.

(** The history of the specification's example. *)
Definition at_time (host ts : string) : row :=
  [("host", VStr host); ("timestamp", VStr ts)].
Definition example_history : list row :=
  [at_time "A" "10"; at_time "B" "5"; at_time "A" "20"].

(** What the loop of the reduction maintains: after the records [done],
    [latest] holds one record per host seen, each the first latest of its
    host. *)
Definition latest_inv (done rows : list row) : Prop :=
  NoDup (map host_of rows) /\
  (forall r, In r rows -> is_measurement r = true /\ first_latest done r) /\
  (forall x, In x done -> In (host_of x) (map host_of rows)).

(** ** The order of the report *)

(** The three components of the sort key of a record. *)
Definition unreachable (r : row) : bool := negb (truthy (get r "reachable")).

Definition latency_key (r : row) : spec_float :=
  match get r "latency_ms" with
  | VFloat f => f
  | _ => PyFloat.big
  end.

(** A record the report can order: [reachable] is a boolean, [latency_ms]
    is absent ([None]) or a float that is a number, [host] is a string. *)
Definition is_report_row (r : row) : bool :=
  match dict_find String.eqb r "reachable",
        dict_find String.eqb r "latency_ms",
        dict_find String.eqb r "host" with
  | Some (VBool _), Some VNone, Some (VStr _) => true
  | Some (VBool _), Some (VFloat f), Some (VStr _) => negb (PyFloat.is_nan f)
  | _, _, _ => false
  end.

(** The key [report_sort] computes for a record the report can order. *)
Definition key_of (r : row) : list value :=
  [VBool (unreachable r); VFloat (latency_key r); VStr (host_of r)].

(** [key_of r1 < key_of r2], component by component. *)
Definition report_ltb (r1 r2 : row) : bool :=
  if Bool.eqb (unreachable r1) (unreachable r2)
  then if SFeqb (latency_key r1) (latency_key r2)
       then host_of r1 <? host_of r2
       else SFltb (latency_key r1) (latency_key r2)
  else negb (unreachable r1).

(** [r1] may stand before [r2] in the report: reachable before
    unreachable, then the smaller latency (1e9 standing for a missing one),
    then the host name. *)
Definition report_before (r1 r2 : row) : Prop :=
  (unreachable r1 = false /\ unreachable r2 = true) \/
  (unreachable r1 = unreachable r2 /\
   (SFltb (latency_key r1) (latency_key r2) = true \/
    (SFeqb (latency_key r1) (latency_key r2) = true /\
     (host_of r1 <=? host_of r2) = true))).

(** The rank of a sort key, in a lexicographic order of integers followed
    by the host name. *)
Definition float_rank (f : spec_float) : Z * Z * Z :=
  match FloatOrder.rank f with
  | Some r => r
  | None => (0, 0, 0)%Z
  end.

Definition key_lt (r1 r2 : row) : Prop :=
  let u1 := Z.b2z (unreachable r1) in
  let u2 := Z.b2z (unreachable r2) in
  let '(a1, b1, c1) := float_rank (latency_key r1) in
  let '(a2, b2, c2) := float_rank (latency_key r2) in
  (u1 < u2 \/ (u1 = u2 /\ (a1 < a2 \/ (a1 = a2 /\ (b1 < b2 \/ (b1 = b2 /\
   (c1 < c2 \/ (c1 = c2 /\ (host_of r1 <? host_of r2)%string = true))))))))%Z.

(** The rows of the specification's example, and a host whose latency is
    above 1e9 ms. *)
Definition report_A : row := stored "A" "2024-05-01T12:00:00Z" false VNone 124.
Definition report_B : row :=
  stored "B" "2024-05-01T12:00:00Z" true (VFloat float_5) 0.
Definition report_C : row := stored "C" "2024-05-01T12:00:00Z" true VNone 0.
Definition report_slow : row :=
  stored "B" "2024-05-01T12:00:00Z" true (VFloat (PyFloat.of_Z 2000000000)) 0.

(** ** Example histories for the export *)

(** A record as the present [ping_host] writes it, with its counters. *)
Definition with_counters : row :=
  [("host", VStr "A"); ("reachable", VBool true);
   ("latency_ms", VFloat float_5);
   ("timestamp", VStr "2024-05-01T12:00:00Z"); ("raw_exit", VInt 0);
   ("attempts", VInt 3); ("successes", VInt 3)].

(** ** Texts and the latency pattern *)

(** A text with every character replaced by its image under [f]. *)
Fixpoint smap (f : ascii -> ascii) (s : string) : string :=
  match s with
  | EmptyString => EmptyString
  | String c s' => String (f c) (smap f s')
  end.

(** Writing [=] for every [<]. *)
Definition less_to_equal (c : ascii) : ascii :=
  if Ascii.eqb c "<" then "="%char else c.

(** Every character class of the pattern holds of [f c] exactly when it
    holds of [c]. *)
Fixpoint respects (f : ascii -> ascii) (r : regex) : Prop :=
  match r with
  | Chr p => forall c, p (f c) = p c
  | Seq r1 r2 => respects f r1 /\ respects f r2
  | Opt r1 | Star r1 | Group r1 => respects f r1
  end.

(** Every character of the text is in the class. *)
Fixpoint all_chars (p : ascii -> bool) (s : string) : bool :=
  match s with
  | EmptyString => true
  | String c s' => p c && all_chars p s'
  end.

(** The text does not begin with a character of the class. *)
Definition starts_without (p : ascii -> bool) (s : string) : bool :=
  match s with
  | EmptyString => true
  | String c _ => negb (p c)
  end.

(** The pattern matches at none of the positions of [pre] in
    [pre ++ rest]. *)
Fixpoint unmatched (pre rest : string) : bool :=
  match pre with
  | EmptyString => true
  | String _ pre' =>
      match rmatch LATENCY_RE None (pre ++ rest) with
      | [] => unmatched pre' rest
      | _ :: _ => false
      end
  end.

(** The way of matching the engine takes. *)
Definition first_way (l : list (string * option string))
  : option (string * option string) := hd_error l.

(** The renaming of a way of matching. *)
Definition way_map (f : ascii -> ascii) (x : string * option string)
  : string * option string :=
  (smap f (fst x), option_map (smap f) (snd x)).

(** A non-empty run of digits, and the optional fraction of a decimal
    literal: nothing, or a point and a non-empty run of digits. *)
Definition nonempty_digits (s : string) : bool :=
  negb (s =? "") && all_chars is_digit s.

Definition is_fraction (frac : string) : bool :=
  match frac with
  | EmptyString => true
  | String c fp => Ascii.eqb c "." && nonempty_digits fp
  end.

(** [text] is [word] with each letter in either case; [word] is written
    in lower-case letters. *)
Fixpoint spelled (word text : string) : bool :=
  match word, text with
  | EmptyString, EmptyString => true
  | String a word', String c text' =>
      (Ascii.eqb c a || Ascii.eqb c (ascii_of_nat (code a - 32)))
      && spelled word' text'
  | _, _ => false
  end.

(** The line a Windows ping prints for a reply within a millisecond. *)
Definition windows_reply : string :=
  "Reply from 192.168.1.1: bytes=32 time<1ms TTL=64".
Definition windows_reply_prefix : string :=
  "Reply from 192.168.1.1: bytes=32 ".


(** * The rest of the program *)

(** ** The stores ([load_hosts], [save_hosts], [load_results],
    [save_results])

    Each store is a JSON file that may not exist yet: [hosts.json] holds a
    list of host names, [results.json] the history.

    <<
    def load_hosts():
        if not HOSTS_DB.exists(): return []
        with HOSTS_DB.open("r", encoding="utf-8") as f:
            return json.load(f)
    >> *)

Record store : Type := {
  hosts_db : option (list string);
  results_db : option (list row)
}.

Definition load_hosts (s : store) : list string :=
  match hosts_db s with
  | Some hosts => hosts
  | None => []
  end.

Definition save_hosts (s : store) (hosts : list string) : store :=
  {| hosts_db := Some hosts; results_db := results_db s |}.

Definition load_results (s : store) : list row :=
  match results_db s with
  | Some results => results
  | None => []
  end.

Definition save_results (s : store) (results : list row) : store :=
  {| hosts_db := hosts_db s; results_db := Some results |}.

(** ** [str.strip] and [str.join] *)

Fixpoint lstrip (s : string) : string :=
  match s with
  | EmptyString => EmptyString
  | String c s' => if is_space c then lstrip s' else s
  end.

Fixpoint rstrip (s : string) : string :=
  match s with
  | EmptyString => EmptyString
  | String c s' =>
      match rstrip s' with
      | EmptyString => if is_space c then EmptyString else String c EmptyString
      | r => String c r
      end
  end.

Definition strip (s : string) : string := rstrip (lstrip s).

Definition join (sep : string) (l : list string) : string := String.concat sep l.

(** ** [cmd_add]

    <<
    hosts = load_hosts()
    new_hosts = []
    for h in args.hosts:
        h = h.strip()
        if h and h not in hosts:
            hosts.append(h)
            new_hosts.append(h)
    save_hosts(hosts)
    if new_hosts:
        print("Added:", ", ".join(new_hosts))
    else:
        print("No new hosts added (maybe they already exist).")
    >> *)

Fixpoint add_loop (args hosts new_hosts : list string)
  : list string * list string :=
  match args with
  | [] => (hosts, new_hosts)
  | a :: rest =>
      let h := strip a in
      if negb (h =? "") && negb (mem h hosts)
      then add_loop rest (hosts ++ [h]) (new_hosts ++ [h])
      else add_loop rest hosts new_hosts
  end.

(** The store after the command, and the line it prints. *)
Definition cmd_add (s : store) (args : list string) : store * string :=
  let '(hosts, new_hosts) := add_loop args (load_hosts s) [] in
  (save_hosts s hosts,
   match new_hosts with
   | [] => "No new hosts added (maybe they already exist)."
   | _ :: _ => ("Added: " ++ join ", " new_hosts)%string
   end).

(** The hosts the command reports as added. *)
Definition added_hosts (s : store) (args : list string) : list string :=
  snd (add_loop args (load_hosts s) []).

(** ** [cmd_remove]

    <<
    hosts = load_hosts()
    before = set(hosts)
    for h in args.hosts:
        if h in hosts:
            hosts.remove(h)
    save_hosts(hosts)
    removed = before - set(hosts)
    if removed:
        print("Removed:", ", ".join(sorted(removed)))
    else:
        print("Nothing removed.")
    >> *)

(** [l.remove(h)] when [h in l]: the first occurrence goes. *)
Fixpoint remove_first (h : string) (l : list string) : list string :=
  match l with
  | [] => []
  | x :: l' => if x =? h then l' else x :: remove_first h l'
  end.

Definition remove_loop (args hosts : list string) : list string :=
  fold_left (fun hosts h => if mem h hosts then remove_first h hosts else hosts)
            args hosts.

(** [sorted(before - set(hosts))] *)
Definition removed_hosts (s : store) (args : list string) : list string :=
  let before := load_hosts s in
  let hosts := remove_loop args before in
  sorted_strings (set_update [] (filter (fun h => negb (mem h hosts)) before)).

Definition cmd_remove (s : store) (args : list string) : store * string :=
  (save_hosts s (remove_loop args (load_hosts s)),
   match removed_hosts s args with
   | [] => "Nothing removed."
   | _ :: _ => ("Removed: " ++ join ", " (removed_hosts s args))%string
   end).

(** A store with two saved hosts, and no history yet. *)
Definition two_hosts : store :=
  {| hosts_db := Some ["8.8.8.8"; "example.com"]; results_db := None |}.

(** The text does not end with a character of the class. *)
Fixpoint ends_without (p : ascii -> bool) (s : string) : bool :=
  match s with
  | EmptyString => true
  | String c EmptyString => negb (p c)
  | String _ s' => ends_without p s'
  end.

(** ** Measurements as [ping_host] makes them *)

(** [m] is a measurement some call of [ping_host] returned. *)
Definition produced (m : row) : Prop :=
  exists w host retries timeout_ms log log',
    ping_host w host retries timeout_ms log = (Ok m, log').

(** The keys of a measurement, in the order [ping_host] writes them. *)
Definition measurement_keys : list string :=
  ["host"; "reachable"; "latency_ms"; "timestamp"; "raw_exit"; "attempts";
   "successes"].

(** A float that is neither a NaN nor below zero. *)
Definition not_negative (f : spec_float) : bool :=
  match f with
  | S754_zero _ => true
  | S754_infinity s => negb s
  | S754_nan => false
  | S754_finite s _ _ => negb s
  end.

(** A world in which the ping command can always be started. *)
Definition launches (w : world) : Prop :=
  forall n host timeout_ms, run w n host timeout_ms <> LaunchError.

(** The calls a scan of the hosts makes. *)
Definition scan_calls (hosts : list string) (retries timeout_ms : Z)
  : list call :=
  flat_map (fun h => repeat (h, timeout_ms) (attempt_count retries)) hosts.

(** A reply whose latency has four hundred digits. *)
Definition huge_reply : string :=
  "time=" ++ string_of_list_ascii (repeat "9"%char 400) ++ " ms".

(** ** The texts the pattern captures *)

(** A pattern without a capturing group. *)
Fixpoint group_free (r : regex) : bool :=
  match r with
  | Chr _ => true
  | Seq r1 r2 => group_free r1 && group_free r2
  | Opt r1 | Star r1 => group_free r1
  | Group _ => false
  end.

(** A decimal literal: digits, then nothing or a point and digits. *)
Definition is_decimal (text : string) : Prop :=
  exists ip frac,
    text = (ip ++ frac)%string /\
    nonempty_digits ip = true /\ is_fraction frac = true.

(** Group 1 holds a decimal literal. *)
Definition captured_decimal (cap : option string) : Prop :=
  exists text, cap = Some text /\ is_decimal text.

(** The measurement of host [h] in the world [success_timeout_success]. *)
Definition measured_h : row :=
  [("host", VStr "h"); ("reachable", VBool true);
   ("latency_ms", VFloat float_2);
   ("timestamp", VStr "2024-05-01T12:00:00Z"); ("raw_exit", VInt 0);
   ("attempts", VInt 3); ("successes", VInt 2)].

(** A record whose timestamp is JSON [null], and a later record of the
    same host. *)
Definition null_timestamp : row :=
  [("host", VStr "A"); ("timestamp", VNone)].

(** ** The command line of [ping_once]

    <<
    sysname = platform.system().lower()
    if "windows" in sysname:
        cmd = ["ping", "-n", "1", "-w", str(timeout_ms), host]       # Windows
        proc_timeout = max(1, timeout_ms/1000 + 1)
    else:
        sec = max(1, int(round(timeout_ms / 1000)))
        cmd = ["ping", "-c", "1", "-W", str(sec), host]              # Linux/mac
        proc_timeout = sec + 1
    >>

    The quotient of two integers is the nearest float, [round] of a float
    the nearest integer, ties going to the even one in both.  A quotient
    beyond the range of floats is an [OverflowError], [None] here. *)

From Stdlib Require Import DecimalString.

(** [str(n)] *)
Definition str_of_int (n : Z) : string := NilZero.string_of_int (Z.to_int n).

(** [s.lower()], on code points below 256. *)
Definition lower_char (c : ascii) : ascii :=
  let n := code c in
  if ((65 <=? n) && (n <=? 90) || (192 <=? n) && (n <=? 214)
      || (216 <=? n) && (n <=? 222))%nat
  then ascii_of_nat (n + 32) else c.

Definition lower (s : string) : string := smap lower_char s.

(** [needle in hay] *)
Fixpoint contains (needle hay : string) : bool :=
  prefix needle hay ||
  match hay with
  | EmptyString => false
  | String _ hay' => contains needle hay'
  end.

(** [a / b] for integers, [b] positive. *)
Definition true_div (a b : Z) : option spec_float :=
  match a with
  | Z0 => Some (S754_zero false)
  | _ =>
      let '(mz, ez, lz) :=
        SFdiv_core_binary PyFloat.prec PyFloat.emax (Z.abs a) 0 b 0 in
      match binary_round_aux PyFloat.prec PyFloat.emax (a <? 0)%Z mz ez lz with
      | S754_infinity _ => None
      | f => Some f
      end
  end.

(** [round(x)] of a float: an integer, or an error for an infinity or a
    NaN. *)
Definition round_float (x : spec_float) : option Z :=
  match x with
  | S754_zero _ => Some 0%Z
  | S754_finite s m e =>
      let n :=
        if (0 <=? e)%Z then (Zpos m * 2 ^ e)%Z
        else
          let d := (2 ^ (- e))%Z in
          let q := (Zpos m / d)%Z in
          let r := (Zpos m mod d)%Z in
          match (2 * r ?= d)%Z with
          | Lt => q
          | Gt => (q + 1)%Z
          | Eq => if Z.even q then q else (q + 1)%Z
          end in
      Some (if s then (- n)%Z else n)
  | S754_infinity _ | S754_nan => None
  end.

(** The command and the bound given to [subprocess.run], on the platform
    [platform.system()] names. *)
Definition ping_invocation (system host : string) (timeout_ms : Z)
  : option (list string * value) :=
  if contains "windows" (lower system)
  then
    match true_div timeout_ms 1000 with
    | Some x =>
        let y := SFadd PyFloat.prec PyFloat.emax x (PyFloat.of_Z 1) in
        Some (["ping"; "-n"; "1"; "-w"; str_of_int timeout_ms; host],
              match py_lt (VInt 1) (VFloat y) with
              | Ok true => VFloat y
              | _ => VInt 1
              end)
    | None => None
    end
  else
    match true_div timeout_ms 1000 with
    | Some x =>
        match round_float x with
        | Some n =>
            let sec := Z.max 1 n in
            Some (["ping"; "-c"; "1"; "-W"; str_of_int sec; host],
                  VInt (sec + 1))
        | None => None
        end
    | None => None
    end.

(** [timeout_ms] in whole seconds, the half going to the even second, and
    one second at least. *)
Definition whole_seconds (timeout_ms : Z) : Z :=
  let q := (timeout_ms / 1000)%Z in
  let r := (timeout_ms mod 1000)%Z in
  Z.max 1 (if (r <? 500)%Z then q
           else if (500 <? r)%Z then (q + 1)%Z
           else if Z.even q then q else (q + 1)%Z).

Definition seconds_agree (timeout_ms : Z) : bool :=
  match true_div timeout_ms 1000 with
  | Some x =>
      match round_float x with
      | Some n => (Z.max 1 n =? whole_seconds timeout_ms)%Z
      | None => false
      end
  | None => false
  end.

(** [seconds_agree] on the [n] timeouts from [lo] up, and on those from
    [lo] to [hi]. *)
Fixpoint seconds_agree_from (lo : Z) (n : nat) : bool :=
  match n with
  | O => true
  | S k => seconds_agree lo && seconds_agree_from (lo + 1) k
  end.

Definition seconds_agree_between (lo hi : Z) : bool :=
  seconds_agree_from lo (Z.to_nat (hi - lo + 1)).

(** ** The number [float] reads

    [float(m.group(1))] is the binary64 value nearest to the number the
    captured literal writes.  The notions this is stated with: the number
    a decimal literal writes, the number a float is, and rounding to the
    nearest float, ties to even, as IEEE 754 defines it. *)

From Stdlib Require Import QArith Qabs Qpower.
Import SpecFloat.
Close Scope Q_scope.

(** The parts of a text the latency pattern matches: [time] in any case,
    a separator or none, white space, a decimal literal, white space and
    [ms] in any case. *)
Definition reads_latency (kw sep gap1 ip frac gap2 unit : string) : bool :=
  spelled "time" kw
  && ((sep =? "") || (sep =? "<") || (sep =? "="))%string
  && all_chars is_space gap1
  && nonempty_digits ip && is_fraction frac
  && all_chars is_space gap2
  && spelled "ms" unit.

Section Binary64.

Local Open Scope Z_scope.

(** The number a run of decimal digits writes. *)
Fixpoint digits_number (s : string) : Z :=
  match s with
  | EmptyString => 0
  | String c s' =>
      Z.of_nat (code c - 48) * 10 ^ Z.of_nat (String.length s')
      + digits_number s'
  end.

(** The digits of a fraction: what follows its point. *)
Definition fraction_digits (frac : string) : string :=
  match frac with
  | EmptyString => EmptyString
  | String _ fp => fp
  end.

(** The rational number a decimal literal writes, [ip] before the point
    and the digits of [frac] after it. *)
Definition literal_value (ip frac : string) : Q :=
  (inject_Z (digits_number ip)
   + inject_Z (digits_number (fraction_digits frac))
     / inject_Z (10 ^ Z.of_nat (String.length (fraction_digits frac))))%Q.

(** The rational number a finite float is. *)
Definition float_Q (v : spec_float) : Q :=
  match v with
  | S754_finite s m e => (inject_Z (cond_Zopp s (Zpos m)) * 2 ^ e)%Q
  | _ => 0%Q
  end.

(** A finite binary64 number: a zero, or a mantissa and an exponent in
    the format. *)
Definition is_finite64 (u : spec_float) : Prop :=
  match u with
  | S754_zero _ => True
  | S754_finite _ m e => bounded 53 1024 m e = true
  | _ => False
  end.

Definition even_mantissa (v : spec_float) : Prop :=
  match v with
  | S754_finite _ m _ => Z.even (Zpos m) = true
  | _ => True
  end.

(** [v] is the binary64 value nearest to the rational [x], not negative:
    a finite float no other finite float is nearer to [x] than, of even
    mantissa if another one is as near; or the infinity, from the middle
    between the greatest finite float and [2^1024] on. *)
Definition nearest_binary64 (x : Q) (v : spec_float) : Prop :=
  match v with
  | S754_infinity false => (inject_Z (2 ^ 1024 - 2 ^ 970) <= x)%Q
  | S754_zero false | S754_finite false _ _ =>
      is_finite64 v /\
      (x < inject_Z (2 ^ 1024 - 2 ^ 970))%Q /\
      forall u, is_finite64 u ->
        (Qabs (x - float_Q v) <= Qabs (x - float_Q u))%Q /\
        ((Qabs (x - float_Q v) == Qabs (x - float_Q u))%Q ->
         (float_Q u == float_Q v)%Q \/ even_mantissa v)
  | _ => False
  end.

(** *** Rounding, step by step

    What the proofs about [binary_round_aux] are stated with. *)

(** [A / B] lies in the unit interval that begins at the mantissa, at the
    place the two bits tell. *)
Definition located (mrs : shr_record) (A B : Z) : Prop :=
  let m := shr_m mrs in
  0 <= m /\ m * B <= A < (m + 1) * B /\
  match shr_r mrs, shr_s mrs with
  | false, false => A = m * B
  | false, true => m * B < A /\ 2 * (A - m * B) < B
  | true, false => 2 * (A - m * B) = B
  | true, true => B < 2 * (A - m * B)
  end.

(** The float of mantissa [mr] at the exponent [e1], brought back to 53
    bits when rounding has carried into a 54th. *)
Definition rounded_float (mr e1 : Z) : spec_float :=
  if mr =? 0 then S754_zero false
  else if mr <? 2 ^ 53
       then if e1 <=? 971 then S754_finite false (Z.to_pos mr) e1
            else S754_infinity false
       else if e1 + 1 <=? 971 then S754_finite false (Z.to_pos (2 ^ 52)) (e1 + 1)
            else S754_infinity false.

(** A finite float in units of [2^-1074]. *)
Definition scaled (u : spec_float) : Z :=
  match u with
  | S754_finite s m e => cond_Zopp s (Zpos m) * 2 ^ (e + 1074)
  | _ => 0
  end.

(** [nearest_binary64] of [X / (D * 2^1074)], in units of [2^-1074]. *)
Definition nearest_scaled (X D : Z) (v : spec_float) : Prop :=
  match v with
  | S754_infinity false => D * ((2 ^ 1024 - 2 ^ 970) * 2 ^ 1074) <= X
  | S754_zero false | S754_finite false _ _ =>
      is_finite64 v /\
      X < D * ((2 ^ 1024 - 2 ^ 970) * 2 ^ 1074) /\
      forall u, is_finite64 u ->
        Z.abs (X - D * scaled v) <= Z.abs (X - D * scaled u) /\
        (Z.abs (X - D * scaled v) = Z.abs (X - D * scaled u) ->
         scaled u = scaled v \/ even_mantissa v)
  | _ => False
  end.

End Binary64.
(** * Properties *)

(** ** The order of floats *)

Section FloatOrderFacts.

Import FloatOrder.
Local Open Scope Z_scope.

Lemma rank_defined (f : spec_float) :
  PyFloat.is_nan f = false -> exists r, rank f = Some r.
Proof. destruct f; simpl; intros H; try discriminate; eauto. Qed.

Ltac cmp_cases :=
  repeat match goal with
    | |- context [Z.compare ?a ?b] => destruct (Z.compare_spec a b)
    | |- context [Pos.compare_cont Eq ?a ?b] =>
        change (Pos.compare_cont Eq a b) with (Pos.compare a b);
        destruct (Pos.compare_spec a b)
    end.

Lemma SFltb_rank (x y : spec_float) (rx ry : Z * Z * Z) :
  rank x = Some rx -> rank y = Some ry ->
  (SFltb x y = true <-> lex_lt rx ry).
Proof.
  unfold SFltb.
  destruct x as [sx|sx| |sx mx ex], y as [sy|sy| |sy my ey];
    simpl; intros Hx Hy; try discriminate;
    injection Hx as <-; injection Hy as <-;
    destruct sx; try destruct sy; simpl; cmp_cases; simpl;
    split; intros Hg; try discriminate; try reflexivity; try lia.
Qed.

Lemma SFeqb_rank (x y : spec_float) (rx ry : Z * Z * Z) :
  rank x = Some rx -> rank y = Some ry ->
  (SFeqb x y = true <-> rx = ry).
Proof.
  unfold SFeqb.
  destruct x as [sx|sx| |sx mx ex], y as [sy|sy| |sy my ey];
    simpl; intros Hx Hy; try discriminate;
    injection Hx as <-; injection Hy as <-;
    destruct sx; try destruct sy; simpl; cmp_cases; simpl;
    split; intros Hg; try discriminate; try reflexivity;
    try (injection Hg; intros; lia); try (f_equal; [f_equal|]; lia).
Qed.

Lemma SFltb_not_nan (x y : spec_float) :
  SFltb x y = true -> PyFloat.is_nan x = false /\ PyFloat.is_nan y = false.
Proof. destruct x, y; simpl; intros H; try discriminate; auto. Qed.

Lemma SFltb_irrefl (x : spec_float) : SFltb x x = false.
Proof.
  destruct (PyFloat.is_nan x) eqn:Hn.
  - destruct x; try discriminate; reflexivity.
  - destruct (rank_defined x Hn) as [[[a b] c] Hr].
    destruct (SFltb x x) eqn:H; [|reflexivity].
    apply (SFltb_rank x x _ _ Hr Hr) in H. simpl in H. lia.
Qed.

Lemma SFltb_trans (x y z : spec_float) :
  SFltb x y = true -> SFltb y z = true -> SFltb x z = true.
Proof.
  intros Hxy Hyz.
  destruct (SFltb_not_nan _ _ Hxy) as [Hx Hy].
  destruct (SFltb_not_nan _ _ Hyz) as [_ Hz].
  destruct (rank_defined x Hx) as [[[a1 b1] c1] Rx].
  destruct (rank_defined y Hy) as [[[a2 b2] c2] Ry].
  destruct (rank_defined z Hz) as [[[a3 b3] c3] Rz].
  apply (SFltb_rank _ _ _ _ Rx Ry) in Hxy.
  apply (SFltb_rank _ _ _ _ Ry Rz) in Hyz.
  apply (SFltb_rank _ _ _ _ Rx Rz).
  simpl in *. lia.
Qed.

Lemma SFleb_alt (x y : spec_float) : SFleb x y = SFltb x y || SFeqb x y.
Proof.
  unfold SFleb, SFltb, SFeqb. now destruct (SFcompare x y) as [[| |]|].
Qed.

Lemma lex_total (x y : Z * Z * Z) : lex_lt x y \/ x = y \/ lex_lt y x.
Proof.
  destruct x as [[a b] c], y as [[a' b'] c']. simpl.
  destruct (Z.lt_trichotomy a a') as [?|[?|?]]; [lia| |lia].
  destruct (Z.lt_trichotomy b b') as [?|[?|?]]; [lia| |lia].
  destruct (Z.lt_trichotomy c c') as [?|[?|?]]; [lia| |lia].
  right; left. congruence.
Qed.

(** Without a NaN, [x < y] is false exactly when [y <= x]. *)
Lemma SFltb_false_leb (x y : spec_float) :
  PyFloat.is_nan x = false -> PyFloat.is_nan y = false ->
  SFltb x y = false -> SFleb y x = true.
Proof.
  intros Hx Hy Hlt.
  destruct (rank_defined x Hx) as [rx Rx].
  destruct (rank_defined y Hy) as [ry Ry].
  rewrite SFleb_alt. apply orb_true_iff.
  destruct (lex_total rx ry) as [H|[H|H]].
  - apply (SFltb_rank _ _ _ _ Rx Ry) in H. congruence.
  - right. apply (SFeqb_rank _ _ _ _ Ry Rx). congruence.
  - left. now apply (SFltb_rank _ _ _ _ Ry Rx).
Qed.

Lemma FloatOrder_leb (m x : spec_float) :
  PyFloat.is_nan m = false -> SFltb x m = false ->
  PyFloat.is_nan x = false -> SFleb m x = true.
Proof. intros Hm Hlt Hx. now apply SFltb_false_leb. Qed.

End FloatOrderFacts.

(** ** [float] of a decimal literal is never a NaN *)

Section ParsedFloats.

Local Open Scope Z_scope.

Lemma shr_1_nonneg (mrs : shr_record) :
  0 <= shr_m mrs -> 0 <= shr_m (shr_1 mrs).
Proof.
  destruct mrs as [m r s]. simpl.
  destruct m as [|p|p]; simpl; try lia; destruct p; simpl; lia.
Qed.

Lemma iter_shr_1_nonneg (p : positive) :
  forall mrs, 0 <= shr_m mrs -> 0 <= shr_m (iter_pos shr_1 p mrs).
Proof.
  induction p as [p IH|p IH|]; simpl; intros mrs H.
  - apply IH, IH, shr_1_nonneg, H.
  - apply IH, IH, H.
  - apply shr_1_nonneg, H.
Qed.

Lemma shr_fexp_nonneg (m e : Z) (l : location) :
  0 <= m -> 0 <= shr_m (fst (shr_fexp PyFloat.prec PyFloat.emax m e l)).
Proof.
  intros H. unfold shr_fexp, shr.
  assert (H0 : 0 <= shr_m (shr_record_of_loc m l))
    by (destruct l as [|[| |]]; simpl; exact H).
  destruct (fexp PyFloat.prec PyFloat.emax (Zdigits2 m + e) - e);
    simpl; auto using iter_shr_1_nonneg.
Qed.

Lemma round_nearest_even_nonneg (m : Z) (l : location) :
  0 <= m -> 0 <= round_nearest_even m l.
Proof.
  intros H. destruct l as [|[| |]]; simpl; try lia.
  destruct (Z.even m); lia.
Qed.

Lemma binary_round_aux_not_nan (s : bool) (m e : Z) (l : location) :
  0 <= m ->
  PyFloat.is_nan (binary_round_aux PyFloat.prec PyFloat.emax s m e l) = false.
Proof.
  intros H. unfold binary_round_aux.
  pose proof (shr_fexp_nonneg m e l H) as H1.
  destruct (shr_fexp PyFloat.prec PyFloat.emax m e l) as [mrs' e'].
  simpl in H1.
  pose proof (shr_fexp_nonneg _ e' loc_Exact
                (round_nearest_even_nonneg _ (loc_of_shr_record mrs') H1)) as H2.
  destruct (shr_fexp PyFloat.prec PyFloat.emax _ e' loc_Exact) as [mrs'' e''].
  simpl in H2.
  destruct (shr_m mrs'') as [|p|p]; [reflexivity| |lia].
  now destruct (e'' <=? PyFloat.emax - PyFloat.prec).
Qed.

Lemma of_ratio_not_nan (n d : Z) :
  0 <= n -> 0 < d -> PyFloat.is_nan (PyFloat.of_ratio n d) = false.
Proof.
  intros Hn Hd. unfold PyFloat.of_ratio.
  destruct n as [|p|p]; [reflexivity| |lia].
  unfold SFdiv_core_binary.
  set (s := 0 - 0 - _).
  set (m' := match s with Z0 => Z.pos p | Zpos _ => Z.shiftl (Z.pos p) s | Zneg _ => 0 end).
  assert (Hm' : 0 <= m').
  { subst m'. destruct s; try lia. apply Z.shiftl_nonneg. lia. }
  pose proof (Z.div_pos m' d Hm' Hd) as Hq.
  unfold Z.div in Hq.
  destruct (Z.div_eucl m' d) as [q r]. simpl in Hq.
  now apply binary_round_aux_not_nan.
Qed.

Lemma digits_value_nonneg (s : string) :
  forall acc n, 0 <= acc -> digits_value acc s = Some n -> 0 <= n.
Proof.
  induction s as [|c s IH]; simpl; intros acc n Hacc H.
  - injection H as <-. exact Hacc.
  - destruct (is_digit c); [|discriminate].
    apply (IH (10 * acc + Z.of_nat (code c - 48)) n); [lia | exact H].
Qed.

Lemma float_of_decimal_not_nan (text : string) (f : spec_float) :
  float_of_decimal text = Some f -> PyFloat.is_nan f = false.
Proof.
  unfold float_of_decimal.
  destruct (split_point text) as [ip [fp|]]; destruct ip as [|c ip];
    try discriminate.
  - destruct fp as [|c' fp]; [discriminate|].
    destruct (digits_value 0 _) as [n|] eqn:Hd; [|discriminate].
    intros H; injection H as <-.
    apply of_ratio_not_nan.
    + apply (digits_value_nonneg _ _ _ (Z.le_refl 0) Hd).
    + exact (Z.pow_pos_nonneg 10 (Z.of_nat (String.length (String c' fp)))
               ltac:(lia) ltac:(lia)).
  - destruct (digits_value 0 _) as [n|] eqn:Hd; [|discriminate].
    intros H; injection H as <-.
    apply of_ratio_not_nan; [|lia].
    apply (digits_value_nonneg _ _ _ (Z.le_refl 0) Hd).
Qed.

Lemma parse_latency_not_nan (out : string) (f : spec_float) :
  parse_latency out = Some f -> PyFloat.is_nan f = false.
Proof.
  unfold parse_latency.
  destruct (search LATENCY_RE out) as [[text|]|]; try discriminate.
  apply float_of_decimal_not_nan.
Qed.

End ParsedFloats.

(** ** The retry loop *)

Section RetryLoop.

Variable w : world.
Variable host : string.
Variable t : Z.

Lemma log_snoc_length (log : list call) :
  List.length (log ++ [(host, t)]) = S (List.length log).
Proof. rewrite length_app. simpl. lia. Qed.

Lemma attempts_returns :
  forall outs best s last log,
    answers w host t (List.length log) outs ->
    attempts w (List.length outs) host t best s last log =
    (Ok (summarize outs best s last),
     log ++ repeat (host, t) (List.length outs)).
Proof.
  induction outs as [|[[ok lat] rc] outs IH]; intros best s last log Hans.
  - simpl. unfold ret. now rewrite app_nil_r.
  - destruct Hans as [Hhd Htl].
    rewrite <- (log_snoc_length log) in Htl.
    cbn [attempts List.length summarize].
    unfold io_bind at 1. unfold ping_once at 1. rewrite Hhd.
    destruct ok; rewrite (IH _ _ _ _ Htl), <- app_assoc; reflexivity.
Qed.

Lemma attempts_raises :
  forall outs n best s last log,
    answers w host t (List.length log) outs ->
    run w (List.length log + List.length outs) host t = LaunchError ->
    attempts w (List.length outs + S n) host t best s last log =
    (Raise OSError, log ++ repeat (host, t) (S (List.length outs))).
Proof.
  induction outs as [|[[ok lat] rc] outs IH];
    intros n best s last log Hans Hrun.
  - simpl in *. rewrite Nat.add_0_r in Hrun.
    unfold io_bind, ping_once. now rewrite Hrun.
  - destruct Hans as [Hhd Htl].
    rewrite <- (log_snoc_length log) in Htl.
    cbn [attempts List.length Nat.add].
    unfold io_bind at 1. unfold ping_once at 1. rewrite Hhd.
    assert (Hrun' : run w (List.length (log ++ [(host, t)]) + List.length outs)
                      host t = LaunchError).
    { rewrite log_snoc_length. simpl in Hrun.
      now rewrite Nat.add_succ_r in Hrun. }
    destruct ok; rewrite (IH _ _ _ _ _ Htl Hrun'), <- app_assoc; reflexivity.
Qed.

(** When no process launch fails, every attempt has an answer. *)
Lemma answers_exist :
  forall n start,
    (forall i, (i < n)%nat -> run w (start + i) host t <> LaunchError) ->
    exists outs, List.length outs = n /\ answers w host t start outs.
Proof.
  induction n as [|n IH]; intros start H.
  - exists []. split; [reflexivity | exact I].
  - destruct (IH (S start)) as [outs [Hlen Hans]].
    { intros i Hi. replace (S start + i)%nat with (start + S i)%nat by lia.
      apply H. lia. }
    pose proof (H 0%nat ltac:(lia)) as H0. rewrite Nat.add_0_r in H0.
    destruct (attempt_result (run w start host t)) as [o|e] eqn:Ho.
    + exists (o :: outs). simpl. auto.
    + destruct (run w start host t); simpl in Ho; try discriminate.
      now contradiction H0.
Qed.

Lemma answers_nth :
  forall outs start i,
    answers w host t start outs -> (i < List.length outs)%nat ->
    exists o, nth_error outs i = Some o /\
              attempt_result (run w (start + i) host t) = Ok o.
Proof.
  induction outs as [|o outs IH]; intros start i Hans Hi; [simpl in Hi; lia|].
  destruct Hans as [Hhd Htl]. destruct i as [|i].
  - exists o. rewrite Nat.add_0_r. auto.
  - simpl in Hi. destruct (IH (S start) i Htl ltac:(lia)) as [o' [Hn Ho']].
    exists o'. replace (start + S i)%nat with (S start + i)%nat by lia. auto.
Qed.

(** Every latency [ping_once] returns is a number. *)
Lemma answers_numbers :
  forall outs start,
    answers w host t start outs ->
    Forall (fun o => is_number (latency_of o)) outs.
Proof.
  induction outs as [|o outs IH]; intros start Hans; constructor.
  - destruct Hans as [Hhd _].
    destruct (run w start host t) as [rc so se| |]; simpl in Hhd;
      try discriminate; injection Hhd as <-; intros l Hl; simpl in Hl.
    + now apply parse_latency_not_nan in Hl.
    + discriminate.
  - destruct Hans as [_ Htl]. apply (IH _ Htl).
Qed.

End RetryLoop.

(** ** What the loop accumulates *)

Section Summary.

Import FloatOrder.

Lemma SFltb_neg_trans (x y z : spec_float) :
  PyFloat.is_nan x = false -> PyFloat.is_nan y = false ->
  PyFloat.is_nan z = false ->
  SFltb x y = false -> SFltb y z = false -> SFltb x z = false.
Proof.
  intros Hx Hy Hz Hxy Hyz.
  destruct (rank_defined x Hx) as [[[a1 b1] c1] Rx].
  destruct (rank_defined y Hy) as [[[a2 b2] c2] Ry].
  destruct (rank_defined z Hz) as [[[a3 b3] c3] Rz].
  destruct (SFltb x z) eqn:Hxz; [|reflexivity].
  apply (SFltb_rank _ _ _ _ Rx Rz) in Hxz.
  assert (Hn1 : ~ lex_lt (a1, b1, c1) (a2, b2, c2))
    by (intros H; apply (SFltb_rank _ _ _ _ Rx Ry) in H; congruence).
  assert (Hn2 : ~ lex_lt (a2, b2, c2) (a3, b3, c3))
    by (intros H; apply (SFltb_rank _ _ _ _ Ry Rz) in H; congruence).
  simpl in *. lia.
Qed.

Lemma summarize_successes :
  forall outs best s last,
    snd (fst (summarize outs best s last)) = (s + count_successes outs)%Z.
Proof.
  unfold count_successes.
  induction outs as [|[[ok lat] rc] outs IH]; intros best s last.
  - simpl. lia.
  - cbn [summarize filter succeeded fst]. destruct ok.
    + rewrite IH. cbn [List.length]. lia.
    + apply IH.
Qed.

Lemma last_cons_default {A : Type} (l : list A) :
  forall x d, List.last (x :: l) d = List.last l x.
Proof.
  induction l as [|y l IH]; intros x d; [reflexivity|].
  change (List.last (x :: y :: l) d) with (List.last (y :: l) d).
  now rewrite !IH.
Qed.

Lemma summarize_last :
  forall outs best s last,
    snd (summarize outs best s last) =
    List.last (map (fun o => Some (exit_of o)) outs) last.
Proof.
  induction outs as [|[[ok lat] rc] outs IH]; intros best s last.
  - reflexivity.
  - cbn [summarize map]. rewrite last_cons_default.
    destruct ok; apply IH.
Qed.

Lemma summarize_best :
  forall outs best s last,
    Forall (fun o => is_number (latency_of o)) outs ->
    is_number best ->
    match fst (fst (summarize outs best s last)) with
    | None => best = None /\ reported_latencies outs = []
    | Some m =>
        PyFloat.is_nan m = false /\
        (best = Some m \/ In m (reported_latencies outs)) /\
        (forall x, In x (reported_latencies outs) -> SFltb x m = false) /\
        (forall b, best = Some b -> SFltb b m = false)
    end.
Proof.
  induction outs as [|[[ok lat] rc] outs IH]; intros best s last Hnum Hbest.
  - simpl. destruct best as [b|]; [|auto].
    repeat split; auto.
    + contradiction.
    + intros b' Hb'. injection Hb' as <-. apply SFltb_irrefl.
  - inversion Hnum as [|o outs' Hlat Hrest]; subst.
    unfold latency_of in Hlat; simpl in Hlat.
    cbn [summarize]. destruct ok.
    + assert (Hbetter : is_number (better lat best)).
      { intros l Hl. destruct lat as [x|], best as [b|]; simpl in Hl.
        - destruct (SFltb x b); injection Hl as <-; auto.
        - injection Hl as <-; auto.
        - auto.
        - discriminate. }
      specialize (IH (better lat best) (s + 1)%Z (Some rc) Hrest Hbetter).
      destruct (fst (fst (summarize outs (better lat best) (s + 1)%Z (Some rc))))
        as [m|].
      * destruct IH as [Hm [Hin [Hmin Hb]]].
        unfold reported_latencies; cbn [flat_map succeeded latency_of fst snd].
        fold (reported_latencies outs).
        destruct lat as [x|], best as [b|]; simpl in Hb, Hin |- *.
        -- pose proof (Hlat x eq_refl) as Hx.
           pose proof (Hbest b eq_refl) as Hbn.
           destruct (SFltb x b) eqn:Hxb.
           ++ pose proof (Hb x eq_refl) as Hxm.
              split; [exact Hm|split; [|split]].
              ** destruct Hin as [Hin|Hin]; [injection Hin as <-|]; auto.
              ** intros y [Hy|Hy]; [subst y|]; auto.
              ** intros b' Hb'. injection Hb' as <-.
                 destruct (SFltb b m) eqn:Hbm; [|reflexivity].
                 rewrite (SFltb_trans _ _ _ Hxb Hbm) in Hxm. discriminate.
           ++ pose proof (Hb b eq_refl) as Hbm.
              split; [exact Hm|split; [|split]].
              ** destruct Hin as [Hin|Hin]; auto.
              ** intros y [Hy|Hy]; [subst y|auto].
                 apply (SFltb_neg_trans x b m); auto.
              ** intros b' Hb'. now injection Hb' as <-.
        -- pose proof (Hb x eq_refl) as Hxm.
           split; [exact Hm|split; [|split]].
           ++ destruct Hin as [Hin|Hin]; [injection Hin as <-|]; auto.
           ++ intros y [Hy|Hy]; [subst y|]; auto.
           ++ discriminate.
        -- split; [exact Hm|split; [|split]]; auto.
        -- split; [exact Hm|split; [|split]]; auto.
      * destruct IH as [Hnone Hlats].
        unfold reported_latencies; cbn [flat_map succeeded latency_of fst snd].
        fold (reported_latencies outs).
        destruct lat as [x|], best as [b|]; simpl in Hnone;
          try discriminate; try (destruct (SFltb x b); discriminate).
        auto.
    + specialize (IH best s (Some rc) Hrest Hbest).
      unfold reported_latencies; cbn [flat_map succeeded latency_of fst snd].
      fold (reported_latencies outs). exact IH.
Qed.

End Summary.

(** ** [ping_host] *)

Section PingHost.

Variable w : world.
Variable host : string.
Variable t : Z.

(** The measurement built from what the loop accumulated. *)
Lemma ping_host_returns (retries : Z) (log : list call) (outs : list outcome) :
  List.length outs = attempt_count retries ->
  answers w host t (List.length log) outs ->
  ping_host w host retries t log =
  (let '(best, successes, last_rc) := summarize outs None 0%Z None in
   let log' := log ++ repeat (host, t) (attempt_count retries) in
   (Ok [("host", VStr host);
        ("reachable", VBool (0 <? successes)%Z);
        ("latency_ms", opt_value VFloat best);
        ("timestamp", VStr (utcnow w (List.length log') ++ "Z")%string);
        ("raw_exit", opt_value VInt last_rc);
        ("attempts", VInt (Z.max 1 retries));
        ("successes", VInt successes)],
    log')).
Proof.
  intros Hlen Hans. unfold ping_host, io_bind.
  fold (attempt_count retries). rewrite <- Hlen.
  rewrite (attempts_returns w host t outs _ _ _ _ Hans).
  now destruct (summarize outs None 0%Z None) as [[best s] last].
Qed.

(** A launch failure at the first attempt ends [ping_host]. *)
Lemma ping_host_raises (retries : Z) (log : list call) :
  run w (List.length log) host t = LaunchError ->
  ping_host w host retries t log = (Raise OSError, log ++ [(host, t)]).
Proof.
  intros Hrun. unfold ping_host, io_bind.
  assert (Hn : exists n, Z.to_nat (Z.max 1 retries) = S n).
  { exists (Z.to_nat (Z.max 1 retries) - 1)%nat. lia. }
  destruct Hn as [n ->].
  pose proof (attempts_raises w host t [] n None 0%Z None log I) as H.
  simpl in H. rewrite Nat.add_0_r in H. simpl. now rewrite (H Hrun).
Qed.

(** When [ping_host] returns, every attempt had an answer. *)
Lemma attempts_ok_answers :
  forall n best s last log r log',
    attempts w n host t best s last log = (Ok r, log') ->
    exists outs, List.length outs = n /\
                 answers w host t (List.length log) outs.
Proof.
  induction n as [|n IH]; intros best s last log r log' H.
  - exists []. split; [reflexivity | exact I].
  - cbn [attempts] in H. unfold io_bind at 1 in H.
    unfold ping_once at 1 in H.
    destruct (attempt_result (run w (List.length log) host t))
      as [[[ok lat] rc]|e] eqn:Ho; [|discriminate].
    assert (Hrest : exists b' s' l',
               attempts w n host t b' s' l' (log ++ [(host, t)]) = (Ok r, log'))
      by (destruct ok; eauto).
    destruct Hrest as [b' [s' [l' Hrest]]].
    destruct (IH _ _ _ _ _ _ Hrest) as [outs [Hlen Hans]].
    rewrite log_snoc_length in Hans.
    exists ((ok, lat, rc) :: outs). simpl. auto.
Qed.

Lemma ping_host_ok_answers (retries : Z) (log : list call) (m : row)
  (log' : list call) :
  ping_host w host retries t log = (Ok m, log') ->
  exists outs, List.length outs = attempt_count retries /\
               answers w host t (List.length log) outs.
Proof.
  unfold ping_host, io_bind. fold (attempt_count retries).
  destruct (attempts w (attempt_count retries) host t None 0%Z None log)
    as [[r|e] log1] eqn:H; [|discriminate].
  intros _. apply (attempts_ok_answers _ _ _ _ _ _ _ H).
Qed.

Lemma count_successes_bounds (outs : list outcome) :
  (0 <= count_successes outs <= Z.of_nat (List.length outs))%Z.
Proof.
  unfold count_successes.
  pose proof (filter_length_le succeeded outs). lia.
Qed.

Lemma attempt_count_max (retries : Z) :
  Z.of_nat (attempt_count retries) = Z.max 1 retries.
Proof. unfold attempt_count. lia. Qed.

End PingHost.

(** ** Claims about the retry aggregator *)

(** A success whose output shows no latency is counted: three successful
    attempts reporting 5.0, nothing and 2.0 give [latency_ms] 2.0 and
    [successes] 3. *)
Lemma three_successes_are_counted :
  answers three_successes "h" 1000 0
    [(true, Some float_5, 0%Z); (true, None, 0%Z); (true, Some float_2, 0%Z)] /\
  exists m log',
    ping_host three_successes "h" 3 1000 [] = (Ok m, log') /\
    getitem m "latency_ms" = Ok (VFloat float_2) /\
    getitem m "successes" = Ok (VInt 3) /\
    getitem m "successes" <> Ok (VInt 2).
Proof.
  split; [vm_compute; auto|].
  eexists; eexists. split; [vm_compute; reflexivity|].
  repeat split; try reflexivity. discriminate.
Qed.

(** The example of C4: a success reporting 5.0, an attempt that fails
    without a latency and a success reporting 2.0 give [latency_ms] 2.0 and
    [successes] 2, out of 3 attempts. *)
Lemma ping_host_latency_example :
  answers success_timeout_success "h" 1000 0
    [(true, Some float_5, 0%Z); (false, None, 124%Z); (true, Some float_2, 0%Z)] /\
  exists m log',
    ping_host success_timeout_success "h" 3 1000 [] = (Ok m, log') /\
    getitem m "latency_ms" = Ok (VFloat float_2) /\
    getitem m "successes" = Ok (VInt 2) /\
    getitem m "attempts" = Ok (VInt 3).
Proof.
  split; [vm_compute; auto|].
  eexists; eexists. split; [vm_compute; reflexivity|].
  repeat split; reflexivity.
Qed.

(** C4: for every sequence of per-attempt outcomes, [latency_ms] is the
    minimum latency among the successful attempts that reported one, and
    is absent when there is none; [successes] counts every successful
    attempt, with or without a latency, so that a success without a
    latency raises [successes] and leaves [latency_ms] as it is. *)
Theorem ping_host_latency_is_minimum
  (w : world) (host : string) (retries t : Z) (log : list call)
  (outs : list outcome) :
  List.length outs = attempt_count retries ->
  answers w host t (List.length log) outs ->
  exists m log',
    ping_host w host retries t log = (Ok m, log') /\
    getitem m "successes" = Ok (VInt (count_successes outs)) /\
    match reported_latencies outs with
    | [] => getitem m "latency_ms" = Ok VNone
    | _ :: _ =>
        exists f, getitem m "latency_ms" = Ok (VFloat f) /\
                  is_minimum f (reported_latencies outs)
    end.
Proof.
  intros Hlen Hans.
  rewrite (ping_host_returns w host t retries log outs Hlen Hans).
  pose proof (summarize_successes outs None 0%Z None) as Hs.
  pose proof (summarize_best outs None 0%Z None
                (answers_numbers w host t outs _ Hans)
                (fun l H => ltac:(discriminate))) as Hb.
  destruct (summarize outs None 0%Z None) as [[best s] last].
  simpl in Hs, Hb. subst s.
  eexists; eexists. split; [reflexivity|]. split; [reflexivity|].
  destruct best as [m|].
  - destruct Hb as [Hm [[Hin|Hin] [Hmin _]]]; [discriminate|].
    destruct (reported_latencies outs) as [|x lats] eqn:Hl; [contradiction|].
    exists m. split; [reflexivity|]. split; [exact Hin|].
    intros y Hy. apply FloatOrder_leb; auto.
    pose proof (answers_numbers w host t outs _ Hans) as Hnum.
    clear - Hnum Hl Hy. revert Hy. rewrite <- Hl. clear Hl.
    unfold reported_latencies. rewrite in_flat_map.
    intros [o [Ho Hyo]]. rewrite Forall_forall in Hnum.
    specialize (Hnum o Ho). destruct (succeeded o); [|contradiction].
    destruct (latency_of o) as [l|]; [|contradiction].
    destruct Hyo as [<-|[]]. now apply Hnum.
  - destruct Hb as [_ ->]. reflexivity.
Qed.

Lemma ping_host_latency_is_minimum_witness :
  exists m log',
    ping_host success_timeout_success "h" 3 1000 [] = (Ok m, log') /\
    getitem m "successes" = Ok (VInt 2) /\
    exists f, getitem m "latency_ms" = Ok (VFloat f) /\
              is_minimum f [float_5; float_2].
Proof.
  apply (ping_host_latency_is_minimum success_timeout_success "h" 3 1000 []
           [(true, Some float_5, 0%Z); (false, None, 124%Z);
            (true, Some float_2, 0%Z)]).
  - reflexivity.
  - vm_compute. auto.
Defined.

(** C5: every measurement [ping_host] produces has
    [successes <= attempts] and [reachable == (successes > 0)], whatever
    [retries] is and whatever the attempts answer. *)
Theorem ping_host_invariant
  (w : world) (host : string) (retries t : Z) (log log' : list call) (m : row) :
  ping_host w host retries t log = (Ok m, log') ->
  exists s a,
    getitem m "successes" = Ok (VInt s) /\
    getitem m "attempts" = Ok (VInt a) /\
    (0 <= s <= a)%Z /\
    getitem m "reachable" = Ok (VBool (0 <? s)%Z).
Proof.
  intros H.
  destruct (ping_host_ok_answers w host t retries log m log' H)
    as [outs [Hlen Hans]].
  rewrite (ping_host_returns w host t retries log outs Hlen Hans) in H.
  pose proof (summarize_successes outs None 0%Z None) as Hs.
  destruct (summarize outs None 0%Z None) as [[best s] last].
  simpl in Hs. injection H as <- _.
  exists s, (Z.max 1 retries). repeat split; try reflexivity.
  - pose proof (count_successes_bounds outs). lia.
  - pose proof (count_successes_bounds outs).
    rewrite <- attempt_count_max, <- Hlen. lia.
Qed.

Lemma ping_host_invariant_witness :
  exists s a,
    getitem
      [("host", VStr "h"); ("reachable", VBool true);
       ("latency_ms", VFloat float_2);
       ("timestamp", VStr "2024-05-01T12:00:00Z"); ("raw_exit", VInt 0);
       ("attempts", VInt 3); ("successes", VInt 2)] "successes"
    = Ok (VInt s) /\
    getitem
      [("host", VStr "h"); ("reachable", VBool true);
       ("latency_ms", VFloat float_2);
       ("timestamp", VStr "2024-05-01T12:00:00Z"); ("raw_exit", VInt 0);
       ("attempts", VInt 3); ("successes", VInt 2)] "attempts"
    = Ok (VInt a) /\
    (0 <= s <= a)%Z /\
    getitem
      [("host", VStr "h"); ("reachable", VBool true);
       ("latency_ms", VFloat float_2);
       ("timestamp", VStr "2024-05-01T12:00:00Z"); ("raw_exit", VInt 0);
       ("attempts", VInt 3); ("successes", VInt 2)] "reachable"
    = Ok (VBool (0 <? s)%Z).
Proof.
  apply (ping_host_invariant success_timeout_success "h" 3 1000 []
           [("h", 1000%Z); ("h", 1000%Z); ("h", 1000%Z)]).
  vm_compute. reflexivity.
Defined.

(** C6 as stated fails: when the ping command cannot be started,
    [ping_host] with [retries = 3] stops after one call of the probe
    executor, and returns no measurement. *)
Lemma launch_failure_cuts_attempts :
  attempt_count 3 = 3%nat /\
  exists e log',
    ping_host no_ping_command "h" 3 1000 [] = (Raise e, log') /\
    log' = [("h", 1000%Z)] /\
    List.length log' <> attempt_count 3.
Proof.
  split; [reflexivity|].
  exists OSError, [("h", 1000%Z)]. split; [reflexivity|].
  split; [reflexivity|]. discriminate.
Qed.

(** C6 (amended): for every [retries], when every attempt can be started
    (it runs to its end or times out), [ping_host] calls the probe executor
    exactly [max(1, retries)] times, each time with the same host and
    timeout, and [attempts] is that number; so exactly [N] times for
    [retries = N >= 1]. *)
Theorem ping_host_attempt_count
  (w : world) (host : string) (retries t : Z) (log : list call) :
  (forall i, (i < attempt_count retries)%nat ->
             run w (List.length log + i) host t <> LaunchError) ->
  exists m,
    ping_host w host retries t log =
    (Ok m, log ++ repeat (host, t) (attempt_count retries)) /\
    getitem m "attempts" = Ok (VInt (Z.of_nat (attempt_count retries))) /\
    Z.of_nat (attempt_count retries) = Z.max 1 retries /\
    ((1 <= retries)%Z -> Z.of_nat (attempt_count retries) = retries).
Proof.
  intros Hrun.
  destruct (answers_exist w host t _ _ Hrun) as [outs [Hlen Hans]].
  rewrite (ping_host_returns w host t retries log outs Hlen Hans).
  destruct (summarize outs None 0%Z None) as [[best s] last].
  eexists. split; [reflexivity|].
  rewrite attempt_count_max. repeat split. lia.
Qed.

Lemma ping_host_attempt_count_witness :
  exists m,
    ping_host three_successes "h" 3 1000 [] =
    (Ok m, [("h", 1000%Z); ("h", 1000%Z); ("h", 1000%Z)]) /\
    getitem m "attempts" = Ok (VInt 3) /\
    3%Z = Z.max 1 3 /\
    ((1 <= 3)%Z -> 3%Z = 3%Z).
Proof.
  apply (ping_host_attempt_count three_successes "h" 3 1000 []).
  intros i Hi. change (attempt_count 3) with 3%nat in Hi.
  destruct i as [|[|[|i]]]; simpl; try discriminate. lia.
Defined.

(** C7 as stated fails: when the process cannot be started, [ping_host]
    raises. *)
Lemma ping_host_can_raise :
  ping_host no_ping_command "h" 3 1000 [] = (Raise OSError, [("h", 1000%Z)]).
Proof. reflexivity. Qed.

Section AllFailed.

Variable w : world.
Variable host : string.
Variable t : Z.

Lemma failed_attempt_result (o : proc_outcome) :
  failed_attempt o = true ->
  exists lat rc, attempt_result o = Ok (false, lat, rc) /\
                 exit_code o = Some rc.
Proof.
  destruct o as [rc so se| |]; simpl; intros H; try discriminate.
  - apply negb_true_iff in H. rewrite H. eauto.
  - eauto.
Qed.

Lemma failed_answers :
  forall n start,
    (forall i, (i < n)%nat ->
               failed_attempt (run w (start + i) host t) = true) ->
    exists outs,
      List.length outs = n /\ answers w host t start outs /\
      Forall (fun o => succeeded o = false) outs /\
      forall o, nth_error outs (n - 1) = Some o ->
                exit_code (run w (start + (n - 1)) host t) = Some (exit_of o).
Proof.
  induction n as [|n IH]; intros start H.
  - exists []. repeat split; auto. intros o Ho. discriminate.
  - destruct (IH (S start)) as [outs [Hlen [Hans [Hall Hlast]]]].
    { intros i Hi. replace (S start + i)%nat with (start + S i)%nat by lia.
      apply H. lia. }
    pose proof (H 0%nat ltac:(lia)) as H0. rewrite Nat.add_0_r in H0.
    destruct (failed_attempt_result _ H0) as [lat [rc [Hres Hrc]]].
    exists ((false, lat, rc) :: outs). simpl.
    repeat split; auto.
    intros o Ho. destruct n as [|n].
    + simpl in Ho. injection Ho as <-. now rewrite Nat.add_0_r.
    + simpl in Ho. replace (S n - 0)%nat with (S n) in Ho by lia.
      replace (start + (S n - 0))%nat with (S start + (S n - 1))%nat by lia.
      apply Hlast. replace (S n - 1)%nat with n by lia. exact Ho.
Qed.

Lemma summarize_all_failed :
  forall outs best s last,
    Forall (fun o => succeeded o = false) outs ->
    summarize outs best s last =
    (best, s, List.last (map (fun o => Some (exit_of o)) outs) last).
Proof.
  induction outs as [|[[ok lat] rc] outs IH]; intros best s last Hall.
  - reflexivity.
  - inversion Hall as [|o outs' Hok Hrest]; subst.
    unfold succeeded in Hok; simpl in Hok; subst ok.
    cbn [summarize map]. rewrite last_cons_default. now apply IH.
Qed.

Lemma last_nth_error {A : Type} (l : list A) (d x : A) :
  nth_error l (List.length l - 1) = Some x -> List.last l d = x.
Proof.
  revert d. induction l as [|y l IH]; intros d H; [discriminate|].
  rewrite last_cons_default. destruct l as [|z l].
  - simpl in H. now injection H.
  - apply IH. simpl in H |- *. now rewrite Nat.sub_0_r in *.
Qed.

End AllFailed.

(** C7 (amended): when every attempt fails with a non-zero exit status or a
    timeout, [ping_host] does not raise: it returns a measurement with
    [reachable] false, no latency, [successes] 0 and [raw_exit] the exit
    code of the last attempt, 124 when that attempt timed out. *)
Theorem ping_host_all_failed
  (w : world) (host : string) (retries t : Z) (log : list call) :
  (forall i, (i < attempt_count retries)%nat ->
             failed_attempt (run w (List.length log + i) host t) = true) ->
  exists m log' rc,
    ping_host w host retries t log = (Ok m, log') /\
    getitem m "reachable" = Ok (VBool false) /\
    getitem m "latency_ms" = Ok VNone /\
    getitem m "successes" = Ok (VInt 0) /\
    getitem m "raw_exit" = Ok (VInt rc) /\
    exit_code (run w (List.length log + (attempt_count retries - 1)) host t)
    = Some rc /\
    (run w (List.length log + (attempt_count retries - 1)) host t
     = TimeoutExpired -> rc = 124%Z).
Proof.
  intros Hfail.
  destruct (failed_answers w host t _ _ Hfail)
    as [outs [Hlen [Hans [Hall Hlast]]]].
  rewrite (ping_host_returns w host t retries log outs Hlen Hans).
  rewrite (summarize_all_failed outs None 0%Z None Hall).
  assert (Hpos : (0 < List.length outs)%nat)
    by (rewrite Hlen; unfold attempt_count; lia).
  destruct (nth_error outs (attempt_count retries - 1)) as [o|] eqn:Hn.
  2:{ apply nth_error_None in Hn. lia. }
  assert (Hl : List.last (map (fun o => Some (exit_of o)) outs) None
               = Some (exit_of o)).
  { apply last_nth_error. rewrite length_map, Hlen.
    rewrite nth_error_map, Hn. reflexivity. }
  rewrite Hl.
  eexists; eexists; exists (exit_of o).
  repeat split; try reflexivity.
  - now apply Hlast.
  - intros Hto. specialize (Hlast o eq_refl). rewrite Hto in Hlast.
    simpl in Hlast. now injection Hlast.
Qed.

Lemma ping_host_all_failed_witness :
  exists m log' rc,
    ping_host all_attempts_fail "h" 3 1000 [] = (Ok m, log') /\
    getitem m "reachable" = Ok (VBool false) /\
    getitem m "latency_ms" = Ok VNone /\
    getitem m "successes" = Ok (VInt 0) /\
    getitem m "raw_exit" = Ok (VInt rc) /\
    Some 124%Z = Some rc /\
    (@TimeoutExpired = TimeoutExpired -> rc = 124%Z).
Proof.
  apply (ping_host_all_failed all_attempts_fail "h" 3 1000 []).
  intros i Hi. change (attempt_count 3) with 3%nat in Hi.
  destruct i as [|[|[|i]]]; simpl; try reflexivity. lia.
Defined.

(** ** Claims about process-launch failure *)

(** C2 as stated fails: when the process cannot be started, [ping_once]
    raises instead of returning a failed attempt, and a scan stops at that
    host: the third host is never probed and nothing is returned to be
    stored. *)
Lemma launch_failure_is_not_a_failed_attempt :
  ping_once no_ping_command "h" 1000 [] = (Raise OSError, [("h", 1000%Z)]) /\
  (forall lat rc,
      fst (ping_once no_ping_command "h" 1000 []) <> Ok (false, lat, rc)) /\
  cmd_scan launch_fails_on_second_host ["a"; "b"; "c"] [] 1 1000 []
  = (Raise OSError, [("a", 1000%Z); ("b", 1000%Z)]).
Proof.
  split; [reflexivity|]. split; [|reflexivity].
  intros lat rc. discriminate.
Qed.

(** C2 (amended): when launching the external ping process fails,
    [ping_once] raises; the exception passes through [ping_host] and
    [cmd_scan], so the scan ends at that host without probing the hosts
    after it. *)
Theorem launch_failure_propagates
  (w : world) (host : string) (t : Z) (log : list call) :
  run w (List.length log) host t = LaunchError ->
  ping_once w host t log = (Raise OSError, log ++ [(host, t)]) /\
  (forall retries,
      ping_host w host retries t log = (Raise OSError, log ++ [(host, t)])) /\
  (forall rest results retries,
      cmd_scan w (host :: rest) results retries t log
      = (Raise OSError, log ++ [(host, t)])).
Proof.
  intros Hrun. split; [|split].
  - unfold ping_once. now rewrite Hrun.
  - intros retries. now apply ping_host_raises.
  - intros rest results retries.
    unfold cmd_scan, io_bind. cbn [scan_loop]. unfold io_bind at 1.
    now rewrite (ping_host_raises w host t retries log Hrun).
Qed.

Lemma launch_failure_propagates_witness :
  ping_once no_ping_command "h" 1000 [] = (Raise OSError, [] ++ [("h", 1000%Z)]) /\
  (forall retries,
      ping_host no_ping_command "h" retries 1000 []
      = (Raise OSError, [] ++ [("h", 1000%Z)])) /\
  (forall rest results retries,
      cmd_scan no_ping_command ("h" :: rest) results retries 1000 []
      = (Raise OSError, [] ++ [("h", 1000%Z)])).
Proof.
  apply (launch_failure_propagates no_ping_command "h" 1000 []).
  reflexivity.
Defined.

(** ** The order of strings *)

Section StringOrder.

Lemma ascii_compare_lt_trans (a b c : ascii) :
  Ascii.compare a b = Lt -> Ascii.compare b c = Lt -> Ascii.compare a c = Lt.
Proof.
  unfold Ascii.compare. rewrite !N.compare_lt_iff. apply N.lt_trans.
Qed.

Lemma ascii_compare_refl (a : ascii) : Ascii.compare a a = Eq.
Proof. unfold Ascii.compare. apply N.compare_refl. Qed.

Lemma string_compare_refl (s : string) : String.compare s s = Eq.
Proof.
  induction s as [|c s IH]; simpl; [reflexivity|].
  now rewrite ascii_compare_refl.
Qed.

Lemma string_compare_lt_trans :
  forall a b c,
    String.compare a b = Lt -> String.compare b c = Lt ->
    String.compare a c = Lt.
Proof.
  induction a as [|x a IH]; intros [|y b] [|z c]; simpl; try discriminate;
    auto.
  destruct (Ascii.compare x y) eqn:Hxy; try discriminate;
    destruct (Ascii.compare y z) eqn:Hyz; try discriminate; intros H1 H2.
  - apply Ascii.compare_eq_iff in Hxy, Hyz. subst.
    rewrite ascii_compare_refl. eauto.
  - apply Ascii.compare_eq_iff in Hxy. subst. now rewrite Hyz.
  - apply Ascii.compare_eq_iff in Hyz. subst. now rewrite Hxy.
  - now rewrite (ascii_compare_lt_trans _ _ _ Hxy Hyz).
Qed.

Lemma ltb_compare (a b : string) : (a <? b) = true <-> String.compare a b = Lt.
Proof.
  unfold String.ltb. destruct (String.compare a b); split; congruence.
Qed.

Lemma ltb_irrefl (a : string) : (a <? a) = false.
Proof. unfold String.ltb. now rewrite string_compare_refl. Qed.

Lemma ltb_trans (a b c : string) :
  (a <? b) = true -> (b <? c) = true -> (a <? c) = true.
Proof. rewrite !ltb_compare. apply string_compare_lt_trans. Qed.

(** The order is total: two strings neither of which is below the other
    are the same string. *)
Lemma ltb_total (a b : string) :
  (a <? b) = true \/ a = b \/ (b <? a) = true.
Proof.
  rewrite !ltb_compare, (String.compare_antisym b a).
  destruct (String.compare a b) eqn:H; auto.
  right; left. now apply String.compare_eq_iff.
Qed.

Lemma ltb_asym (a b : string) : (a <? b) = true -> (b <? a) = false.
Proof.
  intros H. destruct (b <? a) eqn:H'; [|reflexivity].
  pose proof (ltb_trans _ _ _ H H') as Habs.
  now rewrite ltb_irrefl in Habs.
Qed.

Lemma le_lt_trans (a b c : string) :
  (b <? a) = false -> (b <? c) = true -> (a <? c) = true.
Proof.
  intros Hab Hbc. destruct (ltb_total a b) as [H|[H|H]].
  - eapply ltb_trans; eauto.
  - now subst.
  - congruence.
Qed.

Lemma ltb_neg_trans (a b c : string) :
  (a <? b) = false -> (b <? c) = false -> (a <? c) = false.
Proof.
  intros Hab Hbc. destruct (a <? c) eqn:Hac; [|reflexivity].
  destruct (ltb_total b a) as [H|[H|H]].
  - pose proof (ltb_trans _ _ _ H Hac). congruence.
  - subst. congruence.
  - congruence.
Qed.

End StringOrder.

(** ** The latest-per-host reduction *)

Section Latest.

Lemma measurement_host (r : row) :
  is_measurement r = true -> getitem r "host" = Ok (VStr (host_of r)).
Proof.
  unfold is_measurement, getitem, host_of, get, get_default.
  destruct (dict_find String.eqb r "host") as [[| | | |h]|];
    try discriminate. reflexivity.
Qed.

Lemma measurement_ts (r : row) :
  is_measurement r = true ->
  py_or (get r "timestamp") (VStr "") = VStr (timestamp_of r).
Proof.
  unfold is_measurement, timestamp_of, get, get_default, py_or.
  destruct (dict_find String.eqb r "host") as [[| | | |h]|];
    try discriminate.
  destruct (dict_find String.eqb r "timestamp") as [[| | | |ts]|];
    try discriminate; [|reflexivity].
  intros _. simpl. destruct ts; reflexivity.
Qed.

Lemma measurement_stored_ts (r : row) :
  is_measurement r = true ->
  get_default r "timestamp" (VStr "") = VStr (timestamp_of r).
Proof.
  unfold is_measurement, timestamp_of, get, get_default.
  destruct (dict_find String.eqb r "host") as [[| | | |h]|];
    try discriminate.
  destruct (dict_find String.eqb r "timestamp") as [[| | | |ts]|];
    try discriminate; reflexivity.
Qed.

Lemma dict_find_keyed (rows : list row) (h : string) :
  dict_find py_eq (keyed rows) (VStr h) = find_host rows h.
Proof.
  unfold find_host. induction rows as [|x rows IH]; simpl; [reflexivity|].
  now rewrite IH.
Qed.

Lemma dict_set_keyed (rows : list row) (r : row) :
  dict_set py_eq (keyed rows) (VStr (host_of r)) r = keyed (upsert rows r).
Proof.
  induction rows as [|x rows IH]; simpl; [reflexivity|].
  destruct (host_of x =? host_of r) eqn:E; simpl.
  - apply String.eqb_eq in E. now rewrite E.
  - now rewrite IH.
Qed.

Lemma dict_values_keyed (rows : list row) : dict_values (keyed rows) = rows.
Proof.
  unfold dict_values, keyed. rewrite map_map. apply map_id.
Qed.

Lemma find_host_none (rows : list row) (h : string) :
  find_host rows h = None <-> ~ In h (map host_of rows).
Proof.
  unfold find_host. induction rows as [|x rows IH]; simpl.
  - split; auto.
  - destruct (host_of x =? h) eqn:E.
    + apply String.eqb_eq in E. split; [discriminate|]. intros H.
      contradiction H. auto.
    + apply String.eqb_neq in E. rewrite IH. tauto.
Qed.

Lemma find_host_some (rows : list row) (h : string) (cur : row) :
  find_host rows h = Some cur -> In cur rows /\ host_of cur = h.
Proof.
  unfold find_host. intros H. apply find_some in H.
  destruct H as [Hin E]. now apply String.eqb_eq in E.
Qed.

Lemma upsert_new (rows : list row) (r : row) :
  ~ In (host_of r) (map host_of rows) -> upsert rows r = rows ++ [r].
Proof.
  induction rows as [|x rows IH]; simpl; intros H; [reflexivity|].
  destruct (host_of x =? host_of r) eqn:E.
  - apply String.eqb_eq in E. tauto.
  - rewrite IH; tauto.
Qed.

Lemma upsert_hosts (rows : list row) (r : row) :
  In (host_of r) (map host_of rows) ->
  map host_of (upsert rows r) = map host_of rows.
Proof.
  induction rows as [|x rows IH]; simpl; intros H; [contradiction|].
  destruct (host_of x =? host_of r) eqn:E; simpl.
  - apply String.eqb_eq in E. now rewrite E.
  - apply String.eqb_neq in E. rewrite IH; [reflexivity|].
    destruct H; [contradiction|assumption].
Qed.

Lemma upsert_in (rows : list row) (r x : row) :
  NoDup (map host_of rows) ->
  In x (upsert rows r) ->
  x = r \/ (In x rows /\ host_of x <> host_of r).
Proof.
  induction rows as [|y rows IH]; simpl; intros Hnd.
  - intros [<-|[]]. auto.
  - inversion Hnd as [|h hs Hy Hnd']; subst.
    destruct (host_of y =? host_of r) eqn:E; simpl.
    + apply String.eqb_eq in E. intros [<-|H]; auto. right. split; auto.
      intros Hx. apply Hy. rewrite E, <- Hx. now apply in_map.
    + apply String.eqb_neq in E. intros [<-|H]; auto.
      destruct (IH Hnd' H) as [->|[H1 H2]]; auto.
Qed.

Lemma first_latest_greatest (done : list row) (cur y : row) :
  first_latest done cur -> In y done -> host_of y = host_of cur ->
  (timestamp_of cur <? timestamp_of y) = false.
Proof.
  intros [before [after [-> [Hb Ha]]]] Hy Hh.
  apply in_app_or in Hy. destruct Hy as [Hy|[<-|Hy]].
  - apply ltb_asym. now apply Hb.
  - apply ltb_irrefl.
  - now apply Ha.
Qed.

Lemma first_latest_later (done : list row) (r x : row) :
  first_latest done r ->
  (host_of x = host_of r -> (timestamp_of r <? timestamp_of x) = false) ->
  first_latest (done ++ [x]) r.
Proof.
  intros [before [after [-> [Hb Ha]]]] Hx.
  exists before, (after ++ [x]). split; [now rewrite <- app_assoc|].
  split; [exact Hb|].
  intros y Hy Hh. apply in_app_or in Hy. destruct Hy as [Hy|[<-|[]]]; auto.
Qed.

Lemma first_latest_new (done : list row) (x : row) :
  (forall y, In y done -> host_of y = host_of x ->
             (timestamp_of y <? timestamp_of x) = true) ->
  first_latest (done ++ [x]) x.
Proof.
  intros H. exists done, []. split; [reflexivity|]. split; [exact H|].
  intros y [].
Qed.

Lemma inv_upsert (done rows : list row) (x : row) :
  latest_inv done rows -> is_measurement x = true ->
  (forall y, In y done -> host_of y = host_of x ->
             (timestamp_of y <? timestamp_of x) = true) ->
  latest_inv (done ++ [x]) (upsert rows x).
Proof.
  intros [Hnd [Hrows Hdone]] Hm Hx.
  assert (Hhosts : forall h, In h (map host_of rows) \/ h = host_of x <->
                             In h (map host_of (upsert rows x))).
  { destruct (in_dec string_dec (host_of x) (map host_of rows)) as [Hin|Hnin].
    - rewrite (upsert_hosts _ _ Hin). intros h.
      split; [intros [H| ->]; auto | auto].
    - rewrite (upsert_new _ _ Hnin), map_app. simpl. intros h.
      rewrite in_app_iff. simpl. split; [intros [H| ->]; auto|].
      intros [H|[<-|[]]]; auto. }
  split; [|split].
  - destruct (in_dec string_dec (host_of x) (map host_of rows)) as [Hin|Hnin].
    + now rewrite (upsert_hosts _ _ Hin).
    + rewrite (upsert_new _ _ Hnin), map_app. simpl.
      apply NoDup_app; [exact Hnd|repeat constructor; auto| ].
      intros h Hh [<-|[]]. contradiction.
  - intros r Hr. destruct (upsert_in _ _ _ Hnd Hr) as [->|[Hin Hne]].
    + split; [exact Hm|]. now apply first_latest_new.
    + destruct (Hrows r Hin) as [Hmr Hfl]. split; [exact Hmr|].
      apply first_latest_later; [exact Hfl|]. intros E. congruence.
  - intros y Hy. apply Hhosts. apply in_app_or in Hy.
    destruct Hy as [Hy|[<-|[]]]; auto.
Qed.

Lemma NoDup_map_inj {A B : Type} (f : A -> B) (l : list A) (a b : A) :
  NoDup (map f l) -> In a l -> In b l -> f a = f b -> a = b.
Proof.
  induction l as [|x l IH]; simpl; intros Hnd Ha Hb E; [contradiction|].
  inversion Hnd as [|y ys Hx Hnd']; subst.
  destruct Ha as [<-|Ha], Hb as [<-|Hb]; auto.
  - contradiction Hx. rewrite E. now apply in_map.
  - contradiction Hx. rewrite <- E. now apply in_map.
Qed.

Lemma inv_keep (done rows : list row) (x cur : row) :
  latest_inv done rows ->
  find_host rows (host_of x) = Some cur ->
  (timestamp_of cur <? timestamp_of x) = false ->
  latest_inv (done ++ [x]) rows.
Proof.
  intros [Hnd [Hrows Hdone]] Hf Hlt.
  destruct (find_host_some _ _ _ Hf) as [Hcur Hh].
  split; [exact Hnd|split].
  - intros r Hr. destruct (Hrows r Hr) as [Hmr Hfl]. split; [exact Hmr|].
    apply first_latest_later; [exact Hfl|]. intros E.
    assert (r = cur) by (apply (NoDup_map_inj host_of rows); congruence).
    now subst.
  - intros y Hy. apply in_app_or in Hy. destruct Hy as [Hy|[<-|[]]]; auto.
    rewrite <- Hh. now apply in_map.
Qed.

Lemma latest_loop_inv :
  forall todo done rows,
    Forall (fun r => is_measurement r = true) todo ->
    latest_inv done rows ->
    exists rows',
      latest_loop todo (keyed rows) = Ok (keyed rows') /\
      latest_inv (done ++ todo) rows'.
Proof.
  induction todo as [|x todo IH]; intros done rows Hall Hinv.
  - exists rows. rewrite app_nil_r. auto.
  - inversion Hall as [|x' todo' Hm Hrest]; subst.
    replace (done ++ x :: todo) with ((done ++ [x]) ++ todo)
      by now rewrite <- app_assoc.
    cbn [latest_loop]. rewrite (measurement_host x Hm). cbn [bind].
    rewrite (measurement_ts x Hm), dict_find_keyed.
    destruct (find_host rows (host_of x)) as [cur|] eqn:Hf.
    + destruct (find_host_some _ _ _ Hf) as [Hcur Hh].
      destruct Hinv as [Hnd [Hrows Hdone]].
      destruct (Hrows cur Hcur) as [Hmc Hfl].
      rewrite (measurement_stored_ts cur Hmc).
      unfold py_gt, py_lt. cbn [bind].
      destruct (timestamp_of cur <? timestamp_of x) eqn:Hlt.
      * rewrite dict_set_keyed. apply IH; [exact Hrest|].
        apply inv_upsert; [exact (conj Hnd (conj Hrows Hdone))|exact Hm|].
        intros y Hy E. apply (le_lt_trans _ (timestamp_of cur)); [|exact Hlt].
        apply (first_latest_greatest done); auto. congruence.
      * apply IH; [exact Hrest|].
        apply (inv_keep done rows x cur); auto.
        exact (conj Hnd (conj Hrows Hdone)).
    + rewrite dict_set_keyed. apply IH; [exact Hrest|].
      apply inv_upsert; [exact Hinv|exact Hm|].
      intros y Hy E. apply find_host_none in Hf. contradiction Hf.
      rewrite <- E. now apply Hinv.
Qed.

(** The reduction returns, and what it returns satisfies the loop's
    invariant for the whole history. *)
Lemma latest_per_host_inv (history : list row) :
  Forall (fun r => is_measurement r = true) history ->
  exists rows,
    latest_per_host history = Ok rows /\ latest_inv history rows.
Proof.
  intros Hall.
  destruct (latest_loop_inv history [] [] Hall) as [rows [Hloop Hinv]].
  { split; [constructor|split]; intros ? []. }
  exists rows. unfold latest_per_host.
  change (@nil (value * row)) with (keyed []).
  rewrite Hloop. cbn [bind]. now rewrite dict_values_keyed.
Qed.

Lemma split_compare {A : Type} :
  forall (l1 l1' l2 l2' : list A) (r r' : A),
    l1 ++ r :: l2 = l1' ++ r' :: l2' ->
    (l1 = l1' /\ r = r' /\ l2 = l2') \/
    (In r l1' /\ In r' l2) \/ (In r' l1 /\ In r l2').
Proof.
  induction l1 as [|a l1 IH]; intros [|a' l1'] l2 l2' r r' H; simpl in H.
  - injection H as -> ->. auto.
  - injection H as -> ->. right; left. split; [now left|].
    apply in_or_app. right. now left.
  - injection H as <- <-. right; right. split; [now left|].
    apply in_or_app. right. now left.
  - injection H as <- H. destruct (IH _ _ _ _ _ H) as [[-> [-> ->]]|[[H1 H2]|[H1 H2]]].
    + auto.
    + right; left. split; [now right|assumption].
    + right; right. split; [now right|assumption].
Qed.

(** A host has at most one first latest record. *)
Lemma first_latest_unique (history : list row) (r r' : row) :
  first_latest history r -> first_latest history r' ->
  host_of r = host_of r' -> r = r'.
Proof.
  intros [b [a [-> [Hb Ha]]]] [b' [a' [E [Hb' Ha']]]] Hh.
  destruct (split_compare _ _ _ _ _ _ E) as [[_ [H _]]|[[H1 H2]|[H1 H2]]].
  - exact H.
  - pose proof (Hb' r H1 Hh) as Hlt.
    rewrite (Ha r' H2 (eq_sym Hh)) in Hlt. discriminate.
  - pose proof (Hb r' H1 (eq_sym Hh)) as Hlt.
    rewrite (Ha' r H2 Hh) in Hlt. discriminate.
Qed.

Lemma first_latest_in (history : list row) (r : row) :
  first_latest history r -> In r history.
Proof.
  intros [b [a [-> _]]]. apply in_or_app. right. now left.
Qed.

(** The records the reduction keeps are exactly the first latest records
    of the hosts. *)
Lemma latest_per_host_characterised (history : list row) :
  Forall (fun r => is_measurement r = true) history ->
  exists rows,
    latest_per_host history = Ok rows /\
    NoDup (map host_of rows) /\
    forall r, In r rows <-> first_latest history r.
Proof.
  intros Hall.
  destruct (latest_per_host_inv history Hall) as [rows [Heq [Hnd [Hrows Hhist]]]].
  exists rows. split; [exact Heq|]. split; [exact Hnd|].
  intros r. split; [apply Hrows|]. intros Hfl.
  pose proof (Hhist r (first_latest_in _ _ Hfl)) as Hh.
  apply in_map_iff in Hh. destruct Hh as [r' [Hh Hr']].
  destruct (Hrows r' Hr') as [_ Hfl'].
  now rewrite <- (first_latest_unique history r' r Hfl' Hfl Hh).
Qed.

Lemma ltb_false_leb (a b : string) : (a <? b) = false -> (b <=? a) = true.
Proof.
  unfold String.ltb, String.leb. rewrite (String.compare_antisym a b).
  now destruct (String.compare b a).
Qed.

End Latest.

(** ** Claims about the latest-per-host reduction *)

(** C1 as stated fails: of two measurements of one host with the same
    timestamp, the reduction keeps the one it met first. *)
Lemma equal_timestamps_keep_first :
  host_of tie_first = host_of tie_second /\
  timestamp_of tie_first = timestamp_of tie_second /\
  tie_second <> tie_first /\
  latest_per_host [tie_first; tie_second] = Ok [tie_first] /\
  export_rows true [tie_first; tie_second] = Ok [tie_first] /\
  report_rows [tie_first; tie_second] = Ok [tie_first].
Proof.
  repeat split; try reflexivity. discriminate.
Qed.

(** C1 (amended): when two measurements of the same host carry equal
    timestamp strings, that timestamp being the host's greatest, the one
    encountered first in iteration order is the one kept: a record replaces
    the stored one only when its timestamp is strictly greater. *)
Theorem latest_per_host_first_wins
  (before middle after : list row) (r1 r2 : row) :
  Forall (fun r => is_measurement r = true)
         (before ++ r1 :: middle ++ r2 :: after) ->
  host_of r1 = host_of r2 ->
  timestamp_of r1 = timestamp_of r2 ->
  (forall x, In x before -> host_of x = host_of r1 ->
             (timestamp_of x <? timestamp_of r1) = true) ->
  (forall x, In x (middle ++ after) -> host_of x = host_of r1 ->
             (timestamp_of r1 <? timestamp_of x) = false) ->
  exists rows,
    latest_per_host (before ++ r1 :: middle ++ r2 :: after) = Ok rows /\
    In r1 rows /\
    forall r, In r rows -> host_of r = host_of r1 -> r = r1.
Proof.
  intros Hall Hh Hts Hb Ha.
  destruct (latest_per_host_characterised _ Hall) as [rows [Heq [Hnd Hchar]]].
  assert (Hfl : first_latest (before ++ r1 :: middle ++ r2 :: after) r1).
  { exists before, (middle ++ r2 :: after). split; [reflexivity|].
    split; [exact Hb|]. intros x Hx E.
    apply in_app_or in Hx. destruct Hx as [Hx|[<-|Hx]].
    - apply Ha; [apply in_or_app; now left|exact E].
    - rewrite Hts. apply ltb_irrefl.
    - apply Ha; [apply in_or_app; now right|exact E]. }
  exists rows. split; [exact Heq|]. split; [now apply Hchar|].
  intros r Hr E.
  apply (first_latest_unique (before ++ r1 :: middle ++ r2 :: after) r r1);
    auto. now apply Hchar.
Qed.

Lemma latest_per_host_first_wins_witness :
  exists rows,
    latest_per_host ([] ++ tie_first :: [] ++ tie_second :: []) = Ok rows /\
    In tie_first rows /\
    forall r, In r rows -> host_of r = host_of tie_first -> r = tie_first.
Proof.
  apply (latest_per_host_first_wins [] [] [] tie_first tie_second).
  - repeat constructor.
  - reflexivity.
  - reflexivity.
  - intros x [].
  - intros x [].
Defined.

(** The example of the specification: from the history
    [A@10, B@5, A@20] the reduction keeps [A@20] and [B@5]. *)
Lemma latest_per_host_example :
  latest_per_host example_history = Ok [at_time "A" "20"; at_time "B" "5"].
Proof. reflexivity. Qed.

(** C3: for every history of measurements the reduction returns exactly
    one record per distinct host of the history, a record of the history
    whose timestamp string is the lexicographically greatest of that
    host. *)
Theorem latest_per_host_greatest (history : list row) :
  Forall (fun r => is_measurement r = true) history ->
  exists rows,
    latest_per_host history = Ok rows /\
    NoDup (map host_of rows) /\
    (forall h, In h (map host_of rows) <-> In h (map host_of history)) /\
    forall r, In r rows ->
      In r history /\
      forall x, In x history -> host_of x = host_of r ->
                (timestamp_of x <=? timestamp_of r) = true.
Proof.
  intros Hall.
  destruct (latest_per_host_inv history Hall) as [rows [Heq [Hnd [Hrows Hhist]]]].
  exists rows. split; [exact Heq|]. split; [exact Hnd|]. split.
  - intros h. split.
    + intros Hh. apply in_map_iff in Hh. destruct Hh as [r [<- Hr]].
      apply in_map. apply first_latest_in. now apply Hrows.
    + intros Hh. apply in_map_iff in Hh. destruct Hh as [x [<- Hx]].
      now apply Hhist.
  - intros r Hr. destruct (Hrows r Hr) as [_ Hfl].
    split; [now apply first_latest_in|].
    intros x Hx E. apply ltb_false_leb.
    now apply (first_latest_greatest history).
Qed.

Lemma latest_per_host_greatest_witness :
  exists rows,
    latest_per_host example_history = Ok rows /\
    NoDup (map host_of rows) /\
    (forall h, In h (map host_of rows) <-> In h (map host_of example_history)) /\
    forall r, In r rows ->
      In r example_history /\
      forall x, In x example_history -> host_of x = host_of r ->
                (timestamp_of x <=? timestamp_of r) = true.
Proof.
  apply (latest_per_host_greatest example_history).
  repeat constructor.
Defined.

(** ** Insertion sort *)

Section SortFacts.

Context {A : Type}.
Variable lt : A -> A -> result bool.
Variable ltb : A -> A -> bool.
Variable P : A -> Prop.

Hypothesis lt_ok : forall a b, P a -> P b -> lt a b = Ok (ltb a b).
Hypothesis ltb_asymmetric :
  forall a b, P a -> P b -> ltb a b = true -> ltb b a = false.
Hypothesis ltb_negatively_transitive :
  forall a b c, P a -> P b -> P c ->
                ltb a b = false -> ltb b c = false -> ltb a c = false.

Local Abbreviation le := (fun a b : A => ltb b a = false).

Lemma insert_sorted (x : A) :
  forall l,
    P x -> Forall P l -> StronglySorted le l ->
    exists l',
      insert lt x l = Ok l' /\ Permutation (x :: l) l' /\
      Forall P l' /\ StronglySorted le l'.
Proof.
  induction l as [|y l IH]; intros Hx Hl Hs.
  - exists [x]. repeat split; auto; repeat constructor; auto.
  - inversion Hl as [|y' l' Hy Hl']; subst.
    inversion Hs as [|y' l' Hs' Hle]; subst.
    cbn [insert]. rewrite (lt_ok x y Hx Hy). cbn [bind].
    destruct (ltb x y) eqn:Hxy.
    + exists (x :: y :: l). repeat split; auto.
      constructor; [exact Hs|]. constructor.
      * apply ltb_asymmetric; auto.
      * rewrite Forall_forall in Hle, Hl' |- *. intros z Hz.
        apply (ltb_negatively_transitive z y x);
          [now apply Hl'|exact Hy|exact Hx|now apply Hle|].
        apply ltb_asymmetric; auto.
    + destruct (IH Hx Hl' Hs') as [l'' [Heq [Hperm [HP Hsorted]]]].
      rewrite Heq. cbn [bind]. exists (y :: l''). repeat split; auto.
      * rewrite perm_swap. now constructor.
      * constructor; [exact Hsorted|].
        apply (Permutation_Forall Hperm). now constructor.
Qed.

Lemma sort_into_sorted :
  forall l acc,
    Forall P l -> Forall P acc -> StronglySorted le acc ->
    exists out,
      sort_into lt acc l = Ok out /\ Permutation (acc ++ l) out /\
      Forall P out /\ StronglySorted le out.
Proof.
  induction l as [|x l IH]; intros acc Hl Hacc Hs.
  - exists acc. rewrite app_nil_r. auto.
  - inversion Hl as [|x' l' Hx Hl']; subst.
    destruct (insert_sorted x acc Hx Hacc Hs) as [acc' [Heq [Hperm [HP Hs']]]].
    cbn [sort_into]. rewrite Heq. cbn [bind].
    destruct (IH acc' Hl' HP Hs') as [out [Heq' [Hperm' [HP' Hs'']]]].
    exists out. repeat split; auto.
    rewrite <- Hperm'. rewrite <- Hperm.
    symmetry. apply Permutation_middle.
Qed.

Lemma py_sort_sorted (l : list A) :
  Forall P l ->
  exists out,
    py_sort lt l = Ok out /\ Permutation l out /\
    Forall P out /\ StronglySorted le out.
Proof.
  intros Hl. apply (sort_into_sorted l []); auto. constructor.
Qed.

End SortFacts.

(** ** The order of the report *)

Section ReportOrder.

Import FloatOrder.

Lemma report_row_fields (r : row) :
  is_report_row r = true ->
  exists b,
    dict_find String.eqb r "reachable" = Some (VBool b) /\
    (dict_find String.eqb r "latency_ms" = Some VNone \/
     exists f, dict_find String.eqb r "latency_ms" = Some (VFloat f) /\
               PyFloat.is_nan f = false) /\
    dict_find String.eqb r "host" = Some (VStr (host_of r)).
Proof.
  unfold is_report_row, host_of, get, get_default.
  destruct (dict_find String.eqb r "reachable") as [[|b| | |]|];
    try discriminate.
  destruct (dict_find String.eqb r "latency_ms") as [[| | |f|]|];
    try discriminate;
    destruct (dict_find String.eqb r "host") as [[| | | |h]|];
    try discriminate; intros H; exists b; repeat split; auto.
  right. exists f. split; [reflexivity|]. now apply negb_true_iff.
Qed.

Lemma big_is_number : PyFloat.is_nan PyFloat.big = false.
Proof. reflexivity. Qed.

Lemma latency_key_number (r : row) :
  is_report_row r = true -> PyFloat.is_nan (latency_key r) = false.
Proof.
  intros H. destruct (report_row_fields r H) as [b [_ [[Hl|[f [Hl Hf]]] _]]];
    unfold latency_key, get, get_default; rewrite Hl; auto.
Qed.

Lemma report_key_ok (r : row) :
  is_report_row r = true -> report_key r = Ok (key_of r).
Proof.
  intros H. destruct (report_row_fields r H) as [b [Hb [Hl Hh]]].
  unfold report_key, key_of, getitem, unreachable, latency_key, get,
    get_default.
  rewrite Hb, Hh.
  destruct Hl as [Hl|[f [Hl _]]]; rewrite Hl; reflexivity.
Qed.

Lemma decorate_ok (rows : list row) :
  Forall (fun r => is_report_row r = true) rows ->
  decorate rows = Ok (map (fun r => (key_of r, r)) rows).
Proof.
  induction 1 as [|r rows Hr Hrows IH]; [reflexivity|].
  cbn [decorate map]. now rewrite (report_key_ok r Hr), IH.
Qed.

Lemma tuple_lt_key (r1 r2 : row) :
  tuple_lt (key_of r1) (key_of r2) = Ok (report_ltb r1 r2).
Proof.
  unfold key_of, report_ltb.
  destruct (unreachable r1), (unreachable r2); try reflexivity;
    cbn [tuple_lt py_eq num_compare Z.compare Bool.eqb];
    change (match SFcompare (latency_key r1) (latency_key r2) with
            | Some Eq => true
            | _ => false
            end) with (SFeqb (latency_key r1) (latency_key r2));
    (destruct (SFeqb (latency_key r1) (latency_key r2)) eqn:He;
     [ destruct (host_of r1 =? host_of r2) eqn:Hh;
       [ apply String.eqb_eq in Hh; rewrite Hh, ltb_irrefl; reflexivity
       | reflexivity ]
     | unfold py_lt, num_compare, SFltb;
       now destruct (SFcompare (latency_key r1) (latency_key r2)) as [[| |]|] ]).
Qed.

Lemma float_rank_defined (f : spec_float) :
  PyFloat.is_nan f = false -> rank f = Some (float_rank f).
Proof.
  intros H. unfold float_rank. destruct (rank_defined f H) as [r ->].
  reflexivity.
Qed.

Lemma report_ltb_key_lt (r1 r2 : row) :
  is_report_row r1 = true -> is_report_row r2 = true ->
  (report_ltb r1 r2 = true <-> key_lt r1 r2).
Proof.
  intros H1 H2.
  pose proof (float_rank_defined _ (latency_key_number r1 H1)) as R1.
  pose proof (float_rank_defined _ (latency_key_number r2 H2)) as R2.
  pose proof (SFltb_rank _ _ _ _ R1 R2) as Hlt.
  pose proof (SFeqb_rank _ _ _ _ R1 R2) as Heq.
  pose proof (lex_total (float_rank (latency_key r1))
                (float_rank (latency_key r2))) as Htot.
  unfold report_ltb, key_lt.
  destruct (float_rank (latency_key r1)) as [[a1 b1] c1].
  destruct (float_rank (latency_key r2)) as [[a2 b2] c2].
  unfold lex_lt in *.
  destruct (SFeqb (latency_key r1) (latency_key r2)).
  - assert (E : (a1, b1, c1) = (a2, b2, c2)) by now apply Heq.
    injection E as -> -> ->.
    destruct (unreachable r1), (unreachable r2), (host_of r1 <? host_of r2);
      simpl; split; intros H; try discriminate; try reflexivity; try lia.
  - assert (Hne : (a1, b1, c1) <> (a2, b2, c2))
      by (intros E; apply Heq in E; discriminate).
    destruct (SFltb (latency_key r1) (latency_key r2)).
    + assert (L : (a1 < a2 \/ a1 = a2 /\ (b1 < b2 \/ b1 = b2 /\ c1 < c2))%Z)
        by now apply Hlt.
      destruct (unreachable r1), (unreachable r2); simpl;
        split; intros H; try discriminate; try reflexivity; try lia.
    + assert (L : ~ (a1 < a2 \/ a1 = a2 /\ (b1 < b2 \/ b1 = b2 /\ c1 < c2))%Z)
        by (intros L; apply Hlt in L; discriminate).
      assert (Hne' : (a1 <> a2 \/ b1 <> b2 \/ c1 <> c2)%Z).
      { destruct (Z.eq_dec a1 a2), (Z.eq_dec b1 b2), (Z.eq_dec c1 c2);
          auto. subst. now contradiction Hne. }
      destruct (unreachable r1), (unreachable r2); simpl;
        split; intros H; try discriminate; try reflexivity; try lia.
Qed.

Lemma key_lt_asym (r1 r2 : row) : key_lt r1 r2 -> ~ key_lt r2 r1.
Proof.
  unfold key_lt.
  destruct (float_rank (latency_key r1)) as [[a1 b1] c1].
  destruct (float_rank (latency_key r2)) as [[a2 b2] c2].
  pose proof (ltb_asym (host_of r1) (host_of r2)) as Hs.
  destruct (host_of r1 <? host_of r2), (host_of r2 <? host_of r1);
    try (specialize (Hs eq_refl); discriminate);
    destruct (unreachable r1), (unreachable r2); simpl; intuition lia.
Qed.

Lemma key_lt_neg_trans (r1 r2 r3 : row) :
  ~ key_lt r1 r2 -> ~ key_lt r2 r3 -> ~ key_lt r1 r3.
Proof.
  unfold key_lt.
  destruct (float_rank (latency_key r1)) as [[a1 b1] c1].
  destruct (float_rank (latency_key r2)) as [[a2 b2] c2].
  destruct (float_rank (latency_key r3)) as [[a3 b3] c3].
  pose proof (ltb_neg_trans (host_of r1) (host_of r2) (host_of r3)) as Hs.
  destruct (host_of r1 <? host_of r2), (host_of r2 <? host_of r3),
    (host_of r1 <? host_of r3);
    try (specialize (Hs eq_refl eq_refl); discriminate);
    destruct (unreachable r1), (unreachable r2), (unreachable r3);
    simpl; intuition lia.
Qed.

End ReportOrder.

Section ReportSort.

Import FloatOrder.

Lemma report_ltb_asym (r1 r2 : row) :
  is_report_row r1 = true -> is_report_row r2 = true ->
  report_ltb r1 r2 = true -> report_ltb r2 r1 = false.
Proof.
  intros H1 H2 H. apply (report_ltb_key_lt r1 r2 H1 H2) in H.
  destruct (report_ltb r2 r1) eqn:H'; [|reflexivity].
  apply (report_ltb_key_lt r2 r1 H2 H1) in H'.
  now apply key_lt_asym in H.
Qed.

Lemma report_ltb_neg_trans (r1 r2 r3 : row) :
  is_report_row r1 = true -> is_report_row r2 = true ->
  is_report_row r3 = true ->
  report_ltb r1 r2 = false -> report_ltb r2 r3 = false ->
  report_ltb r1 r3 = false.
Proof.
  intros H1 H2 H3 H12 H23.
  destruct (report_ltb r1 r3) eqn:H13; [|reflexivity].
  apply (report_ltb_key_lt r1 r3 H1 H3) in H13.
  contradiction (key_lt_neg_trans r1 r2 r3); intros H.
  - apply (report_ltb_key_lt r1 r2 H1 H2) in H. congruence.
  - apply (report_ltb_key_lt r2 r3 H2 H3) in H. congruence.
Qed.

Lemma SFeqb_sym (x y : spec_float) : SFeqb x y = true -> SFeqb y x = true.
Proof.
  intros H.
  assert (Hx : PyFloat.is_nan x = false) by (destruct x, y; auto; discriminate).
  assert (Hy : PyFloat.is_nan y = false) by (destruct x, y; auto; discriminate).
  destruct (rank_defined x Hx) as [rx Rx].
  destruct (rank_defined y Hy) as [ry Ry].
  apply (SFeqb_rank _ _ _ _ Ry Rx). symmetry.
  now apply (SFeqb_rank _ _ _ _ Rx Ry).
Qed.

Lemma SFeqb_not_ltb (x y : spec_float) : SFeqb x y = true -> SFltb x y = false.
Proof.
  unfold SFeqb, SFltb. now destruct (SFcompare x y) as [[| |]|].
Qed.

Lemma SFltb_asym (x y : spec_float) : SFltb x y = true -> SFltb y x = false.
Proof.
  intros H. destruct (SFltb y x) eqn:H'; [|reflexivity].
  pose proof (SFltb_trans _ _ _ H H') as Habs.
  now rewrite SFltb_irrefl in Habs.
Qed.

Lemma SFltb_total (x y : spec_float) :
  PyFloat.is_nan x = false -> PyFloat.is_nan y = false ->
  SFltb x y = false -> SFeqb x y = false -> SFltb y x = true.
Proof.
  intros Hx Hy Hlt Heq.
  pose proof (SFltb_false_leb x y Hx Hy Hlt) as Hle.
  rewrite SFleb_alt in Hle. apply orb_true_iff in Hle.
  destruct Hle as [H|H]; [exact H|].
  apply SFeqb_sym in H. congruence.
Qed.

(** In a sorted report, [r2] standing after [r1] means [r1] may stand
    before [r2]. *)
Lemma not_ltb_before (r1 r2 : row) :
  is_report_row r1 = true -> is_report_row r2 = true ->
  report_ltb r2 r1 = false -> report_before r1 r2.
Proof.
  intros H1 H2. unfold report_ltb, report_before.
  pose proof (latency_key_number r1 H1) as N1.
  pose proof (latency_key_number r2 H2) as N2.
  destruct (unreachable r1), (unreachable r2); simpl; try discriminate; auto;
    (destruct (SFeqb (latency_key r2) (latency_key r1)) eqn:He; intros H;
     [ right; split; [reflexivity|]; right;
       split; [now apply SFeqb_sym|now apply ltb_false_leb]
     | right; split; [reflexivity|]; left; now apply SFltb_total ]).
Qed.

Lemma report_before_total (r1 r2 : row) :
  is_report_row r1 = true -> is_report_row r2 = true ->
  report_before r1 r2 \/ report_before r2 r1.
Proof.
  intros H1 H2. destruct (report_ltb r2 r1) eqn:H.
  - right. apply not_ltb_before; auto. now apply report_ltb_asym.
  - left. now apply not_ltb_before.
Qed.

Lemma report_before_antisym (r1 r2 : row) :
  report_before r1 r2 -> report_before r2 r1 -> host_of r1 = host_of r2.
Proof.
  intros [[A1 A2]|[A [L|[E S]]]] [[B1 B2]|[B [L'|[E' S']]]];
    try congruence.
  - apply SFltb_asym in L. congruence.
  - apply SFeqb_sym, SFeqb_not_ltb in E'. congruence.
  - apply SFeqb_sym, SFeqb_not_ltb in E. congruence.
  - now apply String.leb_antisym.
Qed.

Lemma StronglySorted_map {A B : Type} (f : A -> B) (R : A -> A -> Prop)
  (R' : B -> B -> Prop) (P : A -> Prop) (l : list A) :
  (forall a b, P a -> P b -> R a b -> R' (f a) (f b)) ->
  Forall P l -> StronglySorted R l -> StronglySorted R' (map f l).
Proof.
  intros HR HP Hs. induction Hs as [|a l Hs IH Hall]; simpl; constructor.
  - apply IH. now inversion HP.
  - inversion HP as [|a' l' Ha Hl]; subst.
    rewrite Forall_forall in Hall, Hl. apply Forall_forall.
    intros b Hb. apply in_map_iff in Hb. destruct Hb as [x [<- Hx]].
    apply HR; auto.
Qed.

(** The report's rows come out as a permutation of the rows given,
    ordered by [report_before]. *)
Lemma report_sort_sorted (rows : list row) :
  Forall (fun r => is_report_row r = true) rows ->
  exists out,
    report_sort rows = Ok out /\ Permutation rows out /\
    StronglySorted report_before out.
Proof.
  intros Hrows. unfold report_sort. rewrite (decorate_ok rows Hrows).
  cbn [bind].
  destruct (py_sort_sorted
              (fun a b : list value * row => tuple_lt (fst a) (fst b))
              (fun a b => report_ltb (snd a) (snd b))
              (fun a => is_report_row (snd a) = true /\ fst a = key_of (snd a))
              (fun a b Ha Hb => ltac:(
                 destruct Ha as [_ ->]; destruct Hb as [_ ->];
                 apply tuple_lt_key))
              (fun a b Ha Hb =>
                 report_ltb_asym _ _ (proj1 Ha) (proj1 Hb))
              (fun a b c Ha Hb Hc =>
                 report_ltb_neg_trans _ _ _ (proj1 Ha) (proj1 Hb) (proj1 Hc))
              (map (fun r => (key_of r, r)) rows))
    as [s [Heq [Hperm [HP Hs]]]].
  { apply Forall_forall. intros a Ha. apply in_map_iff in Ha.
    destruct Ha as [r [<- Hr]]. rewrite Forall_forall in Hrows. simpl. auto. }
  rewrite Heq. cbn [bind]. exists (map snd s). split; [reflexivity|]. split.
  - apply (Permutation_map snd) in Hperm.
    rewrite map_map in Hperm. simpl in Hperm. now rewrite map_id in Hperm.
  - apply (StronglySorted_map snd _ report_before _ s
             (fun a b Ha Hb H => not_ltb_before _ _ (proj1 Ha) (proj1 Hb) H)
             HP Hs).
Qed.

End ReportSort.

(** ** Claims about the report *)

Lemma StronglySorted_pair {A : Type} (R : A -> A -> Prop)
  (l1 l2 l3 : list A) (a b : A) :
  StronglySorted R (l1 ++ a :: l2 ++ b :: l3) -> R a b.
Proof.
  induction l1 as [|x l1 IH]; simpl; intros H.
  - inversion H as [|a' l' _ Hall]; subst. rewrite Forall_forall in Hall.
    apply Hall. apply in_or_app. right. now left.
  - inversion H; subst. auto.
Qed.

(** The example of the specification: unreachable [A], reachable [B] with
    latency 5.0 and reachable [C] without latency are listed as
    [B], [C], [A]. *)
Lemma report_sort_example :
  report_sort [report_A; report_B; report_C]
  = Ok [report_B; report_C; report_A].
Proof. reflexivity. Qed.

(** C8 as stated fails: a reachable host without a latency is not always
    last among the reachable ones; it is listed before a reachable host
    whose latency is above 1e9 ms. *)
Lemma missing_latency_not_last :
  unreachable report_slow = false /\ unreachable report_C = false /\
  get report_C "latency_ms" = VNone /\
  get report_slow "latency_ms" = VFloat (PyFloat.of_Z 2000000000) /\
  report_sort [report_slow; report_C] = Ok [report_C; report_slow].
Proof. repeat split. Qed.

(** C8 (amended): the report lists a permutation of its rows in an order
    that is total and deterministic: reachable hosts before unreachable
    ones, then ascending by latency with a missing latency counted as 1e9
    (so a reachable host without a latency comes after every reachable
    host whose latency is below 1e9), then ascending by host name; two rows
    can stand in either order only when their host names are equal. *)
Theorem report_order (rows : list row) :
  Forall (fun r => is_report_row r = true) rows ->
  exists out,
    report_sort rows = Ok out /\
    Permutation rows out /\
    StronglySorted report_before out /\
    (forall r1 r2, In r1 rows -> In r2 rows ->
                   report_before r1 r2 \/ report_before r2 r1) /\
    (forall r1 r2, report_before r1 r2 -> report_before r2 r1 ->
                   host_of r1 = host_of r2) /\
    (forall l1 l2 l3 a b,
        out = l1 ++ a :: l2 ++ b :: l3 ->
        unreachable a = false -> unreachable b = false ->
        get a "latency_ms" = VNone ->
        SFltb (latency_key b) PyFloat.big = false).
Proof.
  intros Hrows.
  destruct (report_sort_sorted rows Hrows) as [out [Heq [Hperm Hs]]].
  exists out. split; [exact Heq|]. split; [exact Hperm|]. split; [exact Hs|].
  rewrite Forall_forall in Hrows. split; [|split].
  - intros r1 r2 H1 H2. apply report_before_total; auto.
  - apply report_before_antisym.
  - intros l1 l2 l3 a b -> Ha Hb Hlat.
    pose proof (StronglySorted_pair _ _ _ _ _ _ Hs) as Hab.
    assert (Hk : latency_key a = PyFloat.big)
      by (unfold latency_key; now rewrite Hlat).
    destruct Hab as [[_ Hb']|[_ [L|[E _]]]].
    + congruence.
    + rewrite Hk in L. now apply SFltb_asym.
    + rewrite Hk in E. now apply SFeqb_not_ltb, SFeqb_sym.
Qed.

Lemma report_order_witness :
  exists out,
    report_sort [report_A; report_B; report_C] = Ok out /\
    Permutation [report_A; report_B; report_C] out /\
    StronglySorted report_before out /\
    (forall r1 r2, In r1 [report_A; report_B; report_C] ->
                   In r2 [report_A; report_B; report_C] ->
                   report_before r1 r2 \/ report_before r2 r1) /\
    (forall r1 r2, report_before r1 r2 -> report_before r2 r1 ->
                   host_of r1 = host_of r2) /\
    (forall l1 l2 l3 a b,
        out = l1 ++ a :: l2 ++ b :: l3 ->
        unreachable a = false -> unreachable b = false ->
        get a "latency_ms" = VNone ->
        SFltb (latency_key b) PyFloat.big = false).
Proof.
  apply (report_order [report_A; report_B; report_C]).
  repeat constructor.
Defined.

(** ** The export header *)

Section Fieldnames.

Lemma mem_In (k : string) (l : list string) : mem k l = true <-> In k l.
Proof.
  unfold mem. rewrite existsb_exists. split.
  - intros [x [Hx E]]. apply String.eqb_eq in E. now subst.
  - intros H. exists k. split; [exact H|apply String.eqb_refl].
Qed.

Lemma set_add_In (s : list string) (k k' : string) :
  In k' (set_add s k) <-> In k' s \/ k' = k.
Proof.
  unfold set_add. destruct (mem k s) eqn:E.
  - apply mem_In in E. split; [auto|]. intros [H| ->]; auto.
  - rewrite in_app_iff. simpl. intuition auto.
Qed.

Lemma set_add_NoDup (s : list string) (k : string) :
  NoDup s -> NoDup (set_add s k).
Proof.
  intros H. unfold set_add. destruct (mem k s) eqn:E; [exact H|].
  apply NoDup_app; [exact H|repeat constructor; auto|].
  intros x Hx [<-|[]]. apply mem_In in Hx. congruence.
Qed.

Lemma set_update_spec (ks : list string) :
  forall s,
    NoDup s ->
    NoDup (set_update s ks) /\
    forall k, In k (set_update s ks) <-> In k s \/ In k ks.
Proof.
  unfold set_update.
  induction ks as [|x ks IH]; intros s Hs; simpl.
  - split; [exact Hs|]. intuition auto.
  - destruct (IH (set_add s x) (set_add_NoDup s x Hs)) as [Hnd Hin].
    split; [exact Hnd|]. intros k. rewrite Hin, set_add_In.
    intuition auto.
Qed.

Lemma extra_fields_spec (rows : list row) :
  NoDup (extra_fields rows) /\
  forall k, In k (extra_fields rows) <->
            exists r, In r rows /\ In k (dict_keys r).
Proof.
  unfold extra_fields.
  assert (H : forall s, NoDup s ->
            NoDup (fold_left (fun s r => set_update s (dict_keys r)) rows s) /\
            forall k,
              In k (fold_left (fun s r => set_update s (dict_keys r)) rows s)
              <-> In k s \/ exists r, In r rows /\ In k (dict_keys r)).
  { induction rows as [|r rows IH]; intros s Hs; simpl.
    - split; [exact Hs|]. intros k. split; [auto|].
      intros [Hk|[r [[] _]]]. exact Hk.
    - destruct (set_update_spec (dict_keys r) s Hs) as [Hnd Hin].
      destruct (IH _ Hnd) as [Hnd' Hin'].
      split; [exact Hnd'|]. intros k. rewrite Hin', Hin. split.
      + intros [[Hk|Hk]|[r' [Hr' Hk]]]; eauto.
      + intros [Hk|[r' [[<-|Hr'] Hk]]]; eauto. }
  destruct (H [] (NoDup_nil _)) as [Hnd Hin].
  split; [exact Hnd|]. intros k. rewrite Hin. split; [|auto].
  intros [[]|Hk]. exact Hk.
Qed.

(** [sorted] of distinct strings is strictly ascending. *)
Lemma sorted_strings_spec (l : list string) :
  NoDup l ->
  Permutation l (sorted_strings l) /\
  StronglySorted (fun a b => (a <? b) = true) (sorted_strings l).
Proof.
  intros Hnd. unfold sorted_strings.
  destruct (py_sort_sorted str_lt String.ltb (fun _ => True)
              (fun a b _ _ => eq_refl)
              (fun a b _ _ => ltb_asym a b)
              (fun a b c _ _ _ => ltb_neg_trans a b c)
              l) as [out [Heq [Hperm [_ Hs]]]].
  { apply Forall_forall. auto. }
  rewrite Heq. split; [exact Hperm|].
  assert (Hnd' : NoDup out) by (eapply Permutation_NoDup; eauto).
  clear - Hs Hnd'. induction Hs as [|a out Hs IH Hall]; constructor.
  - apply IH. now inversion Hnd'.
  - inversion Hnd' as [|a' out' Ha _]; subst.
    rewrite Forall_forall in Hall |- *. intros b Hb.
    destruct (ltb_total a b) as [H|[H|H]]; [exact H| |].
    + subst. contradiction.
    + rewrite (Hall b Hb) in H. discriminate.
Qed.

Lemma StronglySorted_filter {A : Type} (R : A -> A -> Prop)
  (f : A -> bool) (l : list A) :
  StronglySorted R l -> StronglySorted R (filter f l).
Proof.
  induction 1 as [|a l Hs IH Hall]; simpl; [constructor|].
  destruct (f a); [|exact IH]. constructor; [exact IH|].
  rewrite Forall_forall in Hall |- *. intros b Hb.
  apply filter_In in Hb. now apply Hall.
Qed.

Lemma strictly_sorted_NoDup (l : list string) :
  StronglySorted (fun a b => (a <? b) = true) l -> NoDup l.
Proof.
  induction 1 as [|a l Hs IH Hall]; constructor; [|exact IH].
  intros Ha. rewrite Forall_forall in Hall.
  pose proof (Hall a Ha) as H. now rewrite ltb_irrefl in H.
Qed.

End Fieldnames.

(** ** Claims about the export *)

(** A history with the counters has their columns, a history without them
    does not. *)
Lemma fieldnames_examples :
  fieldnames [tie_first; with_counters]
  = ["host"; "reachable"; "latency_ms"; "timestamp"; "raw_exit";
     "attempts"; "successes"] /\
  fieldnames [tie_first; tie_second]
  = ["host"; "reachable"; "latency_ms"; "timestamp"; "raw_exit"].
Proof. split; reflexivity. Qed.

(** C9: the export header is [host], [reachable], [latency_ms],
    [timestamp], [raw_exit], followed by exactly the keys of the exported
    rows that are not among those five, each once, in ascending order. *)
Theorem fieldnames_header (rows : list row) :
  exists extras,
    fieldnames rows
    = ["host"; "reachable"; "latency_ms"; "timestamp"; "raw_exit"] ++ extras /\
    StronglySorted (fun a b => (a <? b) = true) extras /\
    NoDup extras /\
    forall k,
      In k extras <->
      (exists r, In r rows /\ In k (dict_keys r)) /\
      ~ In k ["host"; "reachable"; "latency_ms"; "timestamp"; "raw_exit"].
Proof.
  destruct (extra_fields_spec rows) as [Hnd Hin].
  destruct (sorted_strings_spec _ Hnd) as [Hperm Hs].
  exists (filter (fun k => negb (mem k base_fields))
            (sorted_strings (extra_fields rows))).
  split; [reflexivity|].
  assert (Hsorted := StronglySorted_filter _
                       (fun k => negb (mem k base_fields)) _ Hs).
  split; [exact Hsorted|]. split; [now apply strictly_sorted_NoDup|].
  intros k. rewrite filter_In, negb_true_iff, <- Hin.
  fold base_fields. split.
  - intros [Hk Hm]. split.
    + now apply (Permutation_in _ (Permutation_sym Hperm)).
    + intros Hb. apply mem_In in Hb. congruence.
  - intros [Hk Hb]. split.
    + now apply (Permutation_in _ Hperm).
    + destruct (mem k base_fields) eqn:E; [|reflexivity].
      apply mem_In in E. contradiction.
Qed.

(** ** The latency pattern does not tell [<] from [=] *)

Section Renaming.

Variable f : ascii -> ascii.

Lemma smap_length (s : string) : String.length (smap f s) = String.length s.
Proof. induction s as [|c s IH]; simpl; congruence. Qed.

Lemma smap_app (s1 s2 : string) :
  smap f (s1 ++ s2) = (smap f s1 ++ smap f s2)%string.
Proof. induction s1 as [|c s1 IH]; simpl; congruence. Qed.

Lemma smap_substring (s : string) :
  forall n m, smap f (substring n m s) = substring n m (smap f s).
Proof.
  induction s as [|c s IH]; intros [|n] [|m]; simpl; try reflexivity.
  - now rewrite IH.
  - apply IH.
  - apply IH.
Qed.

Lemma smap_consumed (s s1 : string) :
  consumed (smap f s) (smap f s1) = smap f (consumed s s1).
Proof.
  unfold consumed. now rewrite !smap_length, smap_substring.
Qed.

Lemma flat_map_map {A B C : Type} (g : B -> list C) (h : A -> B)
  (l : list A) : flat_map g (map h l) = flat_map (fun x => g (h x)) l.
Proof. induction l as [|x l IH]; simpl; congruence. Qed.

Lemma map_flat_map {A B C : Type} (h : B -> C) (g : A -> list B)
  (l : list A) : map h (flat_map g l) = flat_map (fun x => map h (g x)) l.
Proof.
  induction l as [|x l IH]; simpl; [reflexivity|].
  now rewrite map_app, IH.
Qed.

Lemma star_map (step : option string -> string -> list (string * option string)) :
  (forall cap s,
      step (option_map (smap f) cap) (smap f s)
      = map (way_map f) (step cap s)) ->
  forall fuel cap s,
    star step fuel (option_map (smap f) cap) (smap f s)
    = map (way_map f) (star step fuel cap s).
Proof.
  intros Hstep. induction fuel as [|fuel IH]; intros cap s; simpl.
  - reflexivity.
  - rewrite Hstep, map_app, flat_map_map, map_flat_map. simpl. f_equal.
    apply flat_map_ext. intros [s1 c1]. simpl.
    rewrite !smap_length.
    destruct (String.length s1 <? String.length s)%nat; [apply IH|reflexivity].
Qed.

Lemma rmatch_map (r : regex) :
  respects f r ->
  forall cap s,
    rmatch r (option_map (smap f) cap) (smap f s)
    = map (way_map f) (rmatch r cap s).
Proof.
  induction r as [p|r1 IH1 r2 IH2|r1 IH|r1 IH|r1 IH]; simpl; intros Hr cap s.
  - destruct s as [|c s]; simpl; [reflexivity|].
    rewrite Hr. now destruct (p c).
  - destruct Hr as [Hr1 Hr2].
    rewrite (IH1 Hr1), flat_map_map, map_flat_map.
    apply flat_map_ext. intros [s1 c1]. apply (IH2 Hr2).
  - now rewrite map_app, (IH Hr).
  - rewrite smap_length. apply star_map. apply (IH Hr).
  - rewrite (IH Hr), !map_map. apply map_ext. intros [s1 c1].
    unfold way_map. simpl. now rewrite smap_consumed.
Qed.

Lemma search_map (r : regex) :
  respects f r ->
  forall s,
    search r (smap f s) = option_map (option_map (smap f)) (search r s).
Proof.
  intros Hr. induction s as [|c s IH].
  - simpl. pose proof (rmatch_map r Hr None EmptyString) as H.
    simpl in H.
    destruct (rmatch r None EmptyString) as [|[s1 c1] l]; [reflexivity|].
    simpl in H |- *. injection H as _ H _. now rewrite <- H.
  - pose proof (rmatch_map r Hr None (String c s)) as H.
    cbn [option_map] in H. cbn [search smap]. cbn [smap] in H. rewrite H.
    destruct (rmatch r None (String c s)) as [|[s1 c1] l]; simpl.
    + exact IH.
    + reflexivity.
Qed.

End Renaming.

Section LessOrEqual.

Lemma less_to_equal_fixes (c : ascii) :
  c <> "<"%char -> less_to_equal c = c.
Proof.
  intros H. unfold less_to_equal.
  destruct (Ascii.eqb_spec c "<"); [contradiction|reflexivity].
Qed.

Lemma class_respected (p : ascii -> bool) :
  p "="%char = p "<"%char -> forall c, p (less_to_equal c) = p c.
Proof.
  intros H c. unfold less_to_equal.
  destruct (Ascii.eqb_spec c "<"); [now subst|reflexivity].
Qed.

Lemma LATENCY_RE_respects : respects less_to_equal LATENCY_RE.
Proof.
  unfold LATENCY_RE, Plus, letter. simpl.
  repeat split; intros c; unfold less_to_equal;
    (destruct (Ascii.eqb c "<") eqn:E;
     [apply Ascii.eqb_eq in E; subst; reflexivity
     |rewrite ?E; reflexivity]).
Qed.

Lemma digits_value_renamed (s : string) :
  forall acc,
    digits_value acc (smap less_to_equal s) = digits_value acc s.
Proof.
  induction s as [|c s IH]; intros acc; simpl; [reflexivity|].
  rewrite (class_respected is_digit eq_refl).
  destruct (is_digit c) eqn:Hd; [|reflexivity].
  rewrite less_to_equal_fixes; [apply IH|].
  intros ->. discriminate.
Qed.

Lemma split_point_renamed (s : string) :
  split_point (smap less_to_equal s)
  = (smap less_to_equal (fst (split_point s)),
     option_map (smap less_to_equal) (snd (split_point s))).
Proof.
  induction s as [|c s IH]; simpl; [reflexivity|].
  rewrite (class_respected (fun c => Ascii.eqb c ".") eq_refl).
  destruct (Ascii.eqb c "."); [reflexivity|].
  rewrite IH. now destruct (split_point s) as [a b].
Qed.

Lemma float_of_decimal_renamed (text : string) :
  float_of_decimal (smap less_to_equal text) = float_of_decimal text.
Proof.
  unfold float_of_decimal. rewrite split_point_renamed.
  destruct (split_point text) as [ip [fp|]]; simpl.
  - destruct ip as [|c ip]; [reflexivity|]. cbn [smap].
    destruct fp as [|c' fp]; [reflexivity|]. cbn [smap].
    change (String (less_to_equal c) (smap less_to_equal ip)
            ++ String (less_to_equal c') (smap less_to_equal fp))%string
      with (smap less_to_equal (String c ip)
            ++ smap less_to_equal (String c' fp))%string.
    rewrite <- smap_app, digits_value_renamed.
    change (String (less_to_equal c') (smap less_to_equal fp))
      with (smap less_to_equal (String c' fp)).
    now rewrite smap_length.
  - destruct ip as [|c ip]; [reflexivity|].
    change (String (less_to_equal c) (smap less_to_equal ip))
      with (smap less_to_equal (String c ip)).
    now rewrite digits_value_renamed.
Qed.

(** Whether the output writes [<] or [=], the latency is the same. *)
Lemma parse_latency_renamed (out : string) :
  parse_latency (smap less_to_equal out) = parse_latency out.
Proof.
  unfold parse_latency.
  rewrite (search_map less_to_equal LATENCY_RE LATENCY_RE_respects).
  destruct (search LATENCY_RE out) as [[text|]|]; simpl; try reflexivity.
  apply float_of_decimal_renamed.
Qed.

End LessOrEqual.

(** ** The way the pattern matches a latency *)

Section FirstWay.

Lemma first_chr (p : ascii -> bool) (cap : option string) (c : ascii)
  (s : string) :
  p c = true -> first_way (rmatch (Chr p) cap (String c s)) = Some (s, cap).
Proof. intros H. simpl. now rewrite H. Qed.

Lemma first_seq (r1 r2 : regex) (cap c1 : option string) (s s1 : string)
  (y : string * option string) :
  first_way (rmatch r1 cap s) = Some (s1, c1) ->
  first_way (rmatch r2 c1 s1) = Some y ->
  first_way (rmatch (Seq r1 r2) cap s) = Some y.
Proof.
  simpl. unfold first_way.
  destruct (rmatch r1 cap s) as [|x l]; [discriminate|].
  intros H1 H2. injection H1 as ->. simpl.
  destruct (rmatch r2 c1 s1) as [|y' l']; [discriminate|].
  simpl in *. exact H2.
Qed.

Lemma first_opt_taken (r : regex) (cap : option string) (s : string)
  (y : string * option string) :
  first_way (rmatch r cap s) = Some y ->
  first_way (rmatch (Opt r) cap s) = Some y.
Proof.
  simpl. unfold first_way.
  destruct (rmatch r cap s) as [|x l]; [discriminate|]. auto.
Qed.

Lemma first_opt_skipped (r : regex) (cap : option string) (s : string) :
  rmatch r cap s = [] ->
  first_way (rmatch (Opt r) cap s) = Some (s, cap).
Proof. simpl. now intros ->. Qed.

Lemma first_group (r : regex) (cap c1 : option string) (s s1 : string) :
  first_way (rmatch r cap s) = Some (s1, c1) ->
  first_way (rmatch (Group r) cap s) = Some (s1, Some (consumed s s1)).
Proof.
  simpl. unfold first_way.
  destruct (rmatch r cap s) as [|x l]; [discriminate|].
  intros H. injection H as ->. reflexivity.
Qed.

Lemma chr_fails (p : ascii -> bool) (cap : option string) (s : string) :
  starts_without p s = true -> rmatch (Chr p) cap s = [].
Proof.
  destruct s as [|c s]; simpl; [reflexivity|].
  intros H. apply negb_true_iff in H. now rewrite H.
Qed.

Lemma seq_fails (r1 r2 : regex) (cap : option string) (s : string) :
  rmatch r1 cap s = [] -> rmatch (Seq r1 r2) cap s = [].
Proof. simpl. now intros ->. Qed.

(** A greedy repetition of a character class first takes the whole run
    of characters of the class. *)
Lemma first_star_run (p : ascii -> bool) (rest : string) :
  starts_without p rest = true ->
  forall chars fuel cap,
    all_chars p chars = true -> (String.length chars <= fuel)%nat ->
    first_way (star (rmatch (Chr p)) fuel cap (chars ++ rest))
    = Some (rest, cap).
Proof.
  intros Hrest. induction chars as [|c chars IH]; intros fuel cap Hall Hfuel.
  - change (EmptyString ++ rest)%string with rest.
    destruct fuel as [|fuel]; [reflexivity|].
    cbn [star]. now rewrite (chr_fails p cap rest Hrest).
  - simpl in Hall. apply andb_true_iff in Hall. destruct Hall as [Hc Hall].
    destruct fuel as [|fuel]; [simpl in Hfuel; lia|].
    cbn [star append].
    assert (Hstep : rmatch (Chr p) cap (String c (chars ++ rest))
                    = [((chars ++ rest)%string, cap)])
      by (simpl; now rewrite Hc).
    rewrite Hstep. cbn [flat_map].
    assert (Hlt : (String.length (chars ++ rest)
                   <? String.length (String c (chars ++ rest)))%nat = true)
      by (apply Nat.ltb_lt; simpl; lia).
    rewrite Hlt, app_nil_r.
    specialize (IH fuel cap Hall ltac:(simpl in Hfuel; lia)).
    unfold first_way in *.
    destruct (star (rmatch (Chr p)) fuel cap (chars ++ rest)); [discriminate|].
    exact IH.
Qed.

Lemma length_append (a b : string) :
  String.length (a ++ b) = (String.length a + String.length b)%nat.
Proof. induction a as [|c a IH]; simpl; congruence. Qed.

Lemma first_star_class (p : ascii -> bool) (chars rest : string)
  (cap : option string) :
  all_chars p chars = true -> starts_without p rest = true ->
  first_way (rmatch (Star (Chr p)) cap (chars ++ rest)) = Some (rest, cap).
Proof.
  intros Hall Hrest. cbn [rmatch].
  apply first_star_run; auto. rewrite length_append. lia.
Qed.

Lemma first_plus_class (p : ascii -> bool) (chars rest : string)
  (cap : option string) :
  negb (chars =? "") && all_chars p chars = true ->
  starts_without p rest = true ->
  first_way (rmatch (Plus (Chr p)) cap (chars ++ rest)) = Some (rest, cap).
Proof.
  intros H Hrest. apply andb_true_iff in H. destruct H as [Hne Hall].
  destruct chars as [|c chars]; [discriminate|].
  simpl in Hall. apply andb_true_iff in Hall. destruct Hall as [Hc Hall].
  unfold Plus. apply (first_seq _ _ _ cap _ (chars ++ rest)).
  - now apply first_chr.
  - now apply first_star_class.
Qed.

Lemma substring_prefix (a b : string) :
  substring 0 (String.length a) (a ++ b) = a.
Proof. induction a as [|c a IH]; simpl; [now destruct b|congruence]. Qed.

Lemma consumed_prefix (a b : string) : consumed (a ++ b) b = a.
Proof.
  unfold consumed. rewrite length_append.
  replace (String.length a + String.length b - String.length b)%nat
    with (String.length a) by lia.
  apply substring_prefix.
Qed.

Lemma append_assoc (a b c : string) :
  ((a ++ b) ++ c = a ++ (b ++ c))%string.
Proof. induction a as [|x a IH]; simpl; congruence. Qed.

Lemma search_unmatched (pre rest : string) :
  unmatched pre rest = true ->
  search LATENCY_RE (pre ++ rest) = search LATENCY_RE rest.
Proof.
  induction pre as [|c pre IH]; [reflexivity|].
  cbn [unmatched]. change (String c pre ++ rest)%string
    with (String c (pre ++ rest)%string).
  cbn [search].
  destruct (rmatch LATENCY_RE None (String c (pre ++ rest))); [exact IH|].
  discriminate.
Qed.

End FirstWay.

Section LatencyPattern.

Lemma digit_not_space (c : ascii) : is_digit c = true -> is_space c = false.
Proof.
  destruct c as [[] [] [] [] [] [] [] []]; try reflexivity; discriminate.
Qed.

Lemma space_not_digit (c : ascii) : is_space c = true -> is_digit c = false.
Proof.
  destruct c as [[] [] [] [] [] [] [] []]; try reflexivity; discriminate.
Qed.

Lemma space_not_point (c : ascii) :
  is_space c = true -> Ascii.eqb "." c = false.
Proof.
  destruct c as [[] [] [] [] [] [] [] []]; try reflexivity; discriminate.
Qed.

Lemma starts_after_chars (p q : ascii -> bool) (gap tail : string) :
  (forall c, q c = true -> p c = false) ->
  all_chars q gap = true -> starts_without p tail = true ->
  starts_without p (gap ++ tail) = true.
Proof.
  intros Hpq Hgap Htail. destruct gap as [|c gap]; [exact Htail|].
  simpl in *. apply andb_true_iff in Hgap. destruct Hgap as [Hc _].
  now rewrite (Hpq c Hc).
Qed.

Lemma starts_with_digits (p : ascii -> bool) (ip tail : string) :
  (forall c, is_digit c = true -> p c = false) ->
  nonempty_digits ip = true -> starts_without p (ip ++ tail) = true.
Proof.
  intros Hp H. apply andb_true_iff in H. destruct H as [Hne Hall].
  destruct ip as [|c ip]; [discriminate|].
  simpl in *. apply andb_true_iff in Hall. destruct Hall as [Hc _].
  now rewrite (Hp c Hc).
Qed.

Lemma spelled_time (kw : string) :
  spelled "time" kw = true ->
  exists c1 c2 c3 c4,
    kw = String c1 (String c2 (String c3 (String c4 EmptyString))) /\
    (Ascii.eqb c1 "t" || Ascii.eqb c1 "T") = true /\
    (Ascii.eqb c2 "i" || Ascii.eqb c2 "I") = true /\
    (Ascii.eqb c3 "m" || Ascii.eqb c3 "M") = true /\
    (Ascii.eqb c4 "e" || Ascii.eqb c4 "E") = true.
Proof.
  destruct kw as [|c1 [|c2 [|c3 [|c4 [|c5 kw]]]]]; cbn [spelled];
    rewrite ?andb_false_r; try discriminate.
  intros H. rewrite andb_true_r in H.
  apply andb_true_iff in H. destruct H as [H1 H].
  apply andb_true_iff in H. destruct H as [H2 H].
  apply andb_true_iff in H. destruct H as [H3 H4].
  exists c1, c2, c3, c4. auto.
Qed.

Lemma spelled_ms (unit : string) :
  spelled "ms" unit = true ->
  exists c1 c2,
    unit = String c1 (String c2 EmptyString) /\
    (Ascii.eqb c1 "m" || Ascii.eqb c1 "M") = true /\
    (Ascii.eqb c2 "s" || Ascii.eqb c2 "S") = true.
Proof.
  destruct unit as [|c1 [|c2 [|c3 unit]]]; cbn [spelled];
    rewrite ?andb_false_r; try discriminate.
  intros H. rewrite andb_true_r in H.
  apply andb_true_iff in H. destruct H as [H1 H2].
  exists c1, c2. auto.
Qed.

(** The unit begins with a letter: no digit, no point, no white space. *)
Lemma unit_starts (p : ascii -> bool) (unit tail : string) :
  p "m"%char = false -> p "M"%char = false ->
  spelled "ms" unit = true -> starts_without p (unit ++ tail) = true.
Proof.
  intros Hm HM H. destruct (spelled_ms unit H) as [c1 [c2 [-> [H1 _]]]].
  simpl. apply orb_true_iff in H1.
  destruct H1 as [H1|H1]; apply Ascii.eqb_eq in H1; subst c1.
  - now rewrite Hm.
  - now rewrite HM.
Qed.

Variables kw gap1 ip frac gap2 unit rest : string.
Hypothesis kw_time : spelled "time" kw = true.
Hypothesis gap1_spaces : all_chars is_space gap1 = true.
Hypothesis ip_digits : nonempty_digits ip = true.
Hypothesis frac_fraction : is_fraction frac = true.
Hypothesis gap2_spaces : all_chars is_space gap2 = true.
Hypothesis unit_ms : spelled "ms" unit = true.

Local Abbreviation unit_text := (gap2 ++ unit ++ rest)%string.

Lemma first_way_number (cap : option string) :
  first_way
    (rmatch (Seq (Plus (Chr is_digit))
                 (Opt (Seq (Chr (Ascii.eqb ".")) (Plus (Chr is_digit)))))
            cap (ip ++ frac ++ unit_text))
  = Some (unit_text, cap).
Proof.
  assert (Hd : starts_without is_digit unit_text = true).
  { apply (starts_after_chars _ is_space); auto using space_not_digit.
    now apply unit_starts. }
  destruct frac as [|c fp].
  - apply (first_seq _ _ _ cap _ unit_text).
    + now apply first_plus_class.
    + apply first_opt_skipped. apply seq_fails, chr_fails.
      apply (starts_after_chars _ is_space); auto using space_not_point.
      now apply unit_starts.
  - simpl in frac_fraction. apply andb_true_iff in frac_fraction.
    destruct frac_fraction as [Hc Hfp]. apply Ascii.eqb_eq in Hc. subst c.
    apply (first_seq _ _ _ cap _ (String "." fp ++ unit_text)).
    + now apply first_plus_class.
    + apply first_opt_taken.
      apply (first_seq _ _ _ cap _ (fp ++ unit_text)).
      * now apply first_chr.
      * now apply first_plus_class.
Qed.

(** Where the pattern is tried on [time] in any case, a separator or
    none, a decimal literal and [ms] in any case, the way of matching the
    engine takes captures the whole literal. *)
Lemma first_way_latency (sep : string) :
  sep = "" \/ sep = "<" \/ sep = "=" ->
  first_way
    (rmatch LATENCY_RE None
       (kw ++ sep ++ gap1 ++ ip ++ frac ++ unit_text))
  = Some (rest, Some (ip ++ frac)%string).
Proof.
  intros Hsep. unfold LATENCY_RE, letter.
  destruct (spelled_time kw kw_time)
    as [c1 [c2 [c3 [c4 [-> [H1 [H2 [H3 H4]]]]]]]].
  destruct (spelled_ms unit unit_ms) as [u1 [u2 [Hunit [Hu1 Hu2]]]].
  change (String c1 (String c2 (String c3 (String c4 EmptyString)))
          ++ sep ++ gap1 ++ ip ++ frac ++ unit_text)%string
    with (String c1 (String c2 (String c3 (String c4
            (sep ++ gap1 ++ ip ++ frac ++ unit_text))))).
  eapply first_seq; [apply first_chr; exact H1|].
  eapply first_seq; [apply first_chr; exact H2|].
  eapply first_seq; [apply first_chr; exact H3|].
  eapply first_seq; [apply first_chr; exact H4|].
  eapply first_seq.
  { destruct Hsep as [->|Hsep].
    - change ("" ++ gap1 ++ ip ++ frac ++ unit_text)%string
        with (gap1 ++ ip ++ frac ++ unit_text)%string.
      apply first_opt_skipped, chr_fails.
      apply (starts_after_chars _ is_space); auto.
      + intros c Hc.
        destruct c as [[] [] [] [] [] [] [] []]; try reflexivity;
          discriminate.
      + apply starts_with_digits; auto.
        intros c Hc.
        destruct c as [[] [] [] [] [] [] [] []]; try reflexivity;
          discriminate.
    - apply first_opt_taken.
      destruct Hsep; subst sep; apply first_chr; reflexivity. }
  assert (Hafter : forall tail : string,
             first_way
               (rmatch (Star (Chr is_space)) None (gap1 ++ ip ++ tail))
             = Some ((ip ++ tail)%string, None)).
  { intros tail. apply first_star_class; [exact gap1_spaces|].
    apply starts_with_digits; auto using digit_not_space. }
  destruct Hsep as [->|[->| ->]]; cbn [append];
    (eapply first_seq; [apply Hafter|];
     eapply first_seq; [eapply first_group; apply first_way_number|];
     replace (consumed (ip ++ frac ++ unit_text) unit_text)
       with (ip ++ frac)%string
       by (rewrite <- append_assoc; symmetry; apply consumed_prefix);
     eapply first_seq;
       [apply first_star_class;
        [exact gap2_spaces
        |apply unit_starts; [reflexivity|reflexivity|exact unit_ms]]|];
     rewrite Hunit; cbn [append];
     eapply first_seq; [apply first_chr; exact Hu1|];
     apply first_chr; exact Hu2).
Qed.

Lemma digits_value_some (s : string) :
  all_chars is_digit s = true ->
  forall acc, exists n, digits_value acc s = Some n.
Proof.
  induction s as [|c s IH]; simpl; intros H acc; [eauto|].
  apply andb_true_iff in H. destruct H as [Hc Hs]. rewrite Hc.
  apply (IH Hs).
Qed.

Lemma split_point_digits (s tail : string) :
  all_chars is_digit s = true ->
  split_point (s ++ String "." tail) = (s, Some tail).
Proof.
  induction s as [|c s IH]; simpl; intros H; [reflexivity|].
  apply andb_true_iff in H. destruct H as [Hc Hs].
  assert (Hp : Ascii.eqb c "." = false).
  { destruct (Ascii.eqb_spec c "."); [subst; discriminate|reflexivity]. }
  now rewrite Hp, (IH Hs).
Qed.

Lemma split_point_no_point (s : string) :
  all_chars is_digit s = true -> split_point s = (s, None).
Proof.
  induction s as [|c s IH]; simpl; intros H; [reflexivity|].
  apply andb_true_iff in H. destruct H as [Hc Hs].
  assert (Hp : Ascii.eqb c "." = false).
  { destruct (Ascii.eqb_spec c "."); [subst; discriminate|reflexivity]. }
  now rewrite Hp, (IH Hs).
Qed.

Lemma all_chars_app (p : ascii -> bool) (a b : string) :
  all_chars p (a ++ b) = all_chars p a && all_chars p b.
Proof.
  induction a as [|c a IH]; simpl; [reflexivity|].
  now rewrite IH, andb_assoc.
Qed.

(** [float] of the literal is a float. *)
Lemma float_of_decimal_some :
  exists v, float_of_decimal (ip ++ frac) = Some v.
Proof.
  pose proof ip_digits as H. apply andb_true_iff in H.
  destruct H as [Hne Hall]. unfold float_of_decimal.
  destruct frac as [|c fp].
  - assert (E : (ip ++ "")%string = ip)
      by (clear; induction ip as [|x s IH]; simpl; congruence).
    rewrite E, (split_point_no_point ip Hall).
    destruct ip as [|x s]; [discriminate|].
    destruct (digits_value_some _ Hall 0%Z) as [n ->]. eauto.
  - simpl in frac_fraction. apply andb_true_iff in frac_fraction.
    destruct frac_fraction as [Hc Hfp]. apply Ascii.eqb_eq in Hc. subst c.
    apply andb_true_iff in Hfp. destruct Hfp as [Hfne Hfall].
    rewrite (split_point_digits ip fp Hall).
    destruct ip as [|x s]; [discriminate|].
    destruct fp as [|y fp']; [discriminate|].
    assert (Hboth : all_chars is_digit (String x s ++ String y fp') = true)
      by (rewrite all_chars_app, Hall, Hfall; reflexivity).
    destruct (digits_value_some _ Hboth 0%Z) as [n ->]. eauto.
Qed.

End LatencyPattern.

(** ** Claims about the latency pattern *)

(** The sub-millisecond notation: [time<1 ms] is reported as 1.0, the
    same as [time=1 ms]. *)
Lemma sub_millisecond_example :
  parse_latency "time<1 ms" = Some float_1 /\
  parse_latency "time=1 ms" = Some float_1 /\
  attempt_result (reply windows_reply) = Ok (true, Some float_1, 0%Z).
Proof. repeat split; reflexivity. Qed.

(** * Properties of the rest of the program *)

(** ** [str.strip] *)

Section Strip.

Lemma lstrip_starts (s : string) : starts_without is_space (lstrip s) = true.
Proof.
  induction s as [|c s IH]; simpl; [reflexivity|].
  destruct (is_space c) eqn:E; [exact IH|]. simpl. now rewrite E.
Qed.

Lemma lstrip_fixed (s : string) :
  starts_without is_space s = true -> lstrip s = s.
Proof.
  destruct s as [|c s]; simpl; [reflexivity|].
  intros H. apply negb_true_iff in H. now rewrite H.
Qed.

Lemma rstrip_starts (s : string) :
  starts_without is_space s = true -> starts_without is_space (rstrip s) = true.
Proof.
  destruct s as [|c s]; simpl; [reflexivity|].
  intros H. pose proof H as H'. apply negb_true_iff in H'. rewrite H'.
  now destruct (rstrip s).
Qed.

Lemma rstrip_idempotent (s : string) : rstrip (rstrip s) = rstrip s.
Proof.
  induction s as [|c s IH]; simpl; [reflexivity|].
  destruct (rstrip s) as [|d r] eqn:E.
  - destruct (is_space c) eqn:Ec; simpl; [reflexivity|]. now rewrite Ec.
  - cbn [rstrip]. cbn [rstrip] in IH. rewrite IH. reflexivity.
Qed.

Lemma strip_idempotent (s : string) : strip (strip s) = strip s.
Proof.
  unfold strip.
  rewrite (lstrip_fixed (rstrip (lstrip s))).
  - apply rstrip_idempotent.
  - apply rstrip_starts, lstrip_starts.
Qed.

End Strip.

Lemma rstrip_ends (s : string) : ends_without is_space (rstrip s) = true.
Proof.
  induction s as [|c s IH]; simpl; [reflexivity|].
  destruct (rstrip s) as [|d r] eqn:E.
  - destruct (is_space c) eqn:Ec; simpl; [reflexivity|]. now rewrite Ec.
  - exact IH.
Qed.

(** ** The host store: [cmd_add] *)

Section AddHosts.

(** What the loop appends: the stripped, non-empty arguments that are not
    in the list yet, each once. *)
Lemma add_loop_appends :
  forall args hosts new_hosts,
  exists ext,
    add_loop args hosts new_hosts = (hosts ++ ext, new_hosts ++ ext) /\
    NoDup ext /\
    (forall h, In h ext <->
               h <> "" /\ ~ In h hosts /\ exists a, In a args /\ strip a = h).
Proof.
  induction args as [|a args IH]; intros hosts new_hosts.
  - exists []. rewrite !app_nil_r. split; [reflexivity|].
    split; [constructor|]. intros h. split; [intros []|].
    intros [_ [_ [a [[] _]]]].
  - cbn [add_loop].
    destruct (negb (strip a =? "") && negb (mem (strip a) hosts)) eqn:E.
    + apply andb_true_iff in E. destruct E as [E1 E2].
      apply negb_true_iff in E1, E2. apply String.eqb_neq in E1.
      assert (Hnot : ~ In (strip a) hosts)
        by (intros H; apply mem_In in H; congruence).
      destruct (IH (hosts ++ [strip a]) (new_hosts ++ [strip a]))
        as [ext [Heq [Hnd Hin]]].
      exists (strip a :: ext). rewrite Heq, <- !app_assoc.
      split; [reflexivity|]. split.
      * constructor; [|exact Hnd]. intros H. apply Hin in H.
        destruct H as [_ [H _]]. apply H. apply in_or_app. right. now left.
      * intros h. simpl. rewrite Hin. split.
        -- intros [<-|[H1 [H2 [b [Hb Hs]]]]].
           ++ split; [exact E1|]. split; [exact Hnot|]. exists a. auto.
           ++ split; [exact H1|]. split.
              ** intros H. apply H2. apply in_or_app. now left.
              ** exists b. auto.
        -- intros [H1 [H2 [b [[<-|Hb] Hs]]]]; [now left|].
           destruct (string_dec (strip a) h) as [->|Hne]; [now left|].
           right. split; [exact H1|]. split.
           ++ intros H. apply in_app_or in H. destruct H as [H|[H|[]]]; auto.
           ++ exists b. auto.
    + destruct (IH hosts new_hosts) as [ext [Heq [Hnd Hin]]].
      exists ext. split; [exact Heq|]. split; [exact Hnd|].
      intros h. rewrite Hin. split.
      * intros [H1 [H2 [b [Hb Hs]]]].
        split; [exact H1|]. split; [exact H2|]. exists b. simpl. auto.
      * intros [H1 [H2 [b [[<-|Hb] Hs]]]].
        -- exfalso. subst h. apply andb_false_iff in E.
           destruct E as [E|E]; apply negb_false_iff in E.
           ++ apply String.eqb_eq in E. contradiction.
           ++ apply mem_In in E. contradiction.
        -- split; [exact H1|]. split; [exact H2|]. exists b. auto.
Qed.

Lemma add_loop_nothing :
  forall args hosts new_hosts,
    (forall a, In a args -> strip a = "" \/ In (strip a) hosts) ->
    add_loop args hosts new_hosts = (hosts, new_hosts).
Proof.
  induction args as [|a args IH]; intros hosts new_hosts H; [reflexivity|].
  cbn [add_loop].
  assert (E : negb (strip a =? "") && negb (mem (strip a) hosts) = false).
  { destruct (H a (or_introl eq_refl)) as [E|E].
    - rewrite E. reflexivity.
    - apply mem_In in E. rewrite E. apply andb_false_r. }
  rewrite E. apply IH. intros b Hb. apply H. now right.
Qed.

(** The order of what the loop appends: a host appended before another
    is named, in some argument, before every naming of the other. *)
Lemma add_loop_order :
  forall args hosts new_hosts ext,
    snd (add_loop args hosts new_hosts) = new_hosts ++ ext ->
    forall l1 h1 l2 h2 l3,
      ext = l1 ++ h1 :: l2 ++ h2 :: l3 ->
      exists pre a post,
        args = pre ++ a :: post /\ strip a = h1 /\
        ~ In h2 (map strip pre).
Proof.
  induction args as [|a args IH]; intros hosts new_hosts ext Hext
    l1 h1 l2 h2 l3 Hsplit.
  - simpl in Hext. rewrite <- (app_nil_r new_hosts) in Hext at 1.
    apply app_inv_head in Hext. subst ext.
    destruct l1; discriminate.
  - cbn [add_loop] in Hext.
    destruct (negb (strip a =? "") && negb (mem (strip a) hosts)) eqn:E.
    + destruct (add_loop_appends args (hosts ++ [strip a])
                  (new_hosts ++ [strip a])) as [ext' [Heq [_ Hin]]].
      rewrite Heq in Hext. cbn [snd] in Hext.
      rewrite <- app_assoc in Hext. apply app_inv_head in Hext.
      cbn [app] in Hext. subst ext.
      assert (Hsnd : snd (add_loop args (hosts ++ [strip a])
                            (new_hosts ++ [strip a]))
                     = (new_hosts ++ [strip a]) ++ ext')
        by now rewrite Heq.
      destruct l1 as [|x l1]; cbn [app] in Hsplit.
      * injection Hsplit as <- _. exists [], a, args. simpl. auto.
      * injection Hsplit as <- Hsplit.
        destruct (IH _ _ _ Hsnd _ _ _ _ _ Hsplit) as [pre [b [post [-> [Hb Hpre]]]]].
        exists (a :: pre), b, post. split; [reflexivity|].
        split; [exact Hb|]. simpl. intros [Ha|Hp]; [|contradiction].
        assert (Hh2 : In h2 ext')
          by (rewrite Hsplit; apply in_or_app; right; right;
              apply in_or_app; right; now left).
        apply Hin in Hh2. destruct Hh2 as [_ [Hh2 _]]. apply Hh2.
        apply in_or_app. right. now left.
    + destruct (add_loop_appends args hosts new_hosts) as [ext' [Heq [_ Hin]]].
      pose proof Hext as Hext'. rewrite Heq in Hext'. cbn [snd] in Hext'.
      apply app_inv_head in Hext'. subst ext'.
      destruct (IH _ _ _ Hext _ _ _ _ _ Hsplit) as [pre [b [post [-> [Hb Hpre]]]]].
      exists (a :: pre), b, post. split; [reflexivity|].
      split; [exact Hb|]. simpl. intros [Ha|Hp]; [|contradiction].
      assert (Hh2 : In h2 ext)
        by (rewrite Hsplit; apply in_or_app; right; right;
            apply in_or_app; right; now left).
      apply Hin in Hh2. destruct Hh2 as [Hne [Hh2 _]].
      apply andb_false_iff in E. destruct E as [E|E]; apply negb_false_iff in E.
      * apply String.eqb_eq in E. congruence.
      * apply mem_In in E. congruence.
Qed.

End AddHosts.

Lemma cmd_add_spec (s : store) (args : list string) :
  load_hosts (fst (cmd_add s args)) = load_hosts s ++ added_hosts s args /\
  NoDup (added_hosts s args) /\
  (forall h, In h (added_hosts s args) <->
             h <> "" /\ ~ In h (load_hosts s) /\
             exists a, In a args /\ strip a = h) /\
  results_db (fst (cmd_add s args)) = results_db s.
Proof.
  unfold cmd_add, added_hosts.
  destruct (add_loop_appends args (load_hosts s) []) as [ext [Heq [Hnd Hin]]].
  rewrite Heq. simpl. auto.
Qed.

Lemma cmd_add_distinct (s : store) (args : list string) :
  NoDup (load_hosts s) -> NoDup (load_hosts (fst (cmd_add s args))).
Proof.
  intros H. destruct (cmd_add_spec s args) as [-> [Hnd [Hin _]]].
  apply NoDup_app; auto.
  intros h Hh Hh'. apply Hin in Hh'. tauto.
Qed.

(** [cmd_add] keeps the saved hosts in place and appends, each once, the
    arguments that after stripping are non-empty and not saved yet, in the
    order of the arguments: a host added before another is named before
    every naming of the other.  These are the hosts it reports, and the
    history is not touched. *)
Theorem cmd_add_appends (s : store) (args : list string) :
  load_hosts (fst (cmd_add s args)) = load_hosts s ++ added_hosts s args /\
  NoDup (added_hosts s args) /\
  (forall h, In h (added_hosts s args) <->
             h <> "" /\ ~ In h (load_hosts s) /\
             exists a, In a args /\ strip a = h) /\
  (forall l1 h1 l2 h2 l3,
      added_hosts s args = l1 ++ h1 :: l2 ++ h2 :: l3 ->
      exists pre a post,
        args = pre ++ a :: post /\ strip a = h1 /\
        ~ In h2 (map strip pre)) /\
  results_db (fst (cmd_add s args)) = results_db s.
Proof.
  destruct (cmd_add_spec s args) as [H1 [H2 [H3 H4]]].
  split; [exact H1|]. split; [exact H2|]. split; [exact H3|].
  split; [|exact H4].
  apply (add_loop_order args (load_hosts s) [] (added_hosts s args)).
  reflexivity.
Qed.

(** A list of saved hosts without repetition stays so under [cmd_add]. *)
Theorem cmd_add_keeps_hosts_distinct (s : store) (args : list string) :
  NoDup (load_hosts s) -> NoDup (load_hosts (fst (cmd_add s args))).
Proof. apply cmd_add_distinct. Qed.

Lemma cmd_add_keeps_hosts_distinct_witness :
  NoDup (load_hosts (fst (cmd_add two_hosts ["  a "; "8.8.8.8"; "a"]))).
Proof.
  apply (cmd_add_keeps_hosts_distinct two_hosts ["  a "; "8.8.8.8"; "a"]).
  repeat constructor; simpl; intuition discriminate.
Defined.

(** Every host [cmd_add] adds is free of white space at both ends. *)
Theorem cmd_add_stores_stripped (s : store) (args : list string) (h : string) :
  In h (added_hosts s args) ->
  strip h = h /\
  starts_without is_space h = true /\ ends_without is_space h = true.
Proof.
  intros H. apply (cmd_add_spec s args) in H.
  destruct H as [_ [_ [a [_ <-]]]]. split; [apply strip_idempotent|].
  split.
  - unfold strip. apply rstrip_starts, lstrip_starts.
  - unfold strip. apply rstrip_ends.
Qed.

Lemma cmd_add_stores_stripped_witness :
  strip "a" = "a" /\
  starts_without is_space "a" = true /\ ends_without is_space "a" = true.
Proof.
  apply (cmd_add_stores_stripped two_hosts ["  a "; "8.8.8.8"]).
  simpl. now left.
Defined.

(** Running [cmd_add] again with the same arguments adds nothing. *)
Theorem cmd_add_idempotent (s : store) (args : list string) :
  cmd_add (fst (cmd_add s args)) args
  = (fst (cmd_add s args), "No new hosts added (maybe they already exist).").
Proof.
  destruct (cmd_add_spec s args) as [Hload [_ [Hin _]]].
  unfold cmd_add at 1.
  rewrite (add_loop_nothing args (load_hosts (fst (cmd_add s args))) []).
  - unfold cmd_add, save_hosts.
    destruct (add_loop args (load_hosts s) []) as [hosts new_hosts].
    reflexivity.
  - intros a Ha. destruct (string_dec (strip a) "") as [E|E]; [now left|].
    right. rewrite Hload. apply in_or_app.
    destruct (in_dec string_dec (strip a) (load_hosts s)) as [H|H];
      [now left|].
    right. apply Hin. split; [exact E|]. split; [exact H|]. exists a. auto.
Qed.

(** ** The host store: [cmd_remove] *)

Section RemoveHosts.

Lemma count_occ_mem (l : list string) (h : string) :
  mem h l = false <-> count_occ string_dec l h = 0%nat.
Proof.
  rewrite <- count_occ_not_In. split.
  - intros H Hin. apply mem_In in Hin. congruence.
  - intros H. destruct (mem h l) eqn:E; [|reflexivity].
    apply mem_In in E. contradiction.
Qed.

Lemma remove_first_count (h x : string) (l : list string) :
  count_occ string_dec (remove_first h l) x
  = (count_occ string_dec l x - (if string_dec h x then 1 else 0))%nat.
Proof.
  induction l as [|y l IH]; simpl; [reflexivity|].
  destruct (String.eqb_spec y h) as [->|Hne].
  - destruct (string_dec h x); lia.
  - simpl. destruct (string_dec y x) as [->|Hyx].
    + rewrite IH. destruct (string_dec h x); [congruence|lia].
    + exact IH.
Qed.

Lemma remove_step_count (a x : string) (l : list string) :
  count_occ string_dec (if mem a l then remove_first a l else l) x
  = (count_occ string_dec l x - (if string_dec a x then 1 else 0))%nat.
Proof.
  destruct (mem a l) eqn:E; [apply remove_first_count|].
  apply count_occ_mem in E. destruct (string_dec a x); [subst; lia|lia].
Qed.

Lemma remove_loop_count (x : string) :
  forall args hosts,
    count_occ string_dec (remove_loop args hosts) x
    = (count_occ string_dec hosts x - count_occ string_dec args x)%nat.
Proof.
  unfold remove_loop.
  induction args as [|a args IH]; intros hosts; simpl; [lia|].
  rewrite IH, remove_step_count. destruct (string_dec a x); lia.
Qed.

Lemma filter_filter {A : Type} (f g : A -> bool) (l : list A) :
  filter f (filter g l) = filter (fun x => g x && f x) l.
Proof.
  induction l as [|x l IH]; simpl; [reflexivity|].
  destruct (g x); simpl; [destruct (f x)|]; now rewrite IH.
Qed.

Lemma remove_first_filter (h : string) (l : list string) :
  NoDup l -> remove_first h l = filter (fun x => negb (x =? h)) l.
Proof.
  induction 1 as [|y l Hy Hnd IH]; simpl; [reflexivity|].
  destruct (String.eqb_spec y h) as [->|Hne]; simpl.
  - symmetry. apply forallb_filter_id. apply forallb_forall.
    intros x Hx. apply negb_true_iff, String.eqb_neq. congruence.
  - now rewrite IH.
Qed.

Lemma remove_step_filter (a : string) (l : list string) :
  NoDup l ->
  (if mem a l then remove_first a l else l)
  = filter (fun x => negb (x =? a)) l.
Proof.
  intros Hnd. destruct (mem a l) eqn:E; [now apply remove_first_filter|].
  symmetry. apply forallb_filter_id. apply forallb_forall.
  intros x Hx. apply negb_true_iff, String.eqb_neq. intros ->.
  apply mem_In in Hx. congruence.
Qed.

Lemma remove_loop_filter :
  forall args hosts,
    NoDup hosts ->
    remove_loop args hosts = filter (fun h => negb (mem h args)) hosts.
Proof.
  unfold remove_loop.
  induction args as [|a args IH]; intros hosts Hnd; simpl.
  - symmetry. apply forallb_filter_id. now apply forallb_forall.
  - rewrite (remove_step_filter a hosts Hnd), IH by now apply NoDup_filter.
    rewrite filter_filter. apply filter_ext. intros x.
    now rewrite negb_orb.
Qed.

Lemma filter_named_empty (named l : list string) :
  (forall x, In x l -> In x named) ->
  filter (fun h => negb (mem h named)) l = [].
Proof.
  induction l as [|x l IH]; simpl; intros H; [reflexivity|].
  assert (E : mem x named = true) by (apply mem_In, H; now left).
  rewrite E. simpl. apply IH. intros y Hy. apply H. now right.
Qed.

End RemoveHosts.

(** [cmd_remove] takes away one occurrence of a host for each time it is
    named, as long as one is left: an argument is not stripped, and a host
    saved twice survives being named once. *)
Theorem cmd_remove_counts (s : store) (args : list string) (h : string) :
  count_occ string_dec (load_hosts (fst (cmd_remove s args))) h
  = (count_occ string_dec (load_hosts s) h - count_occ string_dec args h)%nat.
Proof. apply remove_loop_count. Qed.

(** On saved hosts without repetition, [cmd_remove] leaves exactly the
    hosts that are not named, in their order. *)
Theorem cmd_remove_filters (s : store) (args : list string) :
  NoDup (load_hosts s) ->
  load_hosts (fst (cmd_remove s args))
  = filter (fun h => negb (mem h args)) (load_hosts s).
Proof. intros H. now apply remove_loop_filter. Qed.

Lemma cmd_remove_filters_witness :
  load_hosts (fst (cmd_remove two_hosts ["example.com"; "nowhere"]))
  = filter (fun h => negb (mem h ["example.com"; "nowhere"]))
           (load_hosts two_hosts).
Proof.
  apply (cmd_remove_filters two_hosts ["example.com"; "nowhere"]).
  repeat constructor; simpl; intuition discriminate.
Defined.

(** [cmd_remove] reports, in ascending order and each once, the saved
    hosts of which no occurrence is left: a host saved more often than it
    is named loses an occurrence without being reported. *)
Theorem cmd_remove_reports (s : store) (args : list string) :
  StronglySorted (fun a b => (a <? b) = true) (removed_hosts s args) /\
  forall h,
    In h (removed_hosts s args) <->
    In h (load_hosts s) /\
    (count_occ string_dec (load_hosts s) h <= count_occ string_dec args h)%nat.
Proof.
  unfold removed_hosts.
  set (gone := filter (fun h => negb (mem h (remove_loop args (load_hosts s))))
                      (load_hosts s)).
  destruct (set_update_spec gone [] (NoDup_nil _)) as [Hnd Hin].
  destruct (sorted_strings_spec _ Hnd) as [Hperm Hs].
  split; [exact Hs|]. intros h.
  assert (Hmem : In h (sorted_strings (set_update [] gone)) <-> In h gone).
  { split; intros H.
    - apply (Permutation_in _ (Permutation_sym Hperm)) in H.
      apply Hin in H. destruct H as [[]|H]. exact H.
    - apply (Permutation_in _ Hperm). apply Hin. now right. }
  rewrite Hmem. subst gone. rewrite filter_In, negb_true_iff, count_occ_mem.
  rewrite remove_loop_count. split; intros [H1 H2]; split; auto; lia.
Qed.

(** Removing the hosts [cmd_add] has just reported brings back the saved
    list as it was. *)
Theorem cmd_remove_undoes_cmd_add (s : store) (args : list string) :
  NoDup (load_hosts s) ->
  load_hosts (fst (cmd_remove (fst (cmd_add s args)) (added_hosts s args)))
  = load_hosts s.
Proof.
  intros Hnd.
  unfold cmd_remove at 1. cbn [fst]. unfold save_hosts, load_hosts at 1.
  cbn [hosts_db].
  rewrite remove_loop_filter by now apply cmd_add_distinct.
  destruct (cmd_add_spec s args) as [-> [_ [Hin _]]].
  rewrite filter_app.
  assert (H1 : filter (fun h => negb (mem h (added_hosts s args))) (load_hosts s)
               = load_hosts s).
  { apply forallb_filter_id. apply forallb_forall. intros h Hh.
    apply negb_true_iff. destruct (mem h (added_hosts s args)) eqn:E;
      [|reflexivity].
    apply mem_In, Hin in E. tauto. }
  assert (H2 : filter (fun h => negb (mem h (added_hosts s args)))
                      (added_hosts s args) = []).
  { apply filter_named_empty. auto. }
  now rewrite H1, H2, app_nil_r.
Qed.

Lemma cmd_remove_undoes_cmd_add_witness :
  load_hosts
    (fst (cmd_remove (fst (cmd_add two_hosts ["  a "; "8.8.8.8"; "b"]))
                     (added_hosts two_hosts ["  a "; "8.8.8.8"; "b"])))
  = load_hosts two_hosts.
Proof.
  apply (cmd_remove_undoes_cmd_add two_hosts ["  a "; "8.8.8.8"; "b"]).
  repeat constructor; simpl; intuition discriminate.
Defined.

(** ** More on [ping_host] *)

Section MorePingHost.

Variable w : world.
Variable host : string.
Variable t : Z.

(** The loop holds a best latency only once an attempt has succeeded. *)
Lemma summarize_best_needs_success :
  forall outs best s last,
    (best = None \/ 0 < s)%Z ->
    (0 <= s)%Z ->
    (fst (fst (summarize outs best s last)) = None \/
     0 < snd (fst (summarize outs best s last)))%Z.
Proof.
  induction outs as [|[[ok lat] rc] outs IH]; intros best s last H Hs.
  - exact H.
  - cbn [summarize]. destruct ok.
    + apply IH; [right|]; lia.
    + now apply IH.
Qed.

Lemma count_successes_positive (outs : list outcome) :
  (0 < count_successes outs)%Z <-> exists o, In o outs /\ succeeded o = true.
Proof.
  unfold count_successes. split.
  - intros H. destruct (filter succeeded outs) as [|o l] eqn:E;
      [simpl in H; lia|].
    exists o. apply filter_In. rewrite E. now left.
  - intros [o Ho]. apply filter_In in Ho.
    destruct (filter succeeded outs); [contradiction|]. simpl. lia.
Qed.

Lemma answers_in :
  forall outs start o,
    answers w host t start outs -> In o outs ->
    exists i, (i < List.length outs)%nat /\
              attempt_result (run w (start + i) host t) = Ok o.
Proof.
  induction outs as [|x outs IH]; intros start o Hans Hin; [contradiction|].
  destruct Hans as [Hhd Htl]. destruct Hin as [->|Hin].
  - exists 0%nat. rewrite Nat.add_0_r. simpl. split; [lia|exact Hhd].
  - destruct (IH (S start) o Htl Hin) as [i [Hi Ho]].
    exists (S i). simpl. split; [lia|].
    now replace (start + S i)%nat with (S start + i)%nat by lia.
Qed.

Lemma attempt_succeeded (o : proc_outcome) (out : outcome) :
  attempt_result o = Ok out ->
  (succeeded out = true <-> exists stdout stderr, o = Completed 0 stdout stderr).
Proof.
  destruct o as [rc so se| |]; simpl; intros H; try discriminate;
    injection H as <-; unfold succeeded; simpl.
  - split.
    + intros E. apply Z.eqb_eq in E. subst. eauto.
    + intros [so' [se' E]]. injection E as -> _ _. reflexivity.
  - split; [discriminate|]. intros [so [se E]]. discriminate.
Qed.

End MorePingHost.

(** A measurement is reachable exactly when some attempt ended with exit
    status 0. *)
Theorem ping_host_reachable_iff
  (w : world) (host : string) (retries t : Z) (log log' : list call) (m : row) :
  ping_host w host retries t log = (Ok m, log') ->
  exists b,
    getitem m "reachable" = Ok (VBool b) /\
    (b = true <->
     exists i stdout stderr,
       (i < attempt_count retries)%nat /\
       run w (List.length log + i) host t = Completed 0 stdout stderr).
Proof.
  intros H.
  destruct (ping_host_ok_answers w host t retries log m log' H)
    as [outs [Hlen Hans]].
  rewrite (ping_host_returns w host t retries log outs Hlen Hans) in H.
  pose proof (summarize_successes outs None 0%Z None) as Hs.
  destruct (summarize outs None 0%Z None) as [[best s] last].
  simpl in Hs. injection H as <- _.
  eexists. split; [reflexivity|].
  rewrite Z.ltb_lt. replace s with (count_successes outs) by lia.
  rewrite count_successes_positive. split.
  - intros [o [Hin Hok]].
    destruct (answers_in w host t outs _ o Hans Hin) as [i [Hi Ho]].
    apply (attempt_succeeded _ _ Ho) in Hok.
    destruct Hok as [so [se E]]. exists i, so, se. split; [lia|exact E].
  - intros [i [so [se [Hi E]]]].
    destruct (answers_nth w host t outs _ i Hans ltac:(lia)) as [o [Hn Ho]].
    exists o. split; [eapply nth_error_In; eauto|].
    apply (attempt_succeeded _ _ Ho). eauto.
Qed.

Lemma ping_host_reachable_iff_witness :
  exists b,
    getitem
      [("host", VStr "h"); ("reachable", VBool true);
       ("latency_ms", VFloat float_2);
       ("timestamp", VStr "2024-05-01T12:00:00Z"); ("raw_exit", VInt 0);
       ("attempts", VInt 3); ("successes", VInt 2)] "reachable"
    = Ok (VBool b) /\
    (b = true <->
     exists i stdout stderr,
       (i < attempt_count 3)%nat /\
       run success_timeout_success (List.length (@nil call) + i) "h" 1000
       = Completed 0 stdout stderr).
Proof.
  apply (ping_host_reachable_iff success_timeout_success "h" 3 1000 []
           [("h", 1000%Z); ("h", 1000%Z); ("h", 1000%Z)]).
  vm_compute. reflexivity.
Defined.

(** A measurement that carries a latency is reachable. *)
Theorem ping_host_latency_needs_reachable
  (w : world) (host : string) (retries t : Z) (log log' : list call) (m : row) :
  ping_host w host retries t log = (Ok m, log') ->
  getitem m "reachable" = Ok (VBool false) ->
  getitem m "latency_ms" = Ok VNone.
Proof.
  intros H.
  destruct (ping_host_ok_answers w host t retries log m log' H)
    as [outs [Hlen Hans]].
  rewrite (ping_host_returns w host t retries log outs Hlen Hans) in H.
  pose proof (summarize_best_needs_success outs None 0%Z None
                (or_introl eq_refl) (Z.le_refl 0)) as Hb.
  destruct (summarize outs None 0%Z None) as [[best s] last].
  simpl in Hb. injection H as <- _. simpl.
  intros Hr. injection Hr as Hr. apply Z.ltb_ge in Hr.
  destruct Hb as [->|Hb]; [reflexivity|lia].
Qed.

Lemma ping_host_latency_needs_reachable_witness :
  getitem
    [("host", VStr "h"); ("reachable", VBool false); ("latency_ms", VNone);
     ("timestamp", VStr "2024-05-01T12:00:00Z"); ("raw_exit", VInt 124);
     ("attempts", VInt 3); ("successes", VInt 0)] "latency_ms"
  = Ok VNone.
Proof.
  apply (ping_host_latency_needs_reachable all_attempts_fail "h" 3 1000 []
           [("h", 1000%Z); ("h", 1000%Z); ("h", 1000%Z)]).
  - vm_compute. reflexivity.
  - reflexivity.
Defined.

(** ** The shape of a measurement *)

Section MeasurementShape.

Lemma binary_round_aux_not_negative (m e : Z) (l : location) :
  (0 <= m)%Z ->
  not_negative (binary_round_aux PyFloat.prec PyFloat.emax false m e l) = true.
Proof.
  intros H. unfold binary_round_aux.
  pose proof (shr_fexp_nonneg m e l H) as H1.
  destruct (shr_fexp PyFloat.prec PyFloat.emax m e l) as [mrs' e'].
  simpl in H1.
  pose proof (shr_fexp_nonneg _ e' loc_Exact
                (round_nearest_even_nonneg _ (loc_of_shr_record mrs') H1)) as H2.
  destruct (shr_fexp PyFloat.prec PyFloat.emax _ e' loc_Exact) as [mrs'' e''].
  simpl in H2.
  destruct (shr_m mrs'') as [|p|p]; [reflexivity| |lia].
  now destruct (e'' <=? PyFloat.emax - PyFloat.prec)%Z.
Qed.

Lemma of_ratio_not_negative (n d : Z) :
  (0 <= n)%Z -> (0 < d)%Z -> not_negative (PyFloat.of_ratio n d) = true.
Proof.
  intros Hn Hd. unfold PyFloat.of_ratio.
  destruct n as [|p|p]; [reflexivity| |lia].
  unfold SFdiv_core_binary.
  set (s := (0 - 0 - _)%Z).
  set (m' := match s with
             | Z0 => Z.pos p
             | Zpos _ => Z.shiftl (Z.pos p) s
             | Zneg _ => 0%Z
             end).
  assert (Hm' : (0 <= m')%Z).
  { subst m'. destruct s; try lia. apply Z.shiftl_nonneg. lia. }
  pose proof (Z.div_pos m' d Hm' Hd) as Hq.
  unfold Z.div in Hq.
  destruct (Z.div_eucl m' d) as [q r]. simpl in Hq.
  now apply binary_round_aux_not_negative.
Qed.

Lemma float_of_decimal_not_negative (text : string) (f : spec_float) :
  float_of_decimal text = Some f -> not_negative f = true.
Proof.
  unfold float_of_decimal.
  destruct (split_point text) as [ip [fp|]]; destruct ip as [|c ip];
    try discriminate.
  - destruct fp as [|c' fp]; [discriminate|].
    destruct (digits_value 0 _) as [n|] eqn:Hd; [|discriminate].
    intros H; injection H as <-.
    apply of_ratio_not_negative.
    + apply (digits_value_nonneg _ _ _ (Z.le_refl 0) Hd).
    + exact (Z.pow_pos_nonneg 10 (Z.of_nat (String.length (String c' fp)))
               ltac:(lia) ltac:(lia)).
  - destruct (digits_value 0 _) as [n|] eqn:Hd; [|discriminate].
    intros H; injection H as <-.
    apply of_ratio_not_negative; [|lia].
    apply (digits_value_nonneg _ _ _ (Z.le_refl 0) Hd).
Qed.

Lemma not_negative_number (f : spec_float) :
  not_negative f = true -> PyFloat.is_nan f = false.
Proof. now destruct f. Qed.

Lemma parse_latency_sign (out : string) (f : spec_float) :
  parse_latency out = Some f -> not_negative f = true.
Proof.
  unfold parse_latency.
  destruct (search LATENCY_RE out) as [[text|]|]; try discriminate.
  apply float_of_decimal_not_negative.
Qed.

End MeasurementShape.

(** The latency [ping_once] reads from an output is never negative and
    never a NaN: it is a float not below zero (it can be infinite, for a
    literal beyond the range of floats). *)
Theorem parse_latency_not_negative (out : string) (f : spec_float) :
  parse_latency out = Some f ->
  not_negative f = true /\ SFltb f (S754_zero false) = false.
Proof.
  intros H. apply parse_latency_sign in H.
  split; [exact H|]. destruct f as [s|[]| |[] m e]; try discriminate;
    reflexivity.
Qed.

Lemma parse_latency_not_negative_witness :
  not_negative float_1 = true /\ SFltb float_1 (S754_zero false) = false.
Proof.
  apply (parse_latency_not_negative "time<1 ms" float_1). reflexivity.
Defined.

(** A latency literal beyond the range of floats is read as infinity. *)
Lemma huge_latency_is_infinite :
  parse_latency huge_reply = Some (S754_infinity false).
Proof. vm_compute. reflexivity. Qed.

Section ProducedShape.

Lemma attempt_latency_not_negative (o : proc_outcome) (out : outcome)
  (l : spec_float) :
  attempt_result o = Ok out -> latency_of out = Some l ->
  not_negative l = true.
Proof.
  destruct o as [rc so se| |]; simpl; intros H; try discriminate;
    injection H as <-; unfold latency_of; simpl; intros Hl.
  - now apply parse_latency_sign in Hl.
  - discriminate.
Qed.

Lemma attempt_exit (o : proc_outcome) (out : outcome) :
  attempt_result o = Ok out -> exit_code o = Some (exit_of out).
Proof.
  destruct o as [rc so se| |]; simpl; intros H; try discriminate;
    now injection H as <-.
Qed.

Lemma reported_latency_in (outs : list outcome) (l : spec_float) :
  In l (reported_latencies outs) ->
  exists o, In o outs /\ latency_of o = Some l.
Proof.
  unfold reported_latencies. rewrite in_flat_map.
  intros [o [Ho Hl]]. exists o. split; [exact Ho|].
  destruct (succeeded o); [|contradiction].
  destruct (latency_of o) as [x|]; [|contradiction].
  destruct Hl as [<-|[]]. reflexivity.
Qed.

(** What [ping_host] returns, field by field. *)
Lemma ping_host_fields
  (w : world) (host : string) (retries t : Z) (log log' : list call) (m : row) :
  ping_host w host retries t log = (Ok m, log') ->
  exists b lat ts rc s,
    m = [("host", VStr host); ("reachable", VBool b); ("latency_ms", lat);
         ("timestamp", VStr ts); ("raw_exit", VInt rc);
         ("attempts", VInt (Z.max 1 retries)); ("successes", VInt s)] /\
    (lat = VNone \/ exists f, lat = VFloat f /\ not_negative f = true) /\
    exit_code (run w (List.length log + (attempt_count retries - 1)) host t)
    = Some rc.
Proof.
  intros H.
  destruct (ping_host_ok_answers w host t retries log m log' H)
    as [outs [Hlen Hans]].
  rewrite (ping_host_returns w host t retries log outs Hlen Hans) in H.
  pose proof (summarize_best outs None 0%Z None
                (answers_numbers w host t outs _ Hans)
                (fun l H => ltac:(discriminate))) as Hb.
  pose proof (summarize_last outs None 0%Z None) as Hl.
  destruct (summarize outs None 0%Z None) as [[best s] lrc].
  simpl in Hb, Hl.
  assert (Hpos : (0 < List.length outs)%nat)
    by (rewrite Hlen; unfold attempt_count; lia).
  destruct (answers_nth w host t outs _ (attempt_count retries - 1) Hans
              ltac:(lia)) as [o [Hn Ho]].
  assert (Hlast : lrc = Some (exit_of o)).
  { rewrite Hl. apply last_nth_error. rewrite length_map, Hlen.
    now rewrite nth_error_map, Hn. }
  rewrite Hlast in H. injection H as <- _.
  exists (0 <? s)%Z, (opt_value VFloat best). do 2 eexists. exists s.
  split; [reflexivity|]. split; [|now apply attempt_exit].
  destruct best as [f|]; [|now left]. right. exists f. split; [reflexivity|].
  destruct Hb as [_ [[Hin|Hin] _]]; [discriminate|].
  destruct (reported_latency_in _ _ Hin) as [o' [Ho' Hlat]].
  destruct (answers_in w host t outs _ o' Hans Ho') as [i [_ Hi]].
  apply (attempt_latency_not_negative _ _ _ Hi Hlat).
Qed.

End ProducedShape.

(** Every measurement [ping_host] returns has the seven fields [host],
    [reachable], [latency_ms], [timestamp], [raw_exit], [attempts] and
    [successes], in this order: the host asked for, a boolean, no latency
    or a float not below zero, a string, and integers; [raw_exit] is the
    exit code of the last attempt, whether it failed or not. *)
Theorem ping_host_measurement
  (w : world) (host : string) (retries t : Z) (log log' : list call) (m : row) :
  ping_host w host retries t log = (Ok m, log') ->
  exists b lat ts rc s,
    m = [("host", VStr host); ("reachable", VBool b); ("latency_ms", lat);
         ("timestamp", VStr ts); ("raw_exit", VInt rc);
         ("attempts", VInt (Z.max 1 retries)); ("successes", VInt s)] /\
    (lat = VNone \/ exists f, lat = VFloat f /\ not_negative f = true) /\
    exit_code (run w (List.length log + (attempt_count retries - 1)) host t)
    = Some rc.
Proof. apply ping_host_fields. Qed.

Lemma ping_host_measurement_witness :
  exists b lat ts rc s,
    [("host", VStr "h"); ("reachable", VBool true);
     ("latency_ms", VFloat float_2);
     ("timestamp", VStr "2024-05-01T12:00:00Z"); ("raw_exit", VInt 0);
     ("attempts", VInt 3); ("successes", VInt 2)]
    = [("host", VStr "h"); ("reachable", VBool b); ("latency_ms", lat);
       ("timestamp", VStr ts); ("raw_exit", VInt rc);
       ("attempts", VInt (Z.max 1 3)); ("successes", VInt s)] /\
    (lat = VNone \/ exists f, lat = VFloat f /\ not_negative f = true) /\
    exit_code
      (run success_timeout_success
           (List.length (@nil call) + (attempt_count 3 - 1)) "h" 1000)
    = Some rc.
Proof.
  apply (ping_host_measurement success_timeout_success "h" 3 1000 []
           [("h", 1000%Z); ("h", 1000%Z); ("h", 1000%Z)]).
  vm_compute. reflexivity.
Defined.

(** With [retries] at most 1 (zero and negative numbers too), [ping_host]
    does what it does with [retries = 1]: one attempt. *)
Theorem ping_host_retries_at_most_one
  (w : world) (host : string) (retries t : Z) (log : list call) :
  (retries <= 1)%Z ->
  ping_host w host retries t log = ping_host w host 1 t log /\
  snd (ping_host w host retries t log) = log ++ [(host, t)].
Proof.
  intros H. unfold ping_host.
  replace (Z.max 1 retries) with 1%Z by lia.
  split; [reflexivity|].
  change (Z.to_nat (Z.max 1 1)) with 1%nat. change (Z.to_nat 1) with 1%nat.
  cbn [attempts]. unfold io_bind, ping_once, ret.
  destruct (attempt_result (run w (List.length log) host t))
    as [[[ok lat] rc]|e]; [|reflexivity].
  now destruct ok.
Qed.

Lemma ping_host_retries_at_most_one_witness :
  ping_host three_successes "h" (-2) 1000 []
  = ping_host three_successes "h" 1 1000 [] /\
  snd (ping_host three_successes "h" (-2) 1000 []) = [] ++ [("h", 1000%Z)].
Proof.
  apply (ping_host_retries_at_most_one three_successes "h" (-2) 1000 []).
  lia.
Defined.

(** ** What the latency pattern captures *)

Section Captures.

Lemma rmatch_seq_in (r1 r2 : regex) (cap : option string) (s : string)
  (x : string * option string) :
  In x (rmatch (Seq r1 r2) cap s) <->
  exists s1 c1, In (s1, c1) (rmatch r1 cap s) /\ In x (rmatch r2 c1 s1).
Proof.
  cbn [rmatch]. rewrite in_flat_map. split.
  - intros [[s1 c1] [H1 H2]]. eauto.
  - intros [s1 [c1 [H1 H2]]]. exists (s1, c1). auto.
Qed.

Lemma star_keeps_cap
  (step : option string -> string -> list (string * option string)) :
  (forall cap s x, In x (step cap s) -> snd x = cap) ->
  forall fuel cap s x, In x (star step fuel cap s) -> snd x = cap.
Proof.
  intros Hstep. induction fuel as [|fuel IH]; intros cap s x; simpl.
  - intros [<-|[]]. reflexivity.
  - rewrite in_app_iff, in_flat_map. intros [[[s1 c1] [H1 H2]]|[<-|[]]].
    + pose proof (Hstep _ _ _ H1) as E. simpl in E. subst c1.
      destruct (String.length s1 <? String.length s)%nat; [|contradiction].
      now apply IH in H2.
    + reflexivity.
Qed.

(** A pattern without a group leaves group 1 as it was. *)
Lemma group_free_keeps_cap (r : regex) :
  group_free r = true ->
  forall cap s x, In x (rmatch r cap s) -> snd x = cap.
Proof.
  induction r as [p|r1 IH1 r2 IH2|r1 IH|r1 IH|r1 IH]; simpl; intros Hr cap s x.
  - destruct s as [|c s]; [intros []|].
    destruct (p c); [intros [<-|[]]; reflexivity|intros []].
  - apply andb_true_iff in Hr. destruct Hr as [Hr1 Hr2].
    rewrite in_flat_map. intros [[s1 c1] [H1 H2]].
    pose proof (IH1 Hr1 _ _ _ H1) as E. simpl in E. subst c1.
    now apply (IH2 Hr2) in H2.
  - rewrite in_app_iff. intros [H|[<-|[]]]; [now apply (IH Hr) in H|].
    reflexivity.
  - apply star_keeps_cap. apply (IH Hr).
  - discriminate.
Qed.

(** A repetition of a character class takes a run of its characters. *)
Lemma star_class_takes (p : ascii -> bool) :
  forall fuel cap s x,
    In x (star (rmatch (Chr p)) fuel cap s) ->
    exists u, s = (u ++ fst x)%string /\ all_chars p u = true.
Proof.
  induction fuel as [|fuel IH]; intros cap s x; cbn [star].
  - intros [<-|[]]. exists EmptyString. auto.
  - rewrite in_app_iff, in_flat_map.
    intros [[[s1 c1] [H1 H2]]|[<-|[]]]; [|exists EmptyString; auto].
    destruct s as [|c s]; simpl in H1; [contradiction|].
    destruct (p c) eqn:Hc; [|contradiction].
    destruct H1 as [H1|[]]. injection H1 as <- <-.
    destruct (String.length s <? String.length (String c s))%nat;
      [|contradiction].
    destruct (IH _ _ _ H2) as [u [Hu Hall]].
    exists (String c u). simpl. rewrite Hc, Hall. split; [|reflexivity].
    now rewrite Hu at 1.
Qed.

Lemma plus_class_takes (p : ascii -> bool) (cap : option string) (s : string)
  (x : string * option string) :
  In x (rmatch (Plus (Chr p)) cap s) ->
  exists u, s = (u ++ fst x)%string /\
            negb (u =? "") && all_chars p u = true.
Proof.
  unfold Plus. rewrite rmatch_seq_in. intros [s1 [c1 [H1 H2]]].
  destruct s as [|c s]; simpl in H1; [contradiction|].
  destruct (p c) eqn:Hc; [|contradiction].
  destruct H1 as [H1|[]]. injection H1 as <- <-.
  cbn [rmatch] in H2. destruct (star_class_takes p _ _ _ _ H2) as [u [Hu Hall]].
  exists (String c u). simpl. rewrite Hc, Hall. split; [|reflexivity].
  now rewrite Hu at 1.
Qed.

(** The number of the pattern takes a decimal literal. *)
Lemma number_takes (cap : option string) (s : string)
  (x : string * option string) :
  In x (rmatch (Seq (Plus (Chr is_digit))
                    (Opt (Seq (Chr (Ascii.eqb ".")) (Plus (Chr is_digit)))))
               cap s) ->
  exists text, s = (text ++ fst x)%string /\ is_decimal text.
Proof.
  rewrite rmatch_seq_in. intros [s1 [c1 [H1 H2]]].
  destruct (plus_class_takes _ _ _ _ H1) as [ip [Hip Hd]]. simpl in Hip.
  cbn [rmatch] in H2. apply in_app_or in H2.
  destruct H2 as [H2|[<-|[]]].
  - change (flat_map _ _) with
      (rmatch (Seq (Chr (Ascii.eqb ".")) (Plus (Chr is_digit))) c1 s1) in H2.
    rewrite rmatch_seq_in in H2. destruct H2 as [s2 [c2 [H2 H3]]].
    destruct s1 as [|c s1]; cbn [rmatch] in H2; [contradiction|].
    destruct (Ascii.eqb_spec "." c) as [<-|]; [|contradiction].
    destruct H2 as [H2|[]]. injection H2 as <- <-.
    destruct (plus_class_takes _ _ _ _ H3) as [fp [Hfp Hfd]].
    exists (ip ++ String "." fp)%string. split.
    + rewrite Hip, Hfp, append_assoc. reflexivity.
    + exists ip, (String "." fp). split; [reflexivity|].
      split; [exact Hd|]. simpl. exact Hfd.
  - exists ip. split; [exact Hip|].
    exists ip, EmptyString. split; [|split; [exact Hd|reflexivity]].
    clear. induction ip as [|c ip IH]; simpl; congruence.
Qed.

Lemma seq_captures (r1 r2 : regex) :
  (forall cap s x, In x (rmatch r2 cap s) -> captured_decimal (snd x)) ->
  forall cap s x, In x (rmatch (Seq r1 r2) cap s) -> captured_decimal (snd x).
Proof.
  intros H cap s x Hx. apply rmatch_seq_in in Hx.
  destruct Hx as [s1 [c1 [_ Hx]]]. now apply H in Hx.
Qed.

(** Every way the pattern matches captures a decimal literal. *)
Lemma LATENCY_RE_captures (cap : option string) (s : string)
  (x : string * option string) :
  In x (rmatch LATENCY_RE cap s) -> captured_decimal (snd x).
Proof.
  revert cap s x. unfold LATENCY_RE.
  do 6 apply seq_captures.
  intros cap s x Hx. apply rmatch_seq_in in Hx.
  destruct Hx as [s1 [c1 [H1 H2]]].
  apply group_free_keeps_cap in H2; [|reflexivity]. rewrite H2.
  cbn [rmatch] in H1. apply in_map_iff in H1.
  destruct H1 as [[s2 c2] [E H1]]. injection E as <- <-.
  destruct (number_takes _ _ _ H1) as [text [Hs Hdec]]. simpl in Hs.
  exists text. split; [|exact Hdec].
  now rewrite Hs, consumed_prefix.
Qed.

Lemma search_captures (s : string) (cap : option string) :
  search LATENCY_RE s = Some cap -> captured_decimal cap.
Proof.
  induction s as [|c s IH]; cbn [search].
  - destruct (rmatch LATENCY_RE None EmptyString) as [|[s1 c1] l] eqn:E;
      [discriminate|].
    intros H. injection H as <-.
    apply (LATENCY_RE_captures None EmptyString (s1, c1)). rewrite E. now left.
  - destruct (rmatch LATENCY_RE None (String c s)) as [|[s1 c1] l] eqn:E;
      [exact IH|].
    intros H. injection H as <-.
    apply (LATENCY_RE_captures None (String c s) (s1, c1)). rewrite E.
    now left.
Qed.

End Captures.

(** Wherever the latency pattern matches, what it captures is a decimal
    literal and [float] of it is a float: the [ValueError] branch of
    [ping_once] is never taken, and the latency is absent exactly when the
    pattern matches nowhere in the output. *)
Theorem latency_absent_iff_unmatched (out : string) :
  (search LATENCY_RE out = None /\ parse_latency out = None) \/
  (exists text f,
      search LATENCY_RE out = Some (Some text) /\
      is_decimal text /\
      float_of_decimal text = Some f /\
      parse_latency out = Some f).
Proof.
  unfold parse_latency.
  destruct (search LATENCY_RE out) as [cap|] eqn:E; [right|now left].
  destruct (search_captures out cap E) as [text [-> Hdec]].
  pose proof Hdec as [ip [frac [-> [Hip Hfrac]]]].
  destruct (float_of_decimal_some ip frac Hip Hfrac) as [f Hf].
  exists (ip ++ frac)%string, f. auto.
Qed.

(** ** [float] of a decimal literal

    [PyFloat.of_ratio], by which [float_of_decimal] reads a literal, is
    the division of the Standard Library's [SpecFloat]; it returns the
    binary64 value nearest to the quotient. *)

Section Binary64.

Local Open Scope Z_scope.

Section Digits.

Lemma digits2_pos_bounds (p : positive) :
  2 ^ (Zpos (digits2_pos p) - 1) <= Zpos p < 2 ^ Zpos (digits2_pos p).
Proof.
  induction p as [p IH|p IH|]; cbn [digits2_pos].
  - rewrite Pos2Z.inj_succ. change (Zpos p~1) with (2 * Zpos p + 1).
    replace (Z.succ (Zpos (digits2_pos p)) - 1) with (Z.succ (Zpos (digits2_pos p) - 1)) by lia.
    rewrite !Z.pow_succ_r by lia.
    remember (2 ^ (Zpos (digits2_pos p) - 1)) as a.
    remember (2 ^ Zpos (digits2_pos p)) as b. clear Heqa Heqb. lia.
  - rewrite Pos2Z.inj_succ. change (Zpos p~0) with (2 * Zpos p).
    replace (Z.succ (Zpos (digits2_pos p)) - 1) with (Z.succ (Zpos (digits2_pos p) - 1)) by lia.
    rewrite !Z.pow_succ_r by lia.
    remember (2 ^ (Zpos (digits2_pos p) - 1)) as a.
    remember (2 ^ Zpos (digits2_pos p)) as b. clear Heqa Heqb. lia.
  - simpl. lia.
Qed.

Lemma Zdigits2_bounds (n : Z) :
  0 < n -> 2 ^ (Zdigits2 n - 1) <= n < 2 ^ Zdigits2 n.
Proof.
  destruct n as [|p|p]; try lia. intros _. apply digits2_pos_bounds.
Qed.

Lemma Zdigits2_pos (n : Z) : 0 < n -> 0 < Zdigits2 n.
Proof. destruct n; simpl; lia. Qed.

End Digits.

Section Shift.

Lemma shr_1_located (mrs : shr_record) (A B : Z) :
  0 < B -> located mrs A B -> located (shr_1 mrs) A (2 * B).
Proof.
  intros HB. destruct mrs as [m r s]. unfold located. cbn [shr_m shr_r shr_s].
  intros [Hm [Hin Hloc]].
  destruct m as [|[p|p|]|p]; try lia; cbn [shr_1 shr_m shr_r shr_s].
  - destruct r, s; cbn [orb] in *; lia.
  - change (Zpos p~1) with (2 * Zpos p + 1) in *.
    remember (Zpos p * B) as P eqn:HP.
    assert (E1 : (2 * Zpos p + 1) * B = 2 * P + B) by lia.
    assert (E2 : (2 * Zpos p + 1 + 1) * B = 2 * P + 2 * B) by lia.
    assert (E3 : Zpos p * (2 * B) = 2 * P) by lia.
    assert (E4 : (Zpos p + 1) * (2 * B) = 2 * P + 2 * B) by lia.
    rewrite E1, E2 in *. rewrite E3, E4. clear HP E1 E2 E3 E4.
    destruct r, s; cbn [orb] in *; lia.
  - change (Zpos p~0) with (2 * Zpos p) in *.
    remember (Zpos p * B) as P eqn:HP.
    assert (E1 : (2 * Zpos p) * B = 2 * P) by lia.
    assert (E2 : (2 * Zpos p + 1) * B = 2 * P + B) by lia.
    assert (E3 : Zpos p * (2 * B) = 2 * P) by lia.
    assert (E4 : (Zpos p + 1) * (2 * B) = 2 * P + 2 * B) by lia.
    rewrite E1, E2 in *. rewrite E3, E4. clear HP E1 E2 E3 E4.
    destruct r, s; cbn [orb] in *; lia.
  - destruct r, s; cbn [orb] in *; lia.
Qed.

Lemma iter_shr_1_located (p : positive) :
  forall mrs A B,
    0 < B -> located mrs A B ->
    located (iter_pos shr_1 p mrs) A (B * 2 ^ Zpos p).
Proof.
  induction p as [p IH|p IH|]; intros mrs A B HB H; cbn [iter_pos].
  - apply shr_1_located in H; [|exact HB].
    apply IH in H; [|lia].
    assert (HB' : 0 < 2 * B * 2 ^ Zpos p) by (apply Z.mul_pos_pos; [lia|apply Z.pow_pos_nonneg; lia]).
    apply IH in H; [|exact HB'].
    replace (B * 2 ^ Zpos p~1) with (2 * B * 2 ^ Zpos p * 2 ^ Zpos p); [exact H|].
    change (Zpos p~1) with (2 * Zpos p + 1).
    replace (2 * Zpos p + 1) with (Zpos p + Zpos p + 1) by lia.
    rewrite !Z.pow_add_r by lia. rewrite Z.pow_1_r. ring.
  - apply IH in H; [|exact HB].
    assert (HB' : 0 < B * 2 ^ Zpos p) by (apply Z.mul_pos_pos; [lia|apply Z.pow_pos_nonneg; lia]).
    apply IH in H; [|exact HB'].
    replace (B * 2 ^ Zpos p~0) with (B * 2 ^ Zpos p * 2 ^ Zpos p); [exact H|].
    change (Zpos p~0) with (2 * Zpos p).
    replace (2 * Zpos p) with (Zpos p + Zpos p) by lia.
    rewrite Z.pow_add_r by lia. ring.
  - apply shr_1_located in H; [|exact HB].
    change (2 ^ 1) with 2. now rewrite Z.mul_comm.
Qed.

End Shift.

Section Stages.

Lemma shr_m_of_loc (m : Z) (l : location) : shr_m (shr_record_of_loc m l) = m.
Proof. now destruct l as [|[]]. Qed.

Lemma located_scale (mrs : shr_record) (A B c : Z) :
  0 < c -> located mrs A B -> located mrs (A * c) (B * c).
Proof.
  intros Hc. unfold located. destruct mrs as [m r s]. cbn [shr_m shr_r shr_s].
  intros [Hm [Hin Hloc]].
  remember (m * B) as P eqn:HP.
  assert (E1 : m * (B * c) = P * c) by (subst P; ring).
  assert (E2 : (m + 1) * (B * c) = (P + B) * c) by (subst P; ring).
  assert (E0 : (m + 1) * B = P + B) by (subst P; ring).
  rewrite E0 in Hin. rewrite E1, E2. clear HP E0 E1 E2.
  split; [exact Hm|]. split; [nia|].
  destruct r, s; nia.
Qed.

(** The remainder of a division tells where the quotient lies. *)
Lemma new_location_located (D q r : Z) :
  0 < D -> 0 <= q -> 0 <= r < D ->
  located (shr_record_of_loc q (new_location D r)) (q * D + r) D.
Proof.
  intros HD Hq Hr. unfold new_location.
  destruct (Z.even D) eqn:Heven.
  - unfold new_location_even. destruct (Z.eqb_spec r 0) as [->|Hne].
    + unfold located; cbn [shr_record_of_loc shr_m shr_r shr_s]. lia.
    + destruct (Z.compare_spec (2 * r) D) as [E|E|E];
        unfold located; cbn [shr_record_of_loc shr_m shr_r shr_s]; lia.
  - assert (Hodd : Z.odd D = true) by (rewrite <- Z.negb_even, Heven; reflexivity).
    apply Z.odd_spec in Hodd. destruct Hodd as [k Hk].
    unfold new_location_odd. destruct (Z.eqb_spec r 0) as [->|Hne].
    + unfold located; cbn [shr_record_of_loc shr_m shr_r shr_s]. lia.
    + destruct (Z.compare_spec (2 * r + 1) D) as [E|E|E];
        unfold located; cbn [shr_record_of_loc shr_m shr_r shr_s]; lia.
Qed.

Lemma fexp_eq (e : Z) : fexp 53 1024 e = Z.max (e - 53) (-1074).
Proof. reflexivity. Qed.

Lemma pow2_pos (k : Z) : 0 <= k -> 0 < 2 ^ k.
Proof. intros. apply Z.pow_pos_nonneg; lia. Qed.

(** The first shift of [binary_round_aux]: to 53 bits, or to the least
    exponent. *)
Lemma shr_fexp_first (q e0 : Z) (l : location) (A B : Z)
  (mrs1 : shr_record) (e1 : Z) :
  0 < B -> -1074 <= e0 ->
  located (shr_record_of_loc q l) A B ->
  2 ^ 52 <= q \/ e0 = -1074 ->
  shr_fexp 53 1024 q e0 l = (mrs1, e1) ->
  e0 <= e1 /\ located mrs1 A (B * 2 ^ (e1 - e0)) /\
  shr_m mrs1 < 2 ^ 53 /\ (2 ^ 52 <= shr_m mrs1 \/ e1 = -1074).
Proof.
  intros HB He0 Hloc Hq. unfold shr_fexp, shr. rewrite fexp_eq.
  assert (Hq0 : 0 <= q).
  { destruct Hloc as [H _]. now rewrite shr_m_of_loc in H. }
  assert (Hin : q * B <= A < (q + 1) * B).
  { destruct Hloc as [_ [H _]]. now rewrite shr_m_of_loc in H. }
  destruct (Z.eq_dec q 0) as [->|Hq1].
  - (* nothing to shift *)
    assert (He : e0 = -1074) by (destruct Hq as [Hq|Hq]; [simpl in Hq; lia|exact Hq]).
    subst e0. simpl. intros H. injection H as <- <-.
    replace (-1074 - -1074) with 0 by lia. rewrite Z.pow_0_r, Z.mul_1_r.
    rewrite shr_m_of_loc. split; [lia|]. split; [exact Hloc|].
    split; [reflexivity|]. now right.
  - assert (Hqpos : 0 < q) by lia.
    pose proof (Zdigits2_bounds q Hqpos) as [Dlo Dhi].
    pose proof (Zdigits2_pos q Hqpos) as Dpos.
    set (d := Zdigits2 q) in *.
    destruct (Z.max (d + e0 - 53) (-1074) - e0) as [|n|n] eqn:Hn.
    + intros H. injection H as <- <-.
      replace (e0 - e0) with 0 by lia. rewrite Z.pow_0_r, Z.mul_1_r.
      rewrite shr_m_of_loc. split; [lia|]. split; [exact Hloc|].
      assert (Hd : d <= 53) by lia.
      split; [|exact Hq].
      assert (2 ^ d <= 2 ^ 53) by (apply Z.pow_le_mono_r; lia). lia.
    + intros H. injection H as <- <-.
      pose proof (iter_shr_1_located n _ A B HB Hloc) as Hloc1.
      replace (e0 + Zpos n - e0) with (Zpos n) by lia.
      split; [lia|]. split; [exact Hloc1|].
      destruct Hloc1 as [Hm1 [Hin1 _]].
      set (m1 := shr_m (iter_pos shr_1 n (shr_record_of_loc q l))) in *.
      pose proof (pow2_pos (Zpos n) ltac:(lia)) as Hpn.
      set (pn := 2 ^ Zpos n) in *.
      assert (Hup : m1 * pn < 2 ^ d).
      { assert (m1 * pn * B < 2 ^ d * B); [|nia].
        replace (m1 * pn * B) with (m1 * (B * pn)) by ring.
        nia. }
      split.
      * assert (Hd : d <= Zpos n + 53) by lia.
        assert (2 ^ d <= 2 ^ (Zpos n + 53)) by (apply Z.pow_le_mono_r; lia).
        rewrite Z.pow_add_r in H by lia. fold pn in H. nia.
      * destruct (Z.eq_dec (e0 + Zpos n) (-1074)) as [E|E]; [now right|left].
        assert (Hd : d = Zpos n + 53) by lia.
        assert (Hlow : 2 ^ 52 * pn <= q).
        { replace (d - 1) with (52 + Zpos n) in Dlo by lia.
          rewrite Z.pow_add_r in Dlo by lia. exact Dlo. }
        assert (2 ^ 52 * pn * B < (m1 + 1) * pn * B); [|nia].
        replace ((m1 + 1) * pn * B) with ((m1 + 1) * (B * pn)) by ring.
        nia.
    + intros H. injection H as <- <-.
      replace (e0 - e0) with 0 by lia. rewrite Z.pow_0_r, Z.mul_1_r.
      rewrite shr_m_of_loc. split; [lia|]. split; [exact Hloc|].
      assert (Hd : d <= 53) by lia.
      split; [|exact Hq].
      assert (2 ^ d <= 2 ^ 53) by (apply Z.pow_le_mono_r; lia). lia.
Qed.

End Stages.

Section Rounding.

Lemma round_nearest_even_located (mrs : shr_record) (A B : Z) :
  0 < B -> located mrs A B ->
  let m := shr_m mrs in
  let mr := round_nearest_even m (loc_of_shr_record mrs) in
  (mr = m \/ mr = m + 1) /\
  2 * Z.abs (A - mr * B) <= B /\
  (2 * Z.abs (A - mr * B) = B -> Z.even mr = true).
Proof.
  intros HB. destruct mrs as [m r s]. unfold located.
  cbn [shr_m shr_r shr_s loc_of_shr_record].
  intros [Hm [Hin Hloc]].
  remember (m * B) as P eqn:HP.
  assert (E1 : (m + 1) * B = P + B) by (subst P; ring).
  destruct r, s; cbn [round_nearest_even].
  - (* above the half *)
    split; [now right|]. rewrite E1. split; [lia|]. intros H. lia.
  - (* the half *)
    destruct (Z.even m) eqn:Hev.
    + split; [now left|]. rewrite <- HP. split; [lia|]. auto.
    + split; [now right|]. rewrite E1. split; [lia|]. intros _.
      rewrite Z.even_add, Hev. reflexivity.
  - split; [now left|]. rewrite <- HP. split; [lia|]. intros H. lia.
  - split; [now left|]. rewrite <- HP. split; [lia|]. intros H. lia.
Qed.

(** The second shift of [binary_round_aux] and its result. *)
Lemma round_result (mr e1 : Z) :
  -1074 <= e1 -> 0 <= mr <= 2 ^ 53 ->
  (let '(mrs2, e2) := shr_fexp 53 1024 mr e1 loc_Exact in
   match shr_m mrs2 with
   | Z0 => S754_zero false
   | Zpos m => if e2 <=? 971 then S754_finite false m e2
               else S754_infinity false
   | Zneg _ => S754_nan
   end) = rounded_float mr e1.
Proof.
  intros He Hmr. unfold rounded_float, shr_fexp, shr. rewrite fexp_eq.
  destruct (Z.eqb_spec mr 0) as [->|Hne].
  - simpl Zdigits2.
    destruct (Z.max (0 + e1 - 53) (-1074) - e1) as [|n|n] eqn:Hn; try lia;
      reflexivity.
  - assert (Hpos : 0 < mr) by lia.
    pose proof (Zdigits2_bounds mr Hpos) as [Dlo Dhi].
    pose proof (Zdigits2_pos mr Hpos) as Dpos.
    destruct (Z.ltb_spec mr (2 ^ 53)) as [Hlt|Hge].
    + assert (Hd : Zdigits2 mr <= 53).
      { destruct (Z_le_gt_dec (Zdigits2 mr) 53) as [H|H]; [exact H|].
        assert (2 ^ 53 <= 2 ^ (Zdigits2 mr - 1)) by (apply Z.pow_le_mono_r; lia).
        lia. }
      destruct (Z.max (Zdigits2 mr + e1 - 53) (-1074) - e1) as [|n|n] eqn:Hn;
        try lia; cbn [shr_record_of_loc shr_m];
        destruct mr as [|p|p]; try lia; reflexivity.
    + assert (Hmr53 : mr = 2 ^ 53) by lia. subst mr.
      change (Zdigits2 (2 ^ 53)) with 54.
      replace (Z.max (54 + e1 - 53) (-1074) - e1) with 1 by lia.
      reflexivity.
Qed.

(** [binary_round_aux] rounds to the nearer neighbour on the grid, the
    even one at a tie. *)
Lemma binary_round_aux_grid (q e0 : Z) (l : location) (A B : Z) :
  0 < B -> -1074 <= e0 ->
  located (shr_record_of_loc q l) A B ->
  2 ^ 52 <= q \/ e0 = -1074 ->
  exists m1 e1 mr,
    e0 <= e1 /\
    0 <= m1 < 2 ^ 53 /\ (2 ^ 52 <= m1 \/ e1 = -1074) /\
    m1 * (B * 2 ^ (e1 - e0)) <= A < (m1 + 1) * (B * 2 ^ (e1 - e0)) /\
    (mr = m1 \/ mr = m1 + 1) /\
    2 * Z.abs (A - mr * (B * 2 ^ (e1 - e0))) <= B * 2 ^ (e1 - e0) /\
    (2 * Z.abs (A - mr * (B * 2 ^ (e1 - e0))) = B * 2 ^ (e1 - e0) ->
     Z.even mr = true) /\
    binary_round_aux 53 1024 false q e0 l = rounded_float mr e1.
Proof.
  intros HB He0 Hloc Hq. unfold binary_round_aux.
  destruct (shr_fexp 53 1024 q e0 l) as [mrs1 e1] eqn:H1.
  destruct (shr_fexp_first q e0 l A B mrs1 e1 HB He0 Hloc Hq H1)
    as [Hle [Hloc1 [Hlt Hcan]]].
  assert (HB1 : 0 < B * 2 ^ (e1 - e0))
    by (apply Z.mul_pos_pos; [exact HB|apply pow2_pos; lia]).
  destruct (round_nearest_even_located mrs1 A _ HB1 Hloc1)
    as [Hmr [Hhalf Htie]].
  pose proof Hloc1 as [Hm1 [Hin1 _]].
  exists (shr_m mrs1), e1,
    (round_nearest_even (shr_m mrs1) (loc_of_shr_record mrs1)).
  split; [exact Hle|]. split; [lia|]. split; [exact Hcan|].
  split; [exact Hin1|]. split; [exact Hmr|]. split; [exact Hhalf|].
  split; [exact Htie|].
  apply round_result; [lia|]. destruct Hmr as [-> | ->]; lia.
Qed.

End Rounding.

Section Division.

(** The quotient [SFdiv_core_binary] computes has 53 bits at least, or
    sits at the least exponent, and its location is that of the exact
    quotient. *)
Lemma div_core_located (N D q e0 : Z) (l : location) :
  0 < N -> 0 < D ->
  SFdiv_core_binary 53 1024 N 0 D 0 = (q, e0, l) ->
  -1074 <= e0 <= 0 /\
  located (shr_record_of_loc q l) (N * 2 ^ (- e0)) D /\
  (2 ^ 52 <= q \/ e0 = -1074).
Proof.
  intros HN HD. unfold SFdiv_core_binary. rewrite fexp_eq.
  pose proof (Zdigits2_bounds N HN) as [N1 N2].
  pose proof (Zdigits2_bounds D HD) as [D1 D2].
  pose proof (Zdigits2_pos N HN) as N0.
  pose proof (Zdigits2_pos D HD) as D0.
  set (d1 := Zdigits2 N) in *. set (d2 := Zdigits2 D) in *.
  set (e' := Z.min (Z.max (d1 + 0 - (d2 + 0) - 53) (-1074)) (0 - 0)).
  assert (He' : -1074 <= e' <= 0) by (subst e'; lia).
  assert (Hm' : match 0 - 0 - e' with
                | Zpos _ => Z.shiftl N (0 - 0 - e')
                | Z0 => N
                | Zneg _ => 0
                end = N * 2 ^ (- e')).
  { destruct (0 - 0 - e') as [|s|s] eqn:Hs; try lia.
    - replace (- e') with 0 by lia. rewrite Z.pow_0_r. lia.
    - rewrite Z.shiftl_mul_pow2 by lia. f_equal. f_equal. lia. }
  rewrite Hm'. clear Hm'.
  pose proof (Z_div_mod (N * 2 ^ (- e')) D ltac:(lia)) as Hdiv.
  destruct (Z.div_eucl (N * 2 ^ (- e')) D) as [q' r'].
  destruct Hdiv as [Heq Hr].
  intros H. injection H as <- <- <-.
  split; [exact He'|].
  assert (Hq0 : 0 <= q').
  { assert (0 <= N * 2 ^ (- e')).
    { apply Z.mul_nonneg_nonneg; [lia|]. apply Z.pow_nonneg. lia. }
    nia. }
  split.
  - rewrite Heq. replace (D * q' + r') with (q' * D + r') by ring.
    apply new_location_located; auto.
  - destruct (Z.eq_dec e' (-1074)) as [E|E]; [now right|left].
    assert (Hs : - e' >= d2 + 53 - d1) by (subst e'; lia).
    assert (Hbig : 2 ^ (d2 + 52) <= N * 2 ^ (- e')).
    { assert (2 ^ (d2 + 52) <= 2 ^ (d1 - 1 + - e'))
        by (apply Z.pow_le_mono_r; lia).
      rewrite (Z.pow_add_r 2 (d1 - 1) (- e')) in H by lia.
      assert (0 < 2 ^ (- e')) by (apply pow2_pos; lia).
      apply Z.le_trans with (2 ^ (d1 - 1) * 2 ^ (- e')); [exact H|].
      apply Z.mul_le_mono_nonneg_r; lia. }
    rewrite Z.pow_add_r in Hbig by lia.
    assert (0 < 2 ^ 52) by (apply pow2_pos; lia).
    nia.
Qed.

(** What [of_ratio] returns, on the grid of the floats around [N / D]:
    with [X = N * 2^1074] and the step [G = 2^(e1 + 1074)], the quotient
    lies between [m1 * G] and [(m1 + 1) * G], and the mantissa [mr] of the
    result is the nearer of [m1] and [m1 + 1], the even one at a tie. *)
Lemma of_ratio_grid (N D : Z) :
  0 < N -> 0 < D ->
  exists m1 e1 mr,
    -1074 <= e1 /\
    0 <= m1 < 2 ^ 53 /\ (2 ^ 52 <= m1 \/ e1 = -1074) /\
    m1 * (D * 2 ^ (e1 + 1074)) <= N * 2 ^ 1074
      < (m1 + 1) * (D * 2 ^ (e1 + 1074)) /\
    (mr = m1 \/ mr = m1 + 1) /\
    2 * Z.abs (N * 2 ^ 1074 - mr * (D * 2 ^ (e1 + 1074)))
      <= D * 2 ^ (e1 + 1074) /\
    (2 * Z.abs (N * 2 ^ 1074 - mr * (D * 2 ^ (e1 + 1074)))
       = D * 2 ^ (e1 + 1074) -> Z.even mr = true) /\
    PyFloat.of_ratio N D = rounded_float mr e1.
Proof.
  intros HN HD. unfold PyFloat.of_ratio, PyFloat.prec, PyFloat.emax.
  destruct N as [|p|p]; try lia.
  destruct (SFdiv_core_binary 53 1024 (Zpos p) 0 D 0) as [[q e0] l] eqn:Hdiv.
  destruct (div_core_located _ _ _ _ _ HN HD Hdiv) as [He0 [Hloc Hq]].
  assert (Hc : 0 < 2 ^ (1074 + e0)) by (apply pow2_pos; lia).
  apply (located_scale _ _ _ _ Hc) in Hloc.
  assert (HA : Zpos p * 2 ^ (- e0) * 2 ^ (1074 + e0) = Zpos p * 2 ^ 1074).
  { rewrite <- Z.mul_assoc, <- Z.pow_add_r by lia. f_equal. f_equal. lia. }
  rewrite HA in Hloc.
  assert (HBpos : 0 < D * 2 ^ (1074 + e0)) by (apply Z.mul_pos_pos; lia).
  destruct (binary_round_aux_grid q e0 l _ _ HBpos ltac:(lia) Hloc Hq)
    as [m1 [e1 [mr [Hle [Hm1 [Hcan [Hin [Hmr [Hhalf [Htie Hres]]]]]]]]]].
  assert (HB : D * 2 ^ (1074 + e0) * 2 ^ (e1 - e0) = D * 2 ^ (e1 + 1074)).
  { rewrite <- Z.mul_assoc, <- Z.pow_add_r by lia. f_equal. f_equal. lia. }
  rewrite HB in *.
  exists m1, e1, mr. split; [lia|]. auto 10.
Qed.

End Division.

Section NearestZ.

Lemma finite64_facts (s : bool) (m : positive) (e : Z) :
  is_finite64 (S754_finite s m e) ->
  -1074 <= e <= 971 /\ Zpos m < 2 ^ 53 /\ (2 ^ 52 <= Zpos m \/ e = -1074).
Proof.
  unfold is_finite64, bounded, canonical_mantissa. rewrite fexp_eq.
  intros H. apply andb_true_iff in H. destruct H as [H1 H2].
  apply Z.eqb_eq in H1. apply Z.leb_le in H2.
  change (1024 - 53) with 971 in H2.
  pose proof (digits2_pos_bounds m) as [Dlo Dhi].
  set (d := Zpos (digits2_pos m)) in *.
  assert (Hd : d <= 53) by lia.
  split; [lia|]. split.
  - assert (2 ^ d <= 2 ^ 53) by (apply Z.pow_le_mono_r; lia). lia.
  - destruct (Z.eq_dec e (-1074)) as [E|E]; [now right|left].
    assert (d = 53) by lia.
    replace (d - 1) with 52 in Dlo by lia. exact Dlo.
Qed.

Lemma finite64_intro (s : bool) (mr e : Z) :
  0 < mr < 2 ^ 53 -> (2 ^ 52 <= mr \/ e = -1074) -> -1074 <= e <= 971 ->
  is_finite64 (S754_finite s (Z.to_pos mr) e).
Proof.
  intros Hmr Hcan He.
  unfold is_finite64, bounded, canonical_mantissa. rewrite fexp_eq.
  apply andb_true_iff. split; [|apply Z.leb_le; change (1024 - 53) with 971; lia].
  apply Z.eqb_eq.
  pose proof (digits2_pos_bounds (Z.to_pos mr)) as [Dlo Dhi].
  rewrite Z2Pos.id in Dlo, Dhi by lia.
  set (d := Zpos (digits2_pos (Z.to_pos mr))) in *.
  assert (Hd0 : 0 < d) by (subst d; lia).
  assert (Hd : d <= 53).
  { destruct (Z_le_gt_dec d 53) as [H|H]; [exact H|].
    assert (2 ^ 53 <= 2 ^ (d - 1)) by (apply Z.pow_le_mono_r; lia). lia. }
  destruct Hcan as [Hcan|Hcan]; [|lia].
  assert (d = 53); [|lia].
  destruct (Z_lt_le_dec d 53) as [H|H]; [|lia].
  assert (2 ^ d <= 2 ^ 52) by (apply Z.pow_le_mono_r; lia). lia.
Qed.

(** No finite float lies strictly between two neighbours of the grid. *)
Lemma grid_gap (m1 e1 : Z) (u : spec_float) :
  -1074 <= e1 -> 0 <= m1 -> (2 ^ 52 <= m1 \/ e1 = -1074) ->
  is_finite64 u ->
  scaled u <= m1 * 2 ^ (e1 + 1074) \/ (m1 + 1) * 2 ^ (e1 + 1074) <= scaled u.
Proof.
  intros He1 Hm1 Hcan Hu.
  assert (HG : 0 < 2 ^ (e1 + 1074)) by (apply pow2_pos; lia).
  destruct u as [s| |  |s m e]; try contradiction.
  - left. simpl. nia.
  - destruct (finite64_facts s m e Hu) as [He [Hm Hcanu]].
    assert (HGu : 0 < 2 ^ (e + 1074)) by (apply pow2_pos; lia).
    destruct s; cbn [scaled cond_Zopp]; [left; nia|].
    destruct (Z_le_gt_dec e1 e) as [Hge|Hlt].
    + assert (E : 2 ^ (e + 1074) = 2 ^ (e - e1) * 2 ^ (e1 + 1074)).
      { rewrite <- Z.pow_add_r by lia. f_equal. lia. }
      rewrite E, Z.mul_assoc.
      set (k := Zpos m * 2 ^ (e - e1)).
      destruct (Z_le_gt_dec k m1) as [Hk|Hk].
      * left. apply Z.mul_le_mono_nonneg_r; lia.
      * right. apply Z.mul_le_mono_nonneg_r; lia.
    + left. destruct Hcan as [Hcan|Hcan]; [|lia].
      assert (E : 2 ^ (e1 + 1074) = 2 ^ (e1 - e) * 2 ^ (e + 1074)).
      { rewrite <- Z.pow_add_r by lia. f_equal. lia. }
      rewrite E, Z.mul_assoc.
      apply Z.mul_le_mono_nonneg_r; [lia|].
      assert (2 ^ 1 <= 2 ^ (e1 - e)) by (apply Z.pow_le_mono_r; lia).
      change (2 ^ 1) with 2 in H.
      change (2 ^ 53) with (2 ^ 52 * 2) in Hm. nia.
Qed.

End NearestZ.

Section NearestScaled.

Lemma nearest_on_grid (X g m1g mrg DU : Z) :
  0 < g -> m1g <= X < m1g + g ->
  mrg = m1g \/ mrg = m1g + g ->
  2 * Z.abs (X - mrg) <= g ->
  DU <= m1g \/ m1g + g <= DU ->
  Z.abs (X - mrg) <= Z.abs (X - DU) /\
  (Z.abs (X - mrg) = Z.abs (X - DU) ->
   DU = mrg \/ 2 * Z.abs (X - mrg) = g).
Proof. lia. Qed.

Lemma threshold_eq :
  (2 ^ 1024 - 2 ^ 970) * 2 ^ 1074 = (2 ^ 54 - 1) * 2 ^ 2044.
Proof. reflexivity. Qed.

Variables N D : Z.
Hypothesis HN : 0 < N.
Hypothesis HD : 0 < D.

Lemma of_ratio_nearest_scaled :
  nearest_scaled (N * 2 ^ 1074) D (PyFloat.of_ratio N D).
Proof.
  destruct (of_ratio_grid N D HN HD)
    as [m1 [e1 [mr [He1 [Hm1 [Hcan [Hin [Hmr [Hhalf [Htie ->]]]]]]]]]].
  set (X := N * 2 ^ 1074) in *.
  assert (HG : 0 < 2 ^ (e1 + 1074)) by (apply pow2_pos; lia).
  set (G := 2 ^ (e1 + 1074)) in *.
  assert (Hg : 0 < D * G) by (apply Z.mul_pos_pos; lia).
  set (g := D * G) in *.
  assert (Em1 : (m1 + 1) * g = m1 * g + g) by ring.
  rewrite Em1 in Hin.
  assert (Emr : mr * g = m1 * g \/ mr * g = m1 * g + g)
    by (destruct Hmr as [-> | ->]; [now left|right; ring]).
  (* every finite float, on the grid *)
  assert (Hgrid : forall u, is_finite64 u ->
             D * scaled u <= m1 * g \/ m1 * g + g <= D * scaled u).
  { intros u Hu.
    destruct (grid_gap m1 e1 u He1 ltac:(lia) Hcan Hu) as [H|H]; fold G in H.
    - left. subst g. rewrite Z.mul_assoc, (Z.mul_comm m1 D), <- Z.mul_assoc.
      apply Z.mul_le_mono_nonneg_l; lia.
    - right. rewrite <- Em1. subst g.
      rewrite Z.mul_assoc, (Z.mul_comm (m1 + 1) D), <- Z.mul_assoc.
      apply Z.mul_le_mono_nonneg_l; lia. }
  assert (Hnear : forall u, is_finite64 u ->
             Z.abs (X - mr * g) <= Z.abs (X - D * scaled u) /\
             (Z.abs (X - mr * g) = Z.abs (X - D * scaled u) ->
              D * scaled u = mr * g \/ Z.even mr = true)).
  { intros u Hu.
    destruct (nearest_on_grid X g (m1 * g) (mr * g) (D * scaled u)
                Hg Hin Emr Hhalf (Hgrid u Hu)) as [H1 H2].
    split; [exact H1|]. intros H. destruct (H2 H) as [E|E]; auto. }
  assert (HP : 0 < 2 ^ 2044) by (apply pow2_pos; lia).
  unfold rounded_float.
  destruct (Z.eqb_spec mr 0) as [Hz|Hnz].
  - (* underflow to zero *)
    subst mr. assert (m1 = 0) by lia. subst m1.
    assert (Ee : e1 = -1074) by (destruct Hcan as [H|H]; [simpl in H; lia|exact H]).
    assert (EG : G = 1) by (subst G; rewrite Ee; reflexivity).
    cbn [nearest_scaled]. rewrite threshold_eq. split; [exact I|]. split.
    + subst g. rewrite EG in *. nia.
    + intros u Hu. destruct (Hnear u Hu) as [H1 H2].
      cbn [scaled]. rewrite Z.mul_0_r. rewrite Z.mul_0_l in H1, H2.
      split; [exact H1|]. intros _. now right.
  - assert (Hpos : 0 < mr) by lia.
    destruct (Z.ltb_spec mr (2 ^ 53)) as [Hlt|Hge].
    + assert (Hcanr : 2 ^ 52 <= mr \/ e1 = -1074)
        by (destruct Hcan; [left; lia|now right]).
      destruct (Z.leb_spec e1 971) as [Hle|Hgt].
      * (* a finite float *)
        cbn [nearest_scaled]. rewrite threshold_eq.
        assert (Esc : D * scaled (S754_finite false (Z.to_pos mr) e1) = mr * g).
        { cbn [scaled cond_Zopp]. rewrite Z2Pos.id by lia. fold G.
          subst g. ring. }
        split; [apply finite64_intro; lia|]. split.
        -- assert (HGle : G <= 2 * 2 ^ 2044).
           { subst G. change (2 * 2 ^ 2044) with (2 ^ 2045).
             apply Z.pow_le_mono_r; lia. }
           assert (Hgle : g <= D * (2 * 2 ^ 2044))
             by (subst g; apply Z.mul_le_mono_nonneg_l; lia).
           set (P := 2 ^ 2044) in *.
           assert (H2X : 2 * X <= (2 * mr + 1) * g) by lia.
           destruct (Z.eq_dec (2 * Z.abs (X - mr * g)) g) as [Ht|Ht].
           ++ pose proof (Htie Ht) as Hev.
              assert (mr <> 2 ^ 53 - 1).
              { intros E. rewrite E in Hev. discriminate. }
              assert (Hb : (2 * mr + 1) * g <= (2 ^ 54 - 3) * (D * (2 * P))).
              { apply Z.mul_le_mono_nonneg; lia. }
              nia.
           ++ assert (H2X' : 2 * X < (2 * mr + 1) * g) by lia.
              assert (Hb : (2 * mr + 1) * g <= (2 ^ 54 - 1) * (D * (2 * P))).
              { apply Z.mul_le_mono_nonneg; lia. }
              nia.
        -- intros u Hu. rewrite Esc. destruct (Hnear u Hu) as [H1 H2].
           split; [exact H1|]. intros H.
           destruct (H2 H) as [E|E].
           ++ left. rewrite <- Esc in E.
              apply Z.mul_cancel_l in E; [exact E|lia].
           ++ right. cbn [even_mantissa]. rewrite Z2Pos.id by lia. exact E.
      * (* beyond the greatest exponent *)
        cbn [nearest_scaled]. rewrite threshold_eq.
        assert (Hm52 : 2 ^ 52 <= m1) by (destruct Hcan; lia).
        assert (HGge : 2 ^ 2046 <= G)
          by (subst G; apply Z.pow_le_mono_r; lia).
        change (2 ^ 2046) with (4 * 2 ^ 2044) in HGge.
        set (P := 2 ^ 2044) in *.
        assert (Hgge : D * (4 * P) <= g)
          by (subst g; apply Z.mul_le_mono_nonneg_l; lia).
        assert (2 ^ 52 * (D * (4 * P)) <= m1 * g)
          by (apply Z.mul_le_mono_nonneg; lia).
        nia.
    + (* rounding up has carried into a 54th bit *)
      assert (Emr53 : mr = 2 ^ 53) by lia.
      assert (Em153 : m1 = 2 ^ 53 - 1) by lia.
      destruct (Z.leb_spec (e1 + 1) 971) as [Hle|Hgt].
      * cbn [nearest_scaled]. rewrite threshold_eq.
        assert (Esc : D * scaled (S754_finite false (Z.to_pos (2 ^ 52)) (e1 + 1))
                      = mr * g).
        { cbn [scaled cond_Zopp]. rewrite Z2Pos.id by (apply pow2_pos; lia).
          replace (e1 + 1 + 1074) with (1 + (e1 + 1074)) by lia.
          rewrite Z.pow_add_r by lia. fold G. subst g. rewrite Emr53.
          change (2 ^ 53) with (2 ^ 52 * 2 ^ 1). ring. }
        split; [apply finite64_intro; [split; [apply pow2_pos; lia|reflexivity]|now left|lia]|].
        split.
        -- assert (HGle : 2 * G <= 2 * 2 ^ 2044).
           { subst G. apply Z.mul_le_mono_nonneg_l; [lia|].
             apply Z.pow_le_mono_r; lia. }
           set (P := 2 ^ 2044) in *.
           assert (Hgle : g <= D * P)
             by (subst g; apply Z.mul_le_mono_nonneg_l; lia).
           assert (X < 2 ^ 53 * g) by (rewrite Em153 in Hin; lia).
           assert (2 ^ 53 * g <= 2 ^ 53 * (D * P))
             by (apply Z.mul_le_mono_nonneg_l; lia).
           nia.
        -- intros u Hu. rewrite Esc. destruct (Hnear u Hu) as [H1 H2].
           split; [exact H1|]. intros H.
           destruct (H2 H) as [E|E].
           ++ left. rewrite <- Esc in E.
              apply Z.mul_cancel_l in E; [exact E|lia].
           ++ right. reflexivity.
      * cbn [nearest_scaled]. rewrite threshold_eq.
        assert (HGge : 2 ^ 2045 <= G)
          by (subst G; apply Z.pow_le_mono_r; lia).
        change (2 ^ 2045) with (2 * 2 ^ 2044) in HGge.
        set (P := 2 ^ 2044) in *.
        assert (Hgge : D * (2 * P) <= g)
          by (subst g; apply Z.mul_le_mono_nonneg_l; lia).
        assert (H2X : (2 * mr - 1) * g <= 2 * X) by lia.
        rewrite Emr53 in H2X.
        assert ((2 * 2 ^ 53 - 1) * (D * (2 * P)) <= (2 * 2 ^ 53 - 1) * g)
          by (apply Z.mul_le_mono_nonneg_l; lia).
        nia.
Qed.

End NearestScaled.

Section NearestQ.

Lemma Qpower2_scaled (e : Z) :
  -1074 <= e ->
  (2 ^ e == inject_Z (2 ^ (e + 1074)) / inject_Z (2 ^ 1074))%Q.
Proof.
  intros He.
  rewrite (Zpower_Qpower 2 (e + 1074)) by lia.
  rewrite (Zpower_Qpower 2 1074) by lia.
  change (inject_Z 2) with 2%Q.
  rewrite Qpower_plus by discriminate.
  rewrite Qdiv_mult_l; [reflexivity|].
  rewrite <- (Zpower_Qpower 2 1074) by lia.
  intros H. apply (proj1 (inject_Z_injective (2 ^ 1074) 0)) in H.
  pose proof (pow2_pos 1074 ltac:(lia)). lia.
Qed.

Lemma float_Q_scaled (u : spec_float) :
  is_finite64 u ->
  (float_Q u == inject_Z (scaled u) / inject_Z (2 ^ 1074))%Q.
Proof.
  destruct u as [s|s| |s m e]; try contradiction.
  - intros _. reflexivity.
  - intros H. destruct (finite64_facts s m e H) as [He _].
    cbn [float_Q scaled]. rewrite (Qpower2_scaled e) by lia.
    rewrite inject_Z_mult. unfold Qdiv. ring.
Qed.

Variables N D : Z.
Hypothesis HD : 0 < D.

Lemma distance_scaled (u : spec_float) :
  is_finite64 u ->
  (Qabs (inject_Z N / inject_Z D - float_Q u)
   == inject_Z (Z.abs (N * 2 ^ 1074 - D * scaled u))
      / inject_Z (D * 2 ^ 1074))%Q.
Proof.
  intros Hu. rewrite (float_Q_scaled u Hu).
  assert (HD' : ~ (inject_Z D == 0)%Q).
  { intros H. apply (proj1 (inject_Z_injective D 0)) in H. lia. }
  assert (HP : ~ (inject_Z (2 ^ 1074) == 0)%Q).
  { intros H. apply (proj1 (inject_Z_injective (2 ^ 1074) 0)) in H.
    pose proof (pow2_pos 1074 ltac:(lia)). lia. }
  assert (E : (inject_Z N / inject_Z D
               - inject_Z (scaled u) / inject_Z (2 ^ 1074)
               == inject_Z (N * 2 ^ 1074 - D * scaled u)
                  / inject_Z (D * 2 ^ 1074))%Q).
  { rewrite !inject_Z_mult. unfold Zminus.
    rewrite inject_Z_plus, inject_Z_opp, !inject_Z_mult. field. auto. }
  rewrite E. unfold Qdiv. rewrite Qabs_Qmult.
  change (Qabs (inject_Z (N * 2 ^ 1074 - D * scaled u)))
    with (inject_Z (Z.abs (N * 2 ^ 1074 - D * scaled u))).
  rewrite Qabs_pos; [reflexivity|].
  apply Qlt_le_weak, Qinv_lt_0_compat.
  rewrite <- (Zlt_Qlt 0). apply Z.mul_pos_pos; [exact HD|].
  apply pow2_pos. lia.
Qed.

Lemma over_same (a b c : Z) :
  0 < c ->
  ((inject_Z a / inject_Z c <= inject_Z b / inject_Z c)%Q <-> a <= b) /\
  ((inject_Z a / inject_Z c == inject_Z b / inject_Z c)%Q <-> a = b).
Proof.
  intros Hc.
  assert (Hinv : (0 < / inject_Z c)%Q).
  { apply Qinv_lt_0_compat. now rewrite <- (Zlt_Qlt 0). }
  unfold Qdiv. split.
  - rewrite Qmult_le_r by exact Hinv. rewrite <- Zle_Qle. reflexivity.
  - split.
    + intros H. apply Qmult_inj_r in H.
      * now apply (proj1 (inject_Z_injective a b)) in H.
      * intros E. rewrite E in Hinv. discriminate.
    + intros ->. reflexivity.
Qed.

End NearestQ.

Section OfRatio.

Lemma nearest_scaled_Q (N D : Z) (v : spec_float) :
  0 < D -> nearest_scaled (N * 2 ^ 1074) D v ->
  nearest_binary64 (inject_Z N / inject_Z D) v.
Proof.
  intros HD.
  assert (HDQ : (0 < inject_Z D)%Q) by now rewrite <- (Zlt_Qlt 0).
  assert (HP : 0 < 2 ^ 1074) by (apply pow2_pos; lia).
  assert (HDP : 0 < D * 2 ^ 1074) by (apply Z.mul_pos_pos; lia).
  assert (Hfin : forall v0, is_finite64 v0 ->
            N * 2 ^ 1074 < D * ((2 ^ 1024 - 2 ^ 970) * 2 ^ 1074) /\
            (forall u, is_finite64 u ->
               Z.abs (N * 2 ^ 1074 - D * scaled v0)
               <= Z.abs (N * 2 ^ 1074 - D * scaled u) /\
               (Z.abs (N * 2 ^ 1074 - D * scaled v0)
                = Z.abs (N * 2 ^ 1074 - D * scaled u) ->
                scaled u = scaled v0 \/ even_mantissa v0)) ->
            (inject_Z N / inject_Z D < inject_Z (2 ^ 1024 - 2 ^ 970))%Q /\
            forall u, is_finite64 u ->
              (Qabs (inject_Z N / inject_Z D - float_Q v0)
               <= Qabs (inject_Z N / inject_Z D - float_Q u))%Q /\
              ((Qabs (inject_Z N / inject_Z D - float_Q v0)
                == Qabs (inject_Z N / inject_Z D - float_Q u))%Q ->
               (float_Q u == float_Q v0)%Q \/ even_mantissa v0)).
  { intros v0 Hv0 [Hlt Hall]. split.
    - apply Qlt_shift_div_r; [exact HDQ|].
      rewrite <- inject_Z_mult, <- Zlt_Qlt.
      set (T := 2 ^ 1024 - 2 ^ 970) in *.
      assert (N * 2 ^ 1074 < (T * D) * 2 ^ 1074) by lia.
      apply Z.mul_lt_mono_pos_r in H; lia.
    - intros u Hu. destruct (Hall u Hu) as [H1 H2].
      rewrite (distance_scaled N D HD v0 Hv0), (distance_scaled N D HD u Hu).
      destruct (over_same (Z.abs (N * 2 ^ 1074 - D * scaled v0))
                  (Z.abs (N * 2 ^ 1074 - D * scaled u)) _ HDP) as [Hle Heq].
      split; [now apply Hle|].
      intros H. apply Heq in H. destruct (H2 H) as [E|E]; [left|now right].
      rewrite (float_Q_scaled u Hu), (float_Q_scaled v0 Hv0), E.
      reflexivity. }
  destruct v as [[]|[]| |[] m e]; cbn [nearest_scaled nearest_binary64];
    try contradiction.
  - intros [Hv H]. split; [exact Hv|]. now apply (Hfin (S754_zero false)).
  - intros H. apply Qle_shift_div_l; [exact HDQ|].
    rewrite <- inject_Z_mult, <- Zle_Qle.
    set (T := 2 ^ 1024 - 2 ^ 970) in *.
    assert ((T * D) * 2 ^ 1074 <= N * 2 ^ 1074) by lia.
    apply Z.mul_le_mono_pos_r in H0; lia.
  - intros [Hv H]. split; [exact Hv|].
    now apply (Hfin (S754_finite false m e)).
Qed.

(** [of_ratio n d] is the binary64 value nearest to [n / d]. *)
Lemma of_ratio_nearest (N D : Z) :
  0 <= N -> 0 < D ->
  nearest_binary64 (inject_Z N / inject_Z D) (PyFloat.of_ratio N D).
Proof.
  intros HN HD. destruct (Z.eq_dec N 0) as [->|Hne].
  - cbn [PyFloat.of_ratio nearest_binary64]. split; [exact I|]. split.
    + unfold Qdiv. rewrite Qmult_0_l. rewrite <- (Zlt_Qlt 0). reflexivity.
    + intros u Hu.
      assert (E : (Qabs (inject_Z 0 / inject_Z D - float_Q (S754_zero false))
                   == 0)%Q).
      { cbn [float_Q]. unfold Qdiv. rewrite Qmult_0_l. reflexivity. }
      rewrite E. split; [apply Qabs_nonneg|]. intros _. now right.
  - apply nearest_scaled_Q; [exact HD|].
    apply of_ratio_nearest_scaled; lia.
Qed.

End OfRatio.

Section Literal.

Lemma digits_number_nonneg (s : string) : 0 <= digits_number s.
Proof.
  induction s as [|c s IH]; simpl; [lia|].
  assert (0 <= 10 ^ Z.of_nat (String.length s)) by (apply Z.pow_nonneg; lia).
  nia.
Qed.

Lemma digits_value_number (s : string) :
  all_chars is_digit s = true ->
  forall acc,
    digits_value acc s
    = Some (acc * 10 ^ Z.of_nat (String.length s) + digits_number s).
Proof.
  induction s as [|c s IH]; intros H acc.
  - simpl. f_equal. lia.
  - cbn [all_chars] in H. apply andb_true_iff in H. destruct H as [Hc Hs].
    cbn [digits_value digits_number String.length]. rewrite Hc, (IH Hs).
    f_equal. rewrite Nat2Z.inj_succ, Z.pow_succ_r by lia. ring.
Qed.

Lemma digits_number_app (a b : string) :
  digits_number (a ++ b)
  = digits_number a * 10 ^ Z.of_nat (String.length b) + digits_number b.
Proof.
  induction a as [|c a IH]; cbn [append digits_number]; [lia|].
  rewrite IH, length_append, Nat2Z.inj_add, Z.pow_add_r by lia. ring.
Qed.

Lemma nearest_binary64_wd (x y : Q) (v : spec_float) :
  (x == y)%Q -> nearest_binary64 x v -> nearest_binary64 y v.
Proof.
  intros E. destruct v as [[]|[]| |[] m e]; cbn [nearest_binary64];
    try contradiction.
  - intros [H1 [H2 H3]]. split; [exact H1|]. split; [now rewrite <- E|].
    intros u Hu. destruct (H3 u Hu) as [H4 H5]. rewrite <- E. auto.
  - intros H. now rewrite <- E.
  - intros [H1 [H2 H3]]. split; [exact H1|]. split; [now rewrite <- E|].
    intros u Hu. destruct (H3 u Hu) as [H4 H5]. rewrite <- E. auto.
Qed.

(** [float] of a decimal literal divides its digits, read as an integer,
    by the power of ten of the number of digits after the point. *)
Lemma float_of_decimal_ratio (ip frac : string) :
  nonempty_digits ip = true -> is_fraction frac = true ->
  float_of_decimal (ip ++ frac)
  = Some (PyFloat.of_ratio
            (digits_number ip * 10 ^ Z.of_nat (String.length (fraction_digits frac))
             + digits_number (fraction_digits frac))
            (10 ^ Z.of_nat (String.length (fraction_digits frac)))).
Proof.
  intros Hip Hfrac. apply andb_true_iff in Hip.
  destruct Hip as [Hne Hall]. unfold float_of_decimal.
  destruct frac as [|c fp].
  - assert (E : (ip ++ "")%string = ip)
      by (clear; induction ip as [|x s IH]; simpl; congruence).
    rewrite E, (split_point_no_point ip Hall).
    destruct ip as [|x s]; [discriminate|].
    rewrite (digits_value_number _ Hall 0).
    cbn [fraction_digits digits_number String.length]. do 2 f_equal.
    change (10 ^ Z.of_nat 0) with 1. lia.
  - simpl in Hfrac. apply andb_true_iff in Hfrac.
    destruct Hfrac as [Hc Hfp]. apply Ascii.eqb_eq in Hc. subst c.
    apply andb_true_iff in Hfp. destruct Hfp as [Hfne Hfall].
    rewrite (split_point_digits ip fp Hall).
    destruct ip as [|x s]; [discriminate|].
    destruct fp as [|y fp']; [discriminate|].
    assert (Hboth : all_chars is_digit (String x s ++ String y fp') = true)
      by (rewrite all_chars_app, Hall, Hfall; reflexivity).
    cbv beta iota.
    rewrite (digits_value_number _ Hboth 0).
    cbn [fraction_digits]. do 2 f_equal.
    rewrite digits_number_app. lia.
Qed.

(** [float] of a decimal literal is the binary64 value nearest to the
    number the literal writes. *)
Lemma float_of_decimal_nearest (ip frac : string) :
  nonempty_digits ip = true -> is_fraction frac = true ->
  exists v,
    float_of_decimal (ip ++ frac) = Some v /\
    nearest_binary64 (literal_value ip frac) v.
Proof.
  intros Hip Hfrac. rewrite (float_of_decimal_ratio ip frac Hip Hfrac).
  eexists. split; [reflexivity|]. unfold literal_value.
  set (fp := fraction_digits frac).
  set (k := 10 ^ Z.of_nat (String.length fp)).
  assert (Hk : 0 < k) by (apply Z.pow_pos_nonneg; lia).
  apply (nearest_binary64_wd
           (inject_Z (digits_number ip * k + digits_number fp) / inject_Z k)).
  - rewrite inject_Z_plus, inject_Z_mult. field.
    intros E. apply (proj1 (inject_Z_injective k 0)) in E. lia.
  - apply of_ratio_nearest; [|exact Hk].
    pose proof (digits_number_nonneg ip). pose proof (digits_number_nonneg fp). nia.
Qed.

End Literal.

End Binary64.

(** ** The texts the latency pattern matches *)

Section Shape.

Lemma reads_latency_parts (kw sep gap1 ip frac gap2 unit : string) :
  reads_latency kw sep gap1 ip frac gap2 unit = true <->
  spelled "time" kw = true /\
  (sep = "" \/ sep = "<" \/ sep = "=") /\
  all_chars is_space gap1 = true /\
  nonempty_digits ip = true /\ is_fraction frac = true /\
  all_chars is_space gap2 = true /\
  spelled "ms" unit = true.
Proof.
  unfold reads_latency. rewrite !andb_true_iff, !orb_true_iff.
  rewrite !String.eqb_eq. tauto.
Qed.

Lemma chr_takes (p : ascii -> bool) (cap : option string) (s : string)
  (x : string * option string) :
  In x (rmatch (Chr p) cap s) ->
  exists c, s = String c (fst x) /\ p c = true /\ snd x = cap.
Proof.
  cbn [rmatch]. destruct s as [|c s]; [intros []|].
  destruct (p c) eqn:Hc; [|intros []].
  intros [<-|[]]. exists c. auto.
Qed.

(** Every way the pattern matches reads a text of that shape, and
    captures its literal. *)
Lemma LATENCY_RE_shape (cap : option string) (s : string)
  (x : string * option string) :
  In x (rmatch LATENCY_RE cap s) ->
  exists kw sep gap1 ip frac gap2 unit,
    s = (kw ++ sep ++ gap1 ++ ip ++ frac ++ gap2 ++ unit ++ fst x)%string /\
    reads_latency kw sep gap1 ip frac gap2 unit = true /\
    snd x = Some (ip ++ frac)%string.
Proof.
  unfold LATENCY_RE, letter. intros H.
  apply rmatch_seq_in in H. destruct H as [s1 [k1 [H1 H]]].
  apply chr_takes in H1. destruct H1 as [c1 [E1 [P1 _]]]. cbn [fst] in E1.
  apply rmatch_seq_in in H. destruct H as [s2 [k2 [H2 H]]].
  apply chr_takes in H2. destruct H2 as [c2 [E2 [P2 _]]]. cbn [fst] in E2.
  apply rmatch_seq_in in H. destruct H as [s3 [k3 [H3 H]]].
  apply chr_takes in H3. destruct H3 as [c3 [E3 [P3 _]]]. cbn [fst] in E3.
  apply rmatch_seq_in in H. destruct H as [s4 [k4 [H4 H]]].
  apply chr_takes in H4. destruct H4 as [c4 [E4 [P4 _]]]. cbn [fst] in E4.
  apply rmatch_seq_in in H. destruct H as [s5 [k5 [H5 H]]].
  assert (Hsep : exists sep, s4 = (sep ++ s5)%string /\
                             (sep = "" \/ sep = "<" \/ sep = "=")).
  { cbn [rmatch] in H5. apply in_app_or in H5. destruct H5 as [H5|[H5|[]]].
    - destruct s4 as [|c s4]; [contradiction|].
      destruct (Ascii.eqb c "=" || Ascii.eqb c "<") eqn:Hc; [|contradiction].
      destruct H5 as [H5|[]]. injection H5 as <- _.
      exists (String c ""). split; [reflexivity|].
      apply orb_true_iff in Hc.
      destruct Hc as [Hc|Hc]; apply Ascii.eqb_eq in Hc; subst c; auto.
    - injection H5 as <- _. exists "". auto. }
  destruct Hsep as [sep [E5 Hsep]].
  apply rmatch_seq_in in H. destruct H as [s6 [k6 [H6 H]]].
  cbn [rmatch] in H6. apply star_class_takes in H6.
  destruct H6 as [gap1 [E6 G1]]. cbn [fst] in E6.
  apply rmatch_seq_in in H. destruct H as [s7 [k7 [H7 H]]].
  cbn [rmatch] in H7. apply in_map_iff in H7.
  destruct H7 as [[s7' k7'] [E7 H7]]. injection E7 as <- <-.
  apply number_takes in H7. destruct H7 as [text [E7 [ip [frac [-> [Hip Hfrac]]]]]].
  cbn [fst] in E7.
  pose proof H as Hcap.
  apply group_free_keeps_cap in Hcap; [|reflexivity].
  apply rmatch_seq_in in H. destruct H as [s8 [k8 [H8 H]]].
  cbn [rmatch] in H8. apply star_class_takes in H8.
  destruct H8 as [gap2 [E8 G2]]. cbn [fst] in E8.
  apply rmatch_seq_in in H. destruct H as [s9 [k9 [H9 H]]].
  apply chr_takes in H9. destruct H9 as [u1 [E9 [U1 _]]]. cbn [fst] in E9.
  apply chr_takes in H. destruct H as [u2 [E10 [U2 _]]].
  exists (String c1 (String c2 (String c3 (String c4 "")))), sep, gap1,
    ip, frac, gap2, (String u1 (String u2 "")).
  split; [|split].
  - rewrite E1, E2, E3, E4, E5, E6, E7, E8, E9, E10.
    cbn [append]. rewrite <- !append_assoc. reflexivity.
  - apply reads_latency_parts.
    assert (Hkw : spelled "time"
                    (String c1 (String c2 (String c3 (String c4 ""))))
                  = true).
    { cbn [spelled].
      change (ascii_of_nat (code "t" - 32)) with "T"%char.
      change (ascii_of_nat (code "i" - 32)) with "I"%char.
      change (ascii_of_nat (code "m" - 32)) with "M"%char.
      change (ascii_of_nat (code "e" - 32)) with "E"%char.
      now rewrite P1, P2, P3, P4. }
    assert (Hunit : spelled "ms" (String u1 (String u2 "")) = true).
    { cbn [spelled].
      change (ascii_of_nat (code "m" - 32)) with "M"%char.
      change (ascii_of_nat (code "s" - 32)) with "S"%char.
      now rewrite U1, U2. }
    auto 10.
  - rewrite Hcap. rewrite E7, consumed_prefix. reflexivity.
Qed.

(** Where the pattern is found, it is at the first place where a text
    of that shape begins. *)
Lemma search_shape (out : string) (cap : option string) :
  search LATENCY_RE out = Some cap ->
  exists pre kw sep gap1 ip frac gap2 unit rest,
    out = (pre ++ kw ++ sep ++ gap1 ++ ip ++ frac ++ gap2 ++ unit ++ rest)%string /\
    reads_latency kw sep gap1 ip frac gap2 unit = true /\
    unmatched pre (kw ++ sep ++ gap1 ++ ip ++ frac ++ gap2 ++ unit ++ rest)%string
    = true /\
    cap = Some (ip ++ frac)%string.
Proof.
  induction out as [|c out IH]; cbn [search].
  - destruct (rmatch LATENCY_RE None "") as [|[s1 c1] l] eqn:E;
      [discriminate|].
    intros H. injection H as <-.
    destruct (LATENCY_RE_shape None "" (s1, c1))
      as [kw [sep [gap1 [ip [frac [gap2 [unit [Hs [Hr Hc]]]]]]]]];
      [rewrite E; now left|].
    exists "", kw, sep, gap1, ip, frac, gap2, unit, s1. auto.
  - destruct (rmatch LATENCY_RE None (String c out)) as [|[s1 c1] l] eqn:E.
    + intros H. destruct (IH H)
        as [pre [kw [sep [gap1 [ip [frac [gap2 [unit [rest
             [Hs [Hr [Hu Hc]]]]]]]]]]]].
      exists (String c pre), kw, sep, gap1, ip, frac, gap2, unit, rest.
      split; [cbn [append]; now rewrite <- Hs|]. split; [exact Hr|].
      split; [|exact Hc].
      cbn [unmatched append]. rewrite <- Hs, E. exact Hu.
    + intros H. injection H as <-.
      destruct (LATENCY_RE_shape None (String c out) (s1, c1))
        as [kw [sep [gap1 [ip [frac [gap2 [unit [Hs [Hr Hc]]]]]]]]];
        [rewrite E; now left|].
      exists "", kw, sep, gap1, ip, frac, gap2, unit, s1. auto.
Qed.

(** What [ping_once] reads where a text of that shape is the first the
    pattern matches. *)
Lemma parse_latency_shape
  (pre kw sep gap1 ip frac gap2 unit rest : string) :
  reads_latency kw sep gap1 ip frac gap2 unit = true ->
  unmatched pre (kw ++ sep ++ gap1 ++ ip ++ frac ++ gap2 ++ unit ++ rest)%string
  = true ->
  parse_latency
    (pre ++ kw ++ sep ++ gap1 ++ ip ++ frac ++ gap2 ++ unit ++ rest)%string
  = float_of_decimal (ip ++ frac)%string.
Proof.
  intros Hr Hpre. apply reads_latency_parts in Hr.
  destruct Hr as [Hkw [Hsep [Hg1 [Hip [Hfrac [Hg2 Hunit]]]]]].
  unfold parse_latency. rewrite (search_unmatched _ _ Hpre).
  pose proof (first_way_latency kw gap1 ip frac gap2 unit rest
                Hkw Hg1 Hip Hfrac Hg2 Hunit sep Hsep) as Hfirst.
  unfold first_way in Hfirst.
  remember (kw ++ sep ++ gap1 ++ ip ++ frac ++ gap2 ++ unit ++ rest)%string
    as text eqn:Htext.
  destruct text as [|c text].
  - cbn [search].
    destruct (rmatch LATENCY_RE None "") as [|[s1 c1] l]; [discriminate|].
    simpl in Hfirst. now injection Hfirst as _ ->.
  - cbn [search].
    destruct (rmatch LATENCY_RE None (String c text)) as [|[s1 c1] l];
      [discriminate|].
    simpl in Hfirst. now injection Hfirst as _ ->.
Qed.

End Shape.

(** C10: where the output of ping holds, at the first place the latency
    pattern matches, [time] in any case, a separator [<] or [=] or none,
    a decimal literal and [ms] in any case, [ping_once] reports as latency
    the binary64 value nearest to the number the literal writes, whichever
    separator is written: 1.0 for [time<1 ms], not a value below one
    millisecond.  No output changes its latency when every [<] is written
    [=], and every output the pattern matches holds such a text at the
    first match, and reports its literal. *)
Theorem latency_is_literal_after_separator
  (pre kw sep gap1 ip frac gap2 unit rest stderr : string) (returncode : Z) :
  reads_latency kw sep gap1 ip frac gap2 unit = true ->
  unmatched pre
    (kw ++ sep ++ gap1 ++ ip ++ frac ++ gap2 ++ unit ++ rest
     ++ String "010" EmptyString ++ stderr)%string = true ->
  exists v,
    attempt_result
      (Completed returncode
         (pre ++ kw ++ sep ++ gap1 ++ ip ++ frac ++ gap2 ++ unit ++ rest)%string
         stderr)
    = Ok ((returncode =? 0)%Z, Some v, returncode) /\
    nearest_binary64 (literal_value ip frac) v /\
    (ip = "1" -> frac = "" -> v = float_1) /\
    (forall out, parse_latency (smap less_to_equal out) = parse_latency out) /\
    (forall out,
        search LATENCY_RE out <> None ->
        exists pre' kw' sep' gap1' ip' frac' gap2' unit' rest' v',
          out = (pre' ++ kw' ++ sep' ++ gap1' ++ ip' ++ frac' ++ gap2'
                 ++ unit' ++ rest')%string /\
          reads_latency kw' sep' gap1' ip' frac' gap2' unit' = true /\
          unmatched pre'
            (kw' ++ sep' ++ gap1' ++ ip' ++ frac' ++ gap2' ++ unit'
             ++ rest')%string = true /\
          parse_latency out = Some v' /\
          nearest_binary64 (literal_value ip' frac') v').
Proof.
  intros Hr Hpre.
  pose proof Hr as Hparts. apply reads_latency_parts in Hparts.
  destruct Hparts as [_ [_ [_ [Hip [Hfrac _]]]]].
  pose proof (float_of_decimal_ratio ip frac Hip Hfrac) as Hv.
  destruct (float_of_decimal_nearest ip frac Hip Hfrac) as [v [Hv' Hnear]].
  exists v. split; [|split; [exact Hnear|split; [|split]]].
  - unfold attempt_result. do 2 f_equal. f_equal.
    set (tail := (rest ++ String "010" EmptyString ++ stderr)%string) in *.
    assert (E : ((pre ++ kw ++ sep ++ gap1 ++ ip ++ frac ++ gap2 ++ unit
                  ++ rest) ++ String "010" EmptyString ++ stderr
                 = pre ++ kw ++ sep ++ gap1 ++ ip ++ frac ++ gap2 ++ unit
                   ++ tail)%string).
    { subst tail. rewrite !append_assoc. reflexivity. }
    rewrite E, (parse_latency_shape _ _ _ _ _ _ _ _ _ Hr Hpre). exact Hv'.
  - intros -> ->. rewrite Hv in Hv'. injection Hv' as <-. reflexivity.
  - apply parse_latency_renamed.
  - intros out Hout.
    destruct (search LATENCY_RE out) as [cap|] eqn:Hs; [|contradiction].
    destruct (search_shape out cap Hs)
      as [pre' [kw' [sep' [gap1' [ip' [frac' [gap2' [unit' [rest'
           [Hout' [Hr' [Hu' Hcap]]]]]]]]]]]].
    pose proof Hr' as Hparts. apply reads_latency_parts in Hparts.
    destruct Hparts as [_ [_ [_ [Hip' [Hfrac' _]]]]].
    destruct (float_of_decimal_nearest ip' frac' Hip' Hfrac')
      as [v' [Hv'' Hnear']].
    exists pre', kw', sep', gap1', ip', frac', gap2', unit', rest', v'.
    split; [exact Hout'|]. split; [exact Hr'|]. split; [exact Hu'|].
    split; [|exact Hnear'].
    unfold parse_latency. rewrite Hs, Hcap. exact Hv''.
Qed.

Lemma latency_is_literal_after_separator_witness :
  exists v,
    attempt_result
      (Completed 0
         (windows_reply_prefix ++ "time" ++ "<" ++ "" ++ "1" ++ "" ++ ""
          ++ "ms" ++ " TTL=64")%string
         "")
    = Ok ((0 =? 0)%Z, Some v, 0%Z) /\
    nearest_binary64 (literal_value "1" "") v /\
    ("1" = "1" -> "" = "" -> v = float_1) /\
    (forall out, parse_latency (smap less_to_equal out) = parse_latency out) /\
    (forall out,
        search LATENCY_RE out <> None ->
        exists pre' kw' sep' gap1' ip' frac' gap2' unit' rest' v',
          out = (pre' ++ kw' ++ sep' ++ gap1' ++ ip' ++ frac' ++ gap2'
                 ++ unit' ++ rest')%string /\
          reads_latency kw' sep' gap1' ip' frac' gap2' unit' = true /\
          unmatched pre'
            (kw' ++ sep' ++ gap1' ++ ip' ++ frac' ++ gap2' ++ unit'
             ++ rest')%string = true /\
          parse_latency out = Some v' /\
          nearest_binary64 (literal_value ip' frac') v').
Proof.
  apply (latency_is_literal_after_separator
           windows_reply_prefix "time" "<" "" "1" "" "" "ms" " TTL=64" "" 0).
  - reflexivity.
  - vm_compute. reflexivity.
Defined.

(** ** [cmd_scan] *)

Section Scan.

Variable w : world.
Variable retries t : Z.

Lemma ping_host_launches (host : string) (log : list call) :
  launches w ->
  exists m,
    ping_host w host retries t log
    = (Ok m, log ++ repeat (host, t) (attempt_count retries)).
Proof.
  intros Hl.
  destruct (answers_exist w host t (attempt_count retries) (List.length log))
    as [outs [Hlen Hans]]; [intros i _; apply Hl|].
  rewrite (ping_host_returns w host t retries log outs Hlen Hans).
  destruct (summarize outs None 0%Z None) as [[best s] lrc]. eauto.
Qed.

Lemma produced_host (host : string) (log log' : list call) (m : row) :
  ping_host w host retries t log = (Ok m, log') -> host_of m = host.
Proof.
  intros H. destruct (ping_host_fields _ _ _ _ _ _ _ H)
    as [b [lat [ts [rc [s [-> _]]]]]].
  reflexivity.
Qed.

Lemma scan_loop_returns :
  forall hosts acc log,
    launches w ->
    exists batch,
      scan_loop w hosts retries t acc log
      = (Ok (acc ++ batch), log ++ scan_calls hosts retries t) /\
      map host_of batch = hosts /\
      Forall produced batch.
Proof.
  induction hosts as [|h hosts IH]; intros acc log Hl.
  - exists []. simpl. unfold ret. rewrite !app_nil_r. auto.
  - destruct (ping_host_launches h log Hl) as [m Hm].
    destruct (IH (acc ++ [m]) (log ++ repeat (h, t) (attempt_count retries)) Hl)
      as [batch [Heq [Hhosts Hprod]]].
    exists (m :: batch). cbn [scan_loop]. unfold io_bind at 1.
    rewrite Hm, Heq. unfold scan_calls. cbn [flat_map].
    rewrite <- !app_assoc. split; [reflexivity|]. split.
    + simpl. now rewrite (produced_host h log _ m Hm), Hhosts.
    + constructor; [|exact Hprod]. unfold produced. eauto 10.
Qed.

(** Each measurement of the batch is the one [ping_host] returns for its
    host, called after the attempts on the hosts before it. *)
Lemma scan_loop_measures :
  forall hosts acc log,
    launches w ->
    exists batch,
      scan_loop w hosts retries t acc log
      = (Ok (acc ++ batch), log ++ scan_calls hosts retries t) /\
      List.length batch = List.length hosts /\
      forall i h,
        nth_error hosts i = Some h ->
        exists m,
          nth_error batch i = Some m /\
          ping_host w h retries t
            (log ++ scan_calls (firstn i hosts) retries t)
          = (Ok m, log ++ scan_calls (firstn (S i) hosts) retries t).
Proof.
  induction hosts as [|h hosts IH]; intros acc log Hl.
  - exists []. simpl. unfold ret. rewrite !app_nil_r.
    split; [reflexivity|]. split; [reflexivity|].
    intros [|i] h'; discriminate.
  - destruct (ping_host_launches h log Hl) as [m Hm].
    destruct (IH (acc ++ [m]) (log ++ repeat (h, t) (attempt_count retries)) Hl)
      as [batch [Heq [Hlen Hnth]]].
    exists (m :: batch). cbn [scan_loop]. unfold io_bind at 1.
    rewrite Hm, Heq. unfold scan_calls. cbn [flat_map].
    rewrite <- !app_assoc. split; [reflexivity|].
    split; [simpl; now rewrite Hlen|].
    intros [|i] h' Hi; cbn [nth_error firstn flat_map] in *.
    + injection Hi as <-. exists m. split; [reflexivity|].
      rewrite !app_nil_r. exact Hm.
    + destruct (Hnth i h' Hi) as [m' [Hm' Hp]]. exists m'.
      split; [exact Hm'|].
      fold (scan_calls (firstn i hosts) retries t).
      change (flat_map _ (firstn i hosts))
        with (scan_calls (firstn i hosts) retries t).
      rewrite <- !app_assoc in Hp. cbn [firstn] in Hp. exact Hp.
Qed.

Lemma scan_loop_prefix :
  forall before rest acc log batch log1,
    scan_loop w before retries t acc log = (Ok batch, log1) ->
    scan_loop w (before ++ rest) retries t acc log
    = scan_loop w rest retries t batch log1.
Proof.
  induction before as [|h before IH]; intros rest acc log batch log1 H.
  - simpl in H. unfold ret in H. now injection H as <- <-.
  - cbn [scan_loop app] in *. unfold io_bind at 1 in H.
    unfold io_bind at 1.
    destruct (ping_host w h retries t log) as [[m|e] log0]; [|discriminate].
    now apply IH.
Qed.

End Scan.

(** When the ping command can be started, [cmd_scan] returns the history
    it was given followed by one measurement per saved host, in the order
    of the hosts: the measurement [ping_host] returns for that host in
    this scan, with the given [retries] and timeout, called after the
    [max(1, retries)] attempts on each host before it.  The history only
    grows. *)
Theorem cmd_scan_appends
  (w : world) (hosts : list string) (results : list row) (retries t : Z)
  (log : list call) :
  launches w ->
  exists batch,
    cmd_scan w hosts results retries t log
    = (Ok (results ++ batch), log ++ scan_calls hosts retries t) /\
    List.length batch = List.length hosts /\
    (forall i h,
        nth_error hosts i = Some h ->
        exists m,
          nth_error batch i = Some m /\
          ping_host w h retries t
            (log ++ scan_calls (firstn i hosts) retries t)
          = (Ok m, log ++ scan_calls (firstn (S i) hosts) retries t)) /\
    map host_of batch = hosts /\
    Forall produced batch.
Proof.
  intros Hl. destruct hosts as [|h hosts].
  - exists []. simpl. unfold ret. rewrite !app_nil_r.
    split; [reflexivity|]. split; [reflexivity|].
    split; [intros [|i] h'; discriminate|]. auto.
  - destruct (scan_loop_returns w retries t (h :: hosts) [] log Hl)
      as [batch [Heq [Hhosts Hprod]]].
    destruct (scan_loop_measures w retries t (h :: hosts) [] log Hl)
      as [batch' [Heq' [Hlen Hnth]]].
    assert (batch' = batch)
      by (rewrite Heq in Heq'; simpl in Heq'; congruence).
    subst batch'.
    exists batch. unfold cmd_scan, io_bind. rewrite Heq. simpl. auto.
Qed.

Lemma cmd_scan_appends_witness :
  exists batch,
    cmd_scan three_successes ["a"; "b"] [tie_first] 1 1000 []
    = (Ok ([tie_first] ++ batch), [] ++ scan_calls ["a"; "b"] 1 1000) /\
    List.length batch = List.length ["a"; "b"] /\
    (forall i h,
        nth_error ["a"; "b"] i = Some h ->
        exists m,
          nth_error batch i = Some m /\
          ping_host three_successes h 1 1000
            ([] ++ scan_calls (firstn i ["a"; "b"]) 1 1000)
          = (Ok m, [] ++ scan_calls (firstn (S i) ["a"; "b"]) 1 1000)) /\
    map host_of batch = ["a"; "b"] /\
    Forall produced batch.
Proof.
  apply (cmd_scan_appends three_successes ["a"; "b"] [tie_first] 1 1000 []).
  intros n host timeout_ms. simpl.
  destruct n as [|[|[|n]]]; try discriminate.
  destruct n; discriminate.
Defined.

(** An exception met while probing a host ends [cmd_scan] at that host,
    whatever hosts follow: the scan raises the same exception, the later
    hosts are not probed and no history is returned to be stored, the
    measurements of the hosts before included. *)
Theorem cmd_scan_stops_at_exception
  (w : world) (before after : list string) (h : string) (results : list row)
  (retries t : Z) (log log1 log2 : list call) (batch : list row) (e : exn) :
  scan_loop w before retries t [] log = (Ok batch, log1) ->
  ping_host w h retries t log1 = (Raise e, log2) ->
  cmd_scan w (before ++ h :: after) results retries t log = (Raise e, log2).
Proof.
  intros Hbefore Hh.
  assert (Hloop : scan_loop w (before ++ h :: after) retries t [] log
                  = (Raise e, log2)).
  { rewrite (scan_loop_prefix w retries t before (h :: after) [] log batch
               log1 Hbefore).
    cbn [scan_loop]. unfold io_bind at 1. now rewrite Hh. }
  unfold cmd_scan.
  destruct before as [|b before]; cbn [app] in Hloop |- *;
    unfold io_bind; now rewrite Hloop.
Qed.

Lemma cmd_scan_stops_at_exception_witness :
  cmd_scan launch_fails_on_second_host (["a"] ++ "b" :: ["c"]) [tie_first]
           1 1000 []
  = (Raise OSError, [("a", 1000%Z); ("b", 1000%Z)]).
Proof.
  apply (cmd_scan_stops_at_exception launch_fails_on_second_host
           ["a"] ["c"] "b" [tie_first] 1 1000 [] [("a", 1000%Z)]
           [("a", 1000%Z); ("b", 1000%Z)]
           [[("host", VStr "a"); ("reachable", VBool false);
             ("latency_ms", VNone);
             ("timestamp", VStr "2024-05-01T12:00:00Z");
             ("raw_exit", VInt 124); ("attempts", VInt 1);
             ("successes", VInt 0)]]).
  - reflexivity.
  - reflexivity.
Defined.

(** ** Reports and exports of scanned histories *)

Section ScannedHistory.

Lemma produced_typed (m : row) :
  produced m ->
  is_measurement m = true /\ is_report_row m = true /\
  dict_keys m = measurement_keys.
Proof.
  intros [w [host [retries [t [log [log' H]]]]]].
  destruct (ping_host_fields _ _ _ _ _ _ _ H)
    as [b [lat [ts [rc [s [-> [Hlat _]]]]]]].
  split; [reflexivity|]. split; [|reflexivity].
  destruct Hlat as [->|[f [-> Hf]]]; [reflexivity|].
  unfold is_report_row. simpl.
  now rewrite (not_negative_number f Hf).
Qed.

Lemma fieldnames_in (rows : list row) (k : string) :
  In k (fieldnames rows) <->
  In k base_fields \/ exists r, In r rows /\ In k (dict_keys r).
Proof.
  destruct (extra_fields_spec rows) as [Hnd Hin].
  destruct (sorted_strings_spec _ Hnd) as [Hperm _].
  unfold fieldnames. rewrite in_app_iff, filter_In, negb_true_iff, <- Hin.
  split.
  - intros [H|[H _]]; [now left|]. right.
    now apply (Permutation_in _ (Permutation_sym Hperm)).
  - intros [H|H]; [now left|].
    destruct (mem k base_fields) eqn:E; [left; now apply mem_In|].
    right. split; [|reflexivity]. now apply (Permutation_in _ Hperm).
Qed.

Lemma fieldnames_distinct (rows : list row) : NoDup (fieldnames rows).
Proof.
  destruct (extra_fields_spec rows) as [Hnd _].
  destruct (sorted_strings_spec _ Hnd) as [_ Hs].
  unfold fieldnames. apply NoDup_app.
  - repeat constructor; simpl; intuition discriminate.
  - apply strictly_sorted_NoDup. now apply StronglySorted_filter.
  - intros k Hk Hk'. apply filter_In in Hk'. destruct Hk' as [_ Hk'].
    apply negb_true_iff in Hk'. apply mem_In in Hk. congruence.
Qed.

Lemma extra_fields_same_keys (keys : list string) :
  set_update keys keys = keys ->
  forall rows,
    Forall (fun r : row => dict_keys r = keys) rows ->
    fold_left (fun s (r : row) => set_update s (dict_keys r)) rows keys = keys.
Proof.
  intros Hk. induction 1 as [|r rows Hr _ IH]; simpl; [reflexivity|].
  now rewrite Hr, Hk.
Qed.

End ScannedHistory.

(** The header never misses a key: every key of every exported row is a
    column, and no column comes twice, so [csv.DictWriter] meets no field
    outside its [fieldnames]. *)
Theorem fieldnames_cover_rows (rows : list row) :
  NoDup (fieldnames rows) /\
  forall r k, In r rows -> In k (dict_keys r) -> In k (fieldnames rows).
Proof.
  split; [apply fieldnames_distinct|].
  intros r k Hr Hk. apply fieldnames_in. right. eauto.
Qed.

(** A history made of measurements of [ping_host] is never refused by the
    report: [cmd_report] lists one row per host of the history, each taken
    from the history, in the order of the report. *)
Theorem report_of_scanned_history (history : list row) :
  Forall produced history ->
  exists rows,
    report_rows history = Ok rows /\
    NoDup (map host_of rows) /\
    (forall h, In h (map host_of rows) <-> In h (map host_of history)) /\
    (forall r, In r rows -> In r history) /\
    StronglySorted report_before rows.
Proof.
  intros Hprod.
  assert (Hm : Forall (fun r => is_measurement r = true) history).
  { eapply Forall_impl; [|exact Hprod]. intros r Hr. now apply produced_typed. }
  destruct (latest_per_host_inv history Hm)
    as [latest [Heq [Hnd [Hrows Hhist]]]].
  assert (Hsub : forall r, In r latest -> In r history)
    by (intros r Hr; apply first_latest_in; now apply Hrows).
  assert (Hrep : Forall (fun r => is_report_row r = true) latest).
  { apply Forall_forall. intros r Hr. rewrite Forall_forall in Hprod.
    now apply produced_typed, Hprod, Hsub. }
  destruct (report_sort_sorted latest Hrep) as [rows [Hsort [Hperm Hs]]].
  exists rows. unfold report_rows. rewrite Heq. cbn [bind].
  split; [exact Hsort|]. split; [|split; [|split]].
  - apply (Permutation_NoDup (Permutation_map host_of Hperm) Hnd).
  - intros h. split.
    + intros Hh. apply (Permutation_in _ (Permutation_sym
                          (Permutation_map host_of Hperm))) in Hh.
      apply in_map_iff in Hh. destruct Hh as [r [<- Hr]].
      apply in_map. now apply Hsub.
    + intros Hh. apply (Permutation_in _ (Permutation_map host_of Hperm)).
      apply in_map_iff in Hh. destruct Hh as [x [<- Hx]]. now apply Hhist.
  - intros r Hr. apply Hsub.
    now apply (Permutation_in _ (Permutation_sym Hperm)).
  - exact Hs.
Qed.

Lemma measured_h_produced : produced measured_h.
Proof.
  exists success_timeout_success, "h", 3%Z, 1000%Z, [],
    [("h", 1000%Z); ("h", 1000%Z); ("h", 1000%Z)].
  vm_compute. reflexivity.
Qed.

Lemma report_of_scanned_history_witness :
  exists rows,
    report_rows [measured_h; measured_h] = Ok rows /\
    NoDup (map host_of rows) /\
    (forall h, In h (map host_of rows) <->
               In h (map host_of [measured_h; measured_h])) /\
    (forall r, In r rows -> In r [measured_h; measured_h]) /\
    StronglySorted report_before rows.
Proof.
  apply (report_of_scanned_history [measured_h; measured_h]).
  repeat constructor; apply measured_h_produced.
Defined.

(** Exporting a history made of measurements of [ping_host], whole or
    reduced to the latest per host, writes the five fixed columns followed
    by [attempts] and [successes]. *)
Theorem export_of_scanned_history (latest : bool) (history : list row) :
  history <> [] ->
  Forall produced history ->
  exists rows,
    export_rows latest history = Ok rows /\
    rows <> [] /\
    fieldnames rows
    = ["host"; "reachable"; "latency_ms"; "timestamp"; "raw_exit";
       "attempts"; "successes"].
Proof.
  intros Hne Hprod.
  assert (Hfields : forall rows,
             rows <> [] -> Forall produced rows ->
             fieldnames rows
             = ["host"; "reachable"; "latency_ms"; "timestamp"; "raw_exit";
                "attempts"; "successes"]).
  { intros rows Hrows Hall. unfold fieldnames, extra_fields.
    destruct rows as [|r rows]; [contradiction|].
    inversion Hall as [|r' rows' Hr Hrest]; subst. cbn [fold_left].
    destruct (produced_typed r Hr) as [_ [_ ->]].
    change (set_update [] measurement_keys) with measurement_keys.
    rewrite (extra_fields_same_keys measurement_keys eq_refl); [reflexivity|].
    eapply Forall_impl; [|exact Hrest]. intros x Hx.
    now apply produced_typed. }
  destruct latest; cbn [export_rows].
  - assert (Hm : Forall (fun r => is_measurement r = true) history).
    { eapply Forall_impl; [|exact Hprod]. intros r Hr.
      now apply produced_typed. }
    destruct (latest_per_host_inv history Hm)
      as [rows [Heq [Hnd [Hrows Hhist]]]].
    exists rows. split; [exact Heq|].
    assert (Hrne : rows <> []).
    { destruct history as [|x history]; [contradiction|].
      pose proof (Hhist x (or_introl eq_refl)) as Hx.
      intros ->. contradiction. }
    split; [exact Hrne|]. apply Hfields; [exact Hrne|].
    apply Forall_forall. intros r Hr. rewrite Forall_forall in Hprod.
    apply Hprod, first_latest_in. now apply Hrows.
  - exists history. auto.
Qed.

Lemma export_of_scanned_history_witness :
  exists rows,
    export_rows true [measured_h; measured_h] = Ok rows /\
    rows <> [] /\
    fieldnames rows
    = ["host"; "reachable"; "latency_ms"; "timestamp"; "raw_exit";
       "attempts"; "successes"].
Proof.
  apply (export_of_scanned_history true [measured_h; measured_h]).
  - discriminate.
  - repeat constructor; apply measured_h_produced.
Defined.

(** ** More on the latest-per-host reduction *)

Section MoreLatest.

Lemma latest_loop_distinct :
  forall todo done,
    Forall (fun r => is_measurement r = true) todo ->
    NoDup (map host_of (done ++ todo)) ->
    latest_loop todo (keyed done) = Ok (keyed (done ++ todo)).
Proof.
  induction todo as [|x todo IH]; intros done Hall Hnd.
  - now rewrite app_nil_r.
  - inversion Hall as [|x' todo' Hm Hrest]; subst.
    cbn [latest_loop]. rewrite (measurement_host x Hm). cbn [bind].
    rewrite dict_find_keyed.
    assert (Hnew : ~ In (host_of x) (map host_of done)).
    { rewrite map_app in Hnd. simpl in Hnd.
      apply NoDup_remove_2 in Hnd. intros H. apply Hnd.
      apply in_or_app. now left. }
    pose proof Hnew as Hf. apply find_host_none in Hf. rewrite Hf.
    rewrite dict_set_keyed, (upsert_new _ _ Hnew).
    replace (done ++ x :: todo) with ((done ++ [x]) ++ todo)
      by now rewrite <- app_assoc.
    apply IH; [exact Hrest|]. now rewrite <- app_assoc.
Qed.

Lemma latest_loop_app :
  forall a b acc,
    latest_loop (a ++ b) acc
    = (acc' <- latest_loop a acc ;; latest_loop b acc').
Proof.
  induction a as [|x a IH]; intros b acc; [reflexivity|].
  cbn [app latest_loop].
  destruct (getitem x "host") as [host|e]; [|reflexivity]. cbn [bind].
  destruct (dict_find py_eq acc host) as [cur|]; [|apply IH].
  destruct (py_gt _ _) as [[|]|e]; cbn [bind]; [apply IH|apply IH|reflexivity].
Qed.

End MoreLatest.

(** Reducing again changes nothing: what [latest_per_host] returns for a
    history of measurements it returns for its own result. *)
Theorem latest_per_host_idempotent (history : list row) :
  Forall (fun r => is_measurement r = true) history ->
  exists rows,
    latest_per_host history = Ok rows /\ latest_per_host rows = Ok rows.
Proof.
  intros Hall.
  destruct (latest_per_host_inv history Hall) as [rows [Heq [Hnd [Hrows _]]]].
  exists rows. split; [exact Heq|].
  unfold latest_per_host. change (@nil (value * row)) with (keyed []).
  rewrite (latest_loop_distinct rows []); [|apply Forall_forall; apply Hrows|
                                            exact Hnd].
  cbn [bind app]. now rewrite dict_values_keyed.
Qed.

Lemma latest_per_host_idempotent_witness :
  exists rows,
    latest_per_host example_history = Ok rows /\
    latest_per_host rows = Ok rows.
Proof.
  apply (latest_per_host_idempotent example_history).
  repeat constructor.
Defined.

(** A record without a [host] stops the reduction with [KeyError], however
    many good measurements come before it and whatever follows. *)
Theorem latest_per_host_missing_host
  (good rest : list row) (bad : row) :
  Forall (fun r => is_measurement r = true) good ->
  dict_find String.eqb bad "host" = None ->
  latest_per_host (good ++ bad :: rest) = Raise (KeyError "host") /\
  report_rows (good ++ bad :: rest) = Raise (KeyError "host") /\
  export_rows true (good ++ bad :: rest) = Raise (KeyError "host") /\
  export_rows false (good ++ bad :: rest) = Ok (good ++ bad :: rest).
Proof.
  intros Hgood Hbad.
  assert (H : latest_per_host (good ++ bad :: rest) = Raise (KeyError "host")).
  { unfold latest_per_host. rewrite latest_loop_app.
    destruct (latest_loop_inv good [] [] Hgood) as [rows [Heq _]].
    { split; [constructor|split]; intros ? []. }
    change (@nil (value * row)) with (keyed []). rewrite Heq. cbn [bind].
    cbn [latest_loop]. unfold getitem. now rewrite Hbad. }
  unfold report_rows, export_rows. now rewrite H.
Qed.

Lemma latest_per_host_missing_host_witness :
  latest_per_host (example_history ++ [("timestamp", VStr "30")] :: [])
  = Raise (KeyError "host") /\
  report_rows (example_history ++ [("timestamp", VStr "30")] :: [])
  = Raise (KeyError "host") /\
  export_rows true (example_history ++ [("timestamp", VStr "30")] :: [])
  = Raise (KeyError "host") /\
  export_rows false (example_history ++ [("timestamp", VStr "30")] :: [])
  = Ok (example_history ++ [("timestamp", VStr "30")] :: []).
Proof.
  apply (latest_per_host_missing_host example_history []
           [("timestamp", VStr "30")]).
  - repeat constructor.
  - reflexivity.
Defined.

(** Measurements appended with timestamps strictly after every older
    measurement of their hosts, one per host, are the ones the reduction
    keeps for these hosts: a fresh scan is what the report shows.  (With
    an equal timestamp the older record would stay.) *)
Theorem latest_per_host_shows_fresh_scan (old batch : list row) :
  Forall (fun r => is_measurement r = true) (old ++ batch) ->
  NoDup (map host_of batch) ->
  (forall b x, In b batch -> In x old -> host_of x = host_of b ->
               (timestamp_of x <? timestamp_of b) = true) ->
  exists rows,
    latest_per_host (old ++ batch) = Ok rows /\
    forall b, In b batch -> In b rows.
Proof.
  intros Hall Hnd Hnew.
  destruct (latest_per_host_characterised _ Hall) as [rows [Heq [_ Hchar]]].
  exists rows. split; [exact Heq|]. intros b Hb. apply Hchar.
  apply in_split in Hb. destruct Hb as [b1 [b2 ->]].
  rewrite map_app in Hnd. simpl in Hnd.
  pose proof (NoDup_remove_2 _ _ _ Hnd) as Hnot.
  exists (old ++ b1), b2. split; [now rewrite <- app_assoc|]. split.
  - intros x Hx E. apply in_app_or in Hx. destruct Hx as [Hx|Hx].
    + apply Hnew; auto. apply in_or_app. right. now left.
    + exfalso. apply Hnot. apply in_or_app. left. rewrite <- E.
      now apply in_map.
  - intros x Hx E. exfalso. apply Hnot. apply in_or_app. right.
    rewrite <- E. now apply in_map.
Qed.

Lemma latest_per_host_shows_fresh_scan_witness :
  exists rows,
    latest_per_host
      ([at_time "A" "10"; at_time "B" "5"] ++ [at_time "A" "20"]) = Ok rows /\
    forall b, In b [at_time "A" "20"] -> In b rows.
Proof.
  apply (latest_per_host_shows_fresh_scan
           [at_time "A" "10"; at_time "B" "5"] [at_time "A" "20"]).
  - repeat constructor.
  - repeat constructor. intros [].
  - intros b x [<-|[]] [<-|[<-|[]]]; try reflexivity. discriminate.
Defined.

Section NullTimestamp.

Lemma py_lt_none (x : value) : py_lt VNone x = Raise TypeError.
Proof. now destruct x. Qed.

(** A stored record of another host does not change what the loop does
    with the records of the hosts it meets. *)
Lemma latest_loop_frame (h : string) (v : row) :
  forall todo acc,
    Forall (fun r => is_measurement r = true /\ host_of r <> h) todo ->
    latest_loop todo ((VStr h, v) :: acc)
    = (acc' <- latest_loop todo acc ;; Ok ((VStr h, v) :: acc')).
Proof.
  induction todo as [|x todo IH]; intros acc Hall; [reflexivity|].
  inversion Hall as [|x' todo' [Hm Hne] Hrest]; subst.
  cbn [latest_loop]. rewrite (measurement_host x Hm). cbn [bind].
  assert (E : (h =? host_of x) = false)
    by (apply String.eqb_neq; congruence).
  cbn [dict_find dict_set py_eq]. rewrite E.
  destruct (dict_find py_eq acc (VStr (host_of x))) as [cur|].
  - destruct (py_gt _ _) as [[|]|e]; cbn [bind];
      [apply IH|apply IH|reflexivity]; exact Hrest.
  - now apply IH.
Qed.

End NullTimestamp.

(** A record whose [timestamp] is [null] is kept when it is the only one
    of its host, but the next record of that host stops the reduction
    with [TypeError]: the stored timestamp is compared as it is. *)
Theorem latest_per_host_null_timestamp
  (h : string) (first again : row) (between rest : list row) :
  dict_find String.eqb first "host" = Some (VStr h) ->
  dict_find String.eqb first "timestamp" = Some VNone ->
  Forall (fun r => is_measurement r = true /\ host_of r <> h) between ->
  dict_find String.eqb again "host" = Some (VStr h) ->
  (exists rows, latest_per_host (first :: between) = Ok (first :: rows)) /\
  latest_per_host (first :: between ++ again :: rest) = Raise TypeError.
Proof.
  intros Hhost Hts Hbetween Hagain.
  assert (Hm : Forall (fun r => is_measurement r = true) between)
    by (eapply Forall_impl; [|exact Hbetween]; now intros r [H _]).
  destruct (latest_loop_inv between [] [] Hm) as [rows [Heq _]].
  { split; [constructor|split]; intros ? []. }
  change (keyed []) with (@nil (value * row)) in Heq.
  assert (Hloop : latest_loop between [(VStr h, first)]
                  = Ok ((VStr h, first) :: keyed rows)).
  { rewrite (latest_loop_frame h first between [] Hbetween), Heq.
    reflexivity. }
  split.
  - exists rows. unfold latest_per_host. cbn [latest_loop].
    unfold getitem. rewrite Hhost. cbn [bind dict_find dict_set].
    rewrite Hloop. cbn [bind]. unfold dict_values. cbn [map snd].
    fold (dict_values (keyed rows)). now rewrite dict_values_keyed.
  - unfold latest_per_host. cbn [latest_loop].
    unfold getitem at 1. rewrite Hhost. cbn [bind dict_find dict_set].
    rewrite latest_loop_app, Hloop. cbn [bind latest_loop].
    unfold getitem. rewrite Hagain. cbn [bind dict_find py_eq].
    rewrite String.eqb_refl.
    unfold get_default. rewrite Hts. unfold py_gt.
    now rewrite py_lt_none.
Qed.

Lemma latest_per_host_null_timestamp_witness :
  (exists rows,
      latest_per_host (null_timestamp :: [at_time "B" "5"])
      = Ok (null_timestamp :: rows)) /\
  latest_per_host
    (null_timestamp :: [at_time "B" "5"] ++ at_time "A" "20" :: [])
  = Raise TypeError.
Proof.
  apply (latest_per_host_null_timestamp "A" null_timestamp (at_time "A" "20")
           [at_time "B" "5"] []).
  - reflexivity.
  - reflexivity.
  - repeat constructor. discriminate.
  - reflexivity.
Defined.

(** ** The command line of [ping_once] *)

Section Invocation.

Lemma seconds_agree_from_spec (n : nat) : forall lo t : Z,
  seconds_agree_from lo n = true ->
  (lo <= t < lo + Z.of_nat n)%Z -> seconds_agree t = true.
Proof.
  induction n as [|n IH]; intros lo t Hall Ht; [lia|].
  cbn [seconds_agree_from] in Hall. apply andb_true_iff in Hall.
  destruct Hall as [Hlo Hrest].
  destruct (Z.eq_dec t lo) as [->|Hne]; [exact Hlo|].
  apply (IH (lo + 1)%Z t Hrest). lia.
Qed.

Lemma seconds_agree_between_spec (lo hi t : Z) :
  seconds_agree_between lo hi = true ->
  (lo <= t <= hi)%Z -> seconds_agree t = true.
Proof.
  unfold seconds_agree_between. intros Hall Ht.
  apply (seconds_agree_from_spec _ lo t Hall). lia.
Qed.

Lemma seconds_agree_half_minute :
  seconds_agree_between (-30000) 30000 = true.
Proof. vm_compute. reflexivity. Qed.

End Invocation.

(** Outside Windows, for a timeout of at most half a minute (negative
    ones included), ping is told to wait [timeout_ms] rounded to whole
    seconds, a half going to the even second and one second being the
    least, and the process is given one second more: 1499 ms and less
    wait 1 s, 1500 ms and 2500 ms both wait 2 s. *)
Theorem ping_waits_whole_seconds (system host : string) (timeout_ms : Z) :
  contains "windows" (lower system) = false ->
  (-30000 <= timeout_ms <= 30000)%Z ->
  ping_invocation system host timeout_ms
  = Some (["ping"; "-c"; "1"; "-W"; str_of_int (whole_seconds timeout_ms); host],
          VInt (whole_seconds timeout_ms + 1)).
Proof.
  intros Hsys Hrange. unfold ping_invocation. rewrite Hsys.
  pose proof (seconds_agree_between_spec _ _ timeout_ms
                seconds_agree_half_minute Hrange) as Hall.
  unfold seconds_agree in Hall.
  destruct (true_div timeout_ms 1000) as [x|]; [|discriminate].
  destruct (round_float x) as [n|]; [|discriminate].
  apply Z.eqb_eq in Hall. now rewrite Hall.
Qed.

Lemma ping_waits_whole_seconds_witness :
  ping_invocation "Linux" "example.com" 2500
  = Some (["ping"; "-c"; "1"; "-W"; str_of_int (whole_seconds 2500);
           "example.com"],
          VInt (whole_seconds 2500 + 1)).
Proof.
  apply (ping_waits_whole_seconds "Linux" "example.com" 2500).
  - reflexivity.
  - lia.
Defined.
